(** * Image-processing service: transformation pipeline, cache keys and job
    lifecycle.

    A shallow embedding of the parts of the repository that the specification
    talks about:

    - [config/cache.js]      : [generateCacheKey] and the NodeCache wrapper;
    - [services/imageProcessor.js] : [applyTransformations] (worker pipeline);
    - [controllers/imageController.js] : [transformImage], [transformImageSync];
    - [config/rabbitmq.js]   : [publishToQueue], [consumeFromQueue];
    - [workers/imageWorker.js] : [processJob].

    Strings are byte strings (the UTF-8 encoding of the JavaScript string); on
    ASCII text this coincides with the UTF-16 code-unit view that
    [Array.prototype.sort] and [JSON.stringify] take.

    A request handler and a delivery to the worker are each one step on a
    [World] (metadata table, disk, caches, queue).  What a run takes from
    outside, the value of [uuidv4()] and the clock, is an argument of the
    step.  The store, the broker and the file system do not fail on their
    own; interleavings inside a step are not modelled.

    The two external libraries are described by their effect on the state
    the repository's code observes: the image library by the size of the
    image it writes ([apply_call]), the cache library by its stored entries
    and statistics ([NodeCache]). *)

From Stdlib Require Import ZArith NArith List String Ascii Permutation Lia.
From Stdlib Require Import DecimalString Sorted.
From stdpp Require Import gmap strings list fin_maps.

Local Open Scope string_scope.

(* ===================================================================== *)
(** ** JSON values, as produced by [JSON.parse] (express.json, amqp payload) *)
(* ===================================================================== *)

#[local] Set Warnings "-register-all".

(** A JavaScript number held in a JSON document.  [JInt z] is an
    integer-valued number in the range where [Number::toString] prints plain
    decimal digits; [JReal lit] is any other finite number, carried by the
    text [Number::toString] prints for it (for instance [0.5] or [1e+21]). *)
Inductive jsnum :=
| JInt (z : Z)
| JReal (lit : string).

Inductive json :=
| JNull
| JBool (b : bool)
| JNum (n : jsnum)
| JStr (s : string)
| JArr (items : list json)
| JObj (fields : list (string * json)).

(** An object is an association list in property-insertion order; JavaScript
    objects never hold one key twice. *)
Fixpoint nodup_keys (ks : list string) : bool :=
  match ks with
  | [] => true
  | k :: r => negb (existsb (String.eqb k) r) && nodup_keys r
  end.

Fixpoint wf_json (v : json) : bool :=
  match v with
  | JArr items => forallb wf_json items
  | JObj fields =>
      nodup_keys (map fst fields)
      && forallb (fun kv => match kv with (_, x) => wf_json x end) fields
  | _ => true
  end.

(** [Number::toString] on the modelled numbers. *)
Definition Number_toString (n : jsnum) : string :=
  match n with
  | JInt z => NilZero.string_of_int (Z.to_int z)
  | JReal lit => lit
  end.

Definition dquote : string := String (ascii_of_nat 34) "".
Definition backslash : string := String (ascii_of_nat 92) "".

Definition hex_digit (n : nat) : string :=
  match String.get n "0123456789abcdef" with
  | Some c => String c ""
  | None => "0"
  end.

(** One code unit of [QuoteJSONString]. *)
Definition quote_char (c : ascii) : string :=
  let n := nat_of_ascii c in
  if Nat.eqb n 8 then backslash +:+ "b"
  else if Nat.eqb n 9 then backslash +:+ "t"
  else if Nat.eqb n 10 then backslash +:+ "n"
  else if Nat.eqb n 12 then backslash +:+ "f"
  else if Nat.eqb n 13 then backslash +:+ "r"
  else if Nat.eqb n 34 then backslash +:+ dquote
  else if Nat.eqb n 92 then backslash +:+ backslash
  else if Nat.ltb n 32 then
    backslash +:+ "u00" +:+ hex_digit (n / 16) +:+ hex_digit (n mod 16)
  else String c "".

Fixpoint quote_body (s : string) : string :=
  match s with
  | EmptyString => ""
  | String c r => quote_char c +:+ quote_body r
  end.

Definition QuoteJSONString (s : string) : string :=
  dquote +:+ quote_body s +:+ dquote.

Fixpoint join_comma (l : list string) : string :=
  match l with
  | [] => ""
  | [x] => x
  | x :: r => x +:+ "," +:+ join_comma r
  end.

(** [holder.[[GetOwnProperty]](P)] followed by [f] on the value found. *)
Definition get_own {A B : Type} (f : A -> B) (P : string)
  : list (string * A) -> option B :=
  fix go fs :=
    match fs with
    | [] => None
    | (k, v) :: r => if String.eqb k P then Some (f v) else go r
    end.

Definition proto_name : string := "__proto__".

(** What [SerializeJSONObject] prints for [Object.prototype] under the
    property list [K]: its only property that is neither absent nor a
    function is the accessor [__proto__], whose value there is [null]. *)
Definition serialize_Object_prototype (K : list string) : string :=
  "{" +:+ join_comma
            (omap (fun P => if String.eqb P proto_name
                            then Some (QuoteJSONString P +:+ ":null")
                            else None) K) +:+ "}".

(** [Get(holder, P)] on a parsed object that has no own property [P]: the
    lookup continues on [Object.prototype].  Its function-valued properties
    serialize to [undefined] and are skipped like absent ones; [__proto__]
    yields [Object.prototype] itself. *)
Definition inherited (K : list string) (P : string) : option string :=
  if String.eqb P proto_name then Some (serialize_Object_prototype K) else None.

(** [SerializeJSONProperty] with a replacer array: [K] is the PropertyList,
    used for the object at every nesting level. *)
Fixpoint serialize (K : list string) (v : json) : string :=
  match v with
  | JNull => "null"
  | JBool b => if b then "true" else "false"
  | JNum n => Number_toString n
  | JStr s => QuoteJSONString s
  | JArr items => "[" +:+ join_comma (map (serialize K) items) +:+ "]"
  | JObj fields =>
      "{" +:+ join_comma
                (omap (fun P =>
                         match get_own (serialize K) P fields with
                         | Some s => Some (QuoteJSONString P +:+ ":" +:+ s)
                         | None =>
                             match inherited K P with
                             | Some s => Some (QuoteJSONString P +:+ ":" +:+ s)
                             | None => None
                             end
                         end) K) +:+ "}"
  end.

(** The PropertyList of a replacer array of strings: its entries in order,
    an entry that is already listed is not listed again. *)
Fixpoint PropertyList (listed replacer : list string) : list string :=
  match replacer with
  | [] => listed
  | item :: rest =>
      if existsb (String.eqb item) listed then PropertyList listed rest
      else PropertyList (listed ++ [item]) rest
  end.

(** [JSON.stringify(value, replacerArray)] for string replacer entries. *)
Definition JSON_stringify (value : json) (replacer : list string) : string :=
  serialize (PropertyList [] replacer) value.

Definition Object_keys (fields : list (string * json)) : list string :=
  map fst fields.

(** [Array.prototype.sort()] without comparator: ascending code-unit order,
    stable. *)
Fixpoint sort_insert (x : string) (l : list string) : list string :=
  match l with
  | [] => [x]
  | y :: r => if String.leb x y then x :: l else y :: sort_insert x r
  end.

Definition Array_sort (l : list string) : list string :=
  fold_right sort_insert [] l.

(** [Buffer.from(s)] : the bytes of the string. *)
Definition Buffer_from (s : string) : list N :=
  map N_of_ascii (list_ascii_of_string s).

Definition base64_alphabet : string :=
  "ABCDEFGHIJKLMNOPQRSTUVWXYZabcdefghijklmnopqrstuvwxyz0123456789+/".

Definition base64_digit (n : N) : string :=
  match String.get (N.to_nat n) base64_alphabet with
  | Some c => String c ""
  | None => "="
  end.

(** [buffer.toString('base64')]. *)
Fixpoint toString_base64 (bs : list N) : string :=
  match bs with
  | [] => ""
  | [a] =>
      base64_digit (N.shiftr a 2)
      +:+ base64_digit (N.shiftl (N.land a 3) 4) +:+ "=="
  | [a; b] =>
      base64_digit (N.shiftr a 2)
      +:+ base64_digit (N.lor (N.shiftl (N.land a 3) 4) (N.shiftr b 4))
      +:+ base64_digit (N.shiftl (N.land b 15) 2) +:+ "="
  | a :: b :: c :: r =>
      base64_digit (N.shiftr a 2)
      +:+ base64_digit (N.lor (N.shiftl (N.land a 3) 4) (N.shiftr b 4))
      +:+ base64_digit (N.lor (N.shiftl (N.land b 15) 2) (N.shiftr c 6))
      +:+ base64_digit (N.land c 63)
      +:+ toString_base64 r
  end.

(** [generateCacheKey] of [config/cache.js]; [transformations] is the field
    list of the request's [transformations] object. *)
Definition generateCacheKey (imageId : string)
    (transformations : list (string * json)) : string :=
  let sortedTransformations :=
    JSON_stringify (JObj transformations)
                   (Array_sort (Object_keys transformations)) in
  "img_" +:+ imageId +:+ "_"
  +:+ toString_base64 (Buffer_from sortedTransformations).

(* ===================================================================== *)
(** ** JavaScript value tests used by the pipeline code *)
(* ===================================================================== *)

(** The result of a property read: [None] is [undefined]. *)
Definition jsval : Type := option json.

(** [ToBoolean]. *)
Definition truthy_json (v : json) : bool :=
  match v with
  | JNull => false
  | JBool b => b
  | JNum (JInt z) => negb (Z.eqb z 0)
  | JNum (JReal _) => true
  | JStr s => negb (String.eqb s "")
  | JArr _ | JObj _ => true
  end.

Definition truthy (v : jsval) : bool :=
  match v with
  | Some x => truthy_json x
  | None => false
  end.

(** [a || d] with a defined right operand. *)
Definition or_else (a : jsval) (d : json) : json :=
  match a with
  | Some x => if truthy_json x then x else d
  | None => d
  end.

(** [o.name] on a value taken from the request body.  Nested sections
    ([resize], [crop], [filters], [watermark]) are objects when present
    ([validateTransformation]); none of the names the pipeline reads exists
    on [Object.prototype], so a missing own property reads as [undefined]. *)
Definition get (o : jsval) (name : string) : jsval :=
  match o with
  | Some (JObj fields) => get_own (fun x => x) name fields
  | _ => None
  end.

Definition field (fields : list (string * json)) (name : string) : jsval :=
  get_own (fun x => x) name fields.

(* ===================================================================== *)
(** ** Paths ([path.extname], [path.join], [String.prototype.toLowerCase]) *)
(* ===================================================================== *)

Definition ascii_is (c : ascii) (n : nat) : bool := Nat.eqb (nat_of_ascii c) n.

(** The part of [s] after its last [/], when it has one. *)
Fixpoint after_last_slash (s : string) : option string :=
  match s with
  | EmptyString => None
  | String c r =>
      match after_last_slash r with
      | Some t => Some t
      | None => if ascii_is c 47 then Some r else None
      end
  end.

Definition path_basename (p : string) : string :=
  match after_last_slash p with
  | Some b => b
  | None => p
  end.

(** The suffix of [s] that starts at its last [.], when it has one. *)
Fixpoint from_last_dot (s : string) : option string :=
  match s with
  | EmptyString => None
  | String c r =>
      match from_last_dot r with
      | Some t => Some t
      | None => if ascii_is c 46 then Some s else None
      end
  end.

(** [path.extname] on a file path (no trailing separator): a dot that
    starts the base name does not start an extension. *)
Definition path_extname (p : string) : string :=
  match path_basename p with
  | EmptyString => ""
  | String c r =>
      if String.eqb (String c r) ".." then ""
      else if ascii_is c 46
           then match from_last_dot r with Some e => e | None => "" end
           else match from_last_dot (String c r) with Some e => e | None => "" end
  end.

(** [s.slice(1)]. *)
Definition slice1 (s : string) : string :=
  match s with
  | EmptyString => ""
  | String _ r => r
  end.

Definition lower_char (c : ascii) : ascii :=
  let n := nat_of_ascii c in
  if Nat.leb 65 n && Nat.leb n 90 then ascii_of_nat (n + 32) else c.

Fixpoint toLowerCase (s : string) : string :=
  match s with
  | EmptyString => ""
  | String c r => String (lower_char c) (toLowerCase r)
  end.

(** [path.join(dir, name)] for a directory without trailing separator. *)
Definition path_join (dir name : string) : string := dir +:+ "/" +:+ name.

(* ===================================================================== *)
(** ** Results of fallible code *)
(* ===================================================================== *)

(** [Err msg] is a thrown [Error] (or rejected promise) with that message. *)
Inductive result (A : Type) :=
| Ok (a : A)
| Err (message : string).
Arguments Ok {A} a.
Arguments Err {A} message.

Definition bind {A B : Type} (r : result A) (k : A -> result B) : result B :=
  match r with
  | Ok a => k a
  | Err m => Err m
  end.

Notation "'let*' x ':=' r 'in' k" := (bind r (fun x => k))
  (at level 10, x pattern, r at level 100, k at level 200).

(* ===================================================================== *)
(** ** The calls issued on a [sharp] instance *)
(* ===================================================================== *)

Record rgba := { r : Z; g : Z; b : Z; alpha : Z }.

(** One builder call, with the argument values the source passes.  An
    argument of type [jsval] that is [None] is [undefined] (or a property
    the options object does not carry). *)
Inductive sharp_call :=
| Resize (width height : jsval) (fit position : json)
         (withoutEnlargement : jsval)
| Extract (left top : json) (width height : jsval)
| Rotate (angle : json) (background : option rgba)
| Flip
| Flop
| Grayscale
| Modulate (brightness saturation hue : jsval)
| Tint (red green blue : Z)
| Blur (sigma : json)
| Sharpen
| Negate
| Normalize
| Gamma (gamma : jsval)
| Composite (watermark : json) (gravity : json)
| Jpeg (quality : json) (mozjpeg : option bool)
| Png (quality : json) (compressionLevel : option Z)
| Webp (quality : json)
| Gif
| Tiff (quality : json)
| Avif (quality : json)
| ToFormat (format : string).

(* ===================================================================== *)
(** ** [applyTransformations] of services/imageProcessor.js: the calls *)
(* ===================================================================== *)

Definition jint (z : Z) : json := JNum (JInt z).

Definition white_transparent : rgba :=
  {| r := 255; g := 255; b := 255; alpha := 0 |}.

Definition worker_resize (resize : jsval) : list sharp_call :=
  if truthy resize then
    let fit := or_else (get resize "fit") (JStr "cover") in
    let position := or_else (get resize "position") (JStr "center") in
    let withoutEnlargement :=
      or_else (get resize "withoutEnlargement") (JBool false) in
    if truthy (get resize "width") && truthy (get resize "height") then
      [Resize (get resize "width") (get resize "height") fit position
              (Some withoutEnlargement)]
    else if truthy (get resize "width") then
      [Resize (get resize "width") (Some JNull) fit position
              (Some withoutEnlargement)]
    else if truthy (get resize "height") then
      [Resize (Some JNull) (get resize "height") fit position
              (Some withoutEnlargement)]
    else []
  else [].

Definition crop_stage (crop : jsval) : list sharp_call :=
  if truthy crop then
    [Extract (or_else (get crop "x") (jint 0)) (or_else (get crop "y") (jint 0))
             (get crop "width") (get crop "height")]
  else [].

Definition worker_rotate (rotate : jsval) : list sharp_call :=
  match rotate with
  | None | Some JNull => []
  | Some angle => [Rotate angle (Some white_transparent)]
  end.

Definition flip_stage (flip : jsval) : list sharp_call :=
  if truthy flip then [Flip] else [].

Definition flop_stage (flop : jsval) : list sharp_call :=
  if truthy flop then [Flop] else [].

Definition when (c : bool) (l : list sharp_call) : list sharp_call :=
  if c then l else [].

Definition worker_filters (filters : jsval) : list sharp_call :=
  if truthy filters then
    when (truthy (get filters "grayscale")) [Grayscale]
    ++ when (truthy (get filters "sepia"))
         [Modulate None (Some (JNum (JReal "0.5"))) None; Tint 112 66 20]
    ++ when (truthy (get filters "blur"))
         [Blur (match get filters "blur" with
                | Some (JNum n) => JNum n
                | _ => jint 3
                end)]
    ++ when (truthy (get filters "sharpen")) [Sharpen]
    ++ when (truthy (get filters "negate")) [Negate]
    ++ when (truthy (get filters "normalize")) [Normalize]
    ++ when (truthy (get filters "gamma")) [Gamma (get filters "gamma")]
    ++ when (truthy (get filters "brightness"))
         [Modulate (get filters "brightness") None None]
    ++ when (truthy (get filters "saturation"))
         [Modulate None (get filters "saturation") None]
    ++ when (truthy (get filters "hue")) [Modulate None None (get filters "hue")]
  else [].

(** The overlay is [Buffer.from(generateWatermarkSvg(watermark))]; the SVG
    text is a function of the [watermark] object alone (its badge geometry is
    floating-point arithmetic on [text.length] and [fontSize]) and is carried
    here by that object. *)
Definition worker_watermark (watermark : jsval) : list sharp_call :=
  match watermark with
  | Some w =>
      if truthy watermark && truthy (get watermark "text") then
        [Composite w (or_else (get watermark "position") (JStr "southeast"))]
      else []
  | None => []
  end.

Definition worker_encode (outputFormat : string) (quality compress : jsval)
  : sharp_call :=
  let outputQuality :=
    or_else quality (jint (if truthy compress then 60 else 80)) in
  let f := toLowerCase outputFormat in
  if String.eqb f "jpeg" || String.eqb f "jpg" then
    Jpeg outputQuality (Some true)
  else if String.eqb f "png" then
    Png outputQuality (Some (if truthy compress then 9 else 6)%Z)
  else if String.eqb f "webp" then Webp outputQuality
  else if String.eqb f "gif" then Gif
  else if String.eqb f "tiff" || String.eqb f "tif" then Tiff outputQuality
  else if String.eqb f "avif" then Avif outputQuality
  else ToFormat outputFormat.

(** What a run of the builder part of a pipeline fixes: the calls in issue
    order, the output format and the output file name. *)
Record plan := {
  calls : list sharp_call;
  outputFormat : string;
  outputFilename : string
}.

(** The builder part of [applyTransformations(sourcePath, transformations)]
    (called without [outputFilename]); [uuid] is the value of [uuidv4()].
    A truthy [format] that is not a string makes
    [outputFormat.toLowerCase()] throw. *)
Definition applyTransformations_plan (uuid sourcePath : string)
    (transformations : list (string * json)) : result plan :=
  let t := field transformations in
  let stages :=
    (worker_resize (t "resize") ++ crop_stage (t "crop")
     ++ worker_rotate (t "rotate") ++ flip_stage (t "flip")
     ++ flop_stage (t "flop") ++ worker_filters (t "filters")
     ++ worker_watermark (t "watermark"))%list in
  let sourceExt := toLowerCase (slice1 (path_extname sourcePath)) in
  match or_else (t "format")
                (JStr (if String.eqb sourceExt "" then "jpeg" else sourceExt)) with
  | JStr outputFormat =>
      Ok {| calls :=
              (stages
               ++ [worker_encode outputFormat (t "quality") (t "compress")])%list;
            outputFormat := outputFormat;
            outputFilename := uuid +:+ "." +:+ outputFormat |}
  | _ => Err "outputFormat.toLowerCase is not a function"
  end.

(* ===================================================================== *)
(** ** The inline pipeline of [transformImageSync]: the calls *)
(* ===================================================================== *)

Definition sync_resize (resize : jsval) : list sharp_call :=
  if truthy resize then
    [Resize (get resize "width") (get resize "height")
            (or_else (get resize "fit") (JStr "cover"))
            (or_else (get resize "position") (JStr "center")) None]
  else [].

Definition sync_rotate (rotate : jsval) : list sharp_call :=
  match rotate with
  | Some angle => if truthy rotate then [Rotate angle None] else []
  | None => []
  end.

Definition sync_filters (filters : jsval) : list sharp_call :=
  if truthy filters then
    when (truthy (get filters "grayscale")) [Grayscale]
    ++ when (truthy (get filters "sepia")) [Tint 112 66 20]
    ++ match get filters "blur" with
       | Some sigma => when (truthy (get filters "blur")) [Blur sigma]
       | None => []
       end
    ++ when (truthy (get filters "sharpen")) [Sharpen]
    ++ when (truthy (get filters "negate")) [Negate]
  else [].

Definition sync_encode (outputFormat : string) (quality : jsval) : sharp_call :=
  if String.eqb outputFormat "jpeg" || String.eqb outputFormat "jpg" then
    Jpeg (or_else quality (jint 80)) None
  else if String.eqb outputFormat "png" then
    Png (or_else quality (jint 80)) None
  else if String.eqb outputFormat "webp" then Webp (or_else quality (jint 80))
  else ToFormat outputFormat.

(** The builder part of [transformImageSync]; [filename] is
    [image.filename].  A truthy [format] that is not a string is refused by
    [toFormat]. *)
Definition transformImageSync_plan (uuid filename : string)
    (transformations : list (string * json)) : result plan :=
  let t := field transformations in
  let stages :=
    (sync_resize (t "resize") ++ crop_stage (t "crop")
     ++ sync_rotate (t "rotate") ++ flip_stage (t "flip")
     ++ flop_stage (t "flop") ++ sync_filters (t "filters"))%list in
  let ext := slice1 (path_extname filename) in
  match or_else (t "format")
                (JStr (if String.eqb ext "" then "jpeg" else ext)) with
  | JStr outputFormat =>
      Ok {| calls :=
              (stages ++ [sync_encode outputFormat (t "quality")])%list;
            outputFormat := outputFormat;
            outputFilename := uuid +:+ "." +:+ outputFormat |}
  | _ => Err "Unsupported output format"
  end.

(* ===================================================================== *)
(** ** The image library, on image dimensions *)
(* ===================================================================== *)

Record dims := { img_width : Z; img_height : Z }.

(** A file on disk: a decodable raster image of some size, or other bytes. *)
Inductive file :=
| ImageFile (d : dims)
| OtherFile.

(** The geometry the specification leaves to the image library:
    aspect-preserving scaling (a missing target side, [fit] [inside] or
    [outside], [withoutEnlargement]) and the bounding box of a rotation by
    an angle that is not a multiple of 90. *)
Record Geometry := {
  scaled : string -> bool -> option Z -> option Z -> dims -> dims;
  rotated : json -> dims -> dims
}.

Definition dimension_arg (name : string) (v : jsval) : result (option Z) :=
  match v with
  | None | Some JNull => Ok None
  | Some (JNum (JInt n)) =>
      if (0 <? n)%Z then Ok (Some n)
      else Err ("Expected positive integer for " +:+ name)
  | Some _ => Err ("Expected positive integer for " +:+ name)
  end.

Definition offset_arg (name : string) (v : jsval) : result Z :=
  match v with
  | Some (JNum (JInt n)) =>
      if (0 <=? n)%Z then Ok n else Err ("Expected integer for " +:+ name)
  | _ => Err ("Expected integer for " +:+ name)
  end.

Definition boolean_arg (name : string) (v : jsval) : result bool :=
  match v with
  | None => Ok false
  | Some (JBool x) => Ok x
  | Some _ => Err ("Expected boolean for " +:+ name)
  end.

Definition fit_arg (v : json) : result string :=
  match v with
  | JStr f =>
      if existsb (String.eqb f) ["cover"; "contain"; "fill"; "inside"; "outside"]
      then Ok f else Err "Expected valid fit"
  | _ => Err "Expected valid fit"
  end.

Definition boxed_fit (f : string) : bool :=
  existsb (String.eqb f) ["cover"; "contain"; "fill"].

(** Modelled from the spec: the effect of one stage on the image size, as
    section 4.2 describes the stages (the library itself is not part of the
    repository).  Resize to a target box gives that box when both sides are
    requested and the fit crops, letterboxes or stretches; crop fails when
    the rectangle exceeds the current bounds; quarter turns swap the sides;
    mirrors, filters, watermark and encoders keep the size.  Checks on
    arguments that do not bear on the size are not modelled. *)
Definition apply_call (geo : Geometry) (d : dims) (c : sharp_call) : result dims :=
  match c with
  | Resize width height fit position withoutEnlargement =>
      let* w := dimension_arg "width" width in
      let* h := dimension_arg "height" height in
      let* f := fit_arg fit in
      let* noEnlarge := boolean_arg "withoutEnlargement" withoutEnlargement in
      match w, h with
      | None, None => Ok d
      | Some w', Some h' =>
          if boxed_fit f && negb noEnlarge
          then Ok {| img_width := w'; img_height := h' |}
          else Ok (scaled geo f noEnlarge w h d)
      | _, _ => Ok (scaled geo f noEnlarge w h d)
      end
  | Extract left_ top_ width height =>
      let* x := offset_arg "left" (Some left_) in
      let* y := offset_arg "top" (Some top_) in
      let* w := offset_arg "width" width in
      let* h := offset_arg "height" height in
      if (0 <? w)%Z && (0 <? h)%Z
         && (x + w <=? img_width d)%Z && (y + h <=? img_height d)%Z
      then Ok {| img_width := w; img_height := h |}
      else Err "extract_area: bad extract area"
  | Rotate angle _ =>
      match angle with
      | JNum (JInt a) =>
          if (a mod 90 =? 0)%Z then
            if ((a / 90) mod 2 =? 0)%Z then Ok d
            else Ok {| img_width := img_height d; img_height := img_width d |}
          else Ok (rotated geo angle d)
      | JNum (JReal _) => Ok (rotated geo angle d)
      | _ => Err "Expected number for angle"
      end
  | _ => Ok d
  end.

Fixpoint apply_calls (geo : Geometry) (d : dims) (cs : list sharp_call)
  : result dims :=
  match cs with
  | [] => Ok d
  | c :: rest => let* d' := apply_call geo d c in apply_calls geo d' rest
  end.

(** [sharp(path)...toFile(outputPath)]: the size of the written image. *)
Definition sharp_toFile (geo : Geometry) (source : option file)
    (cs : list sharp_call) : result dims :=
  match source with
  | Some (ImageFile d) => apply_calls geo d cs
  | Some OtherFile => Err "Input file contains unsupported image format"
  | None => Err "Input file is missing"
  end.

(* ===================================================================== *)
(** ** The cache of config/cache.js *)
(* ===================================================================== *)

Module NodeCache.

(** A stored value with its expiry instant in milliseconds ([0]: never). *)
Record entry := { v : string; t : Z }.

(** An instance of the [node-cache] store (an external library) with the
    options the source passes ([stdTTL], [maxKeys: 1000]), after the
    library's documentation; on [maxKeys] it says: "If a new item is set
    and the cache is full, an error is thrown and the key will not be saved
    in the cache."  [keys] of the statistics is the number of stored
    entries. *)
Record cache := {
  data : gmap string entry;
  hits : nat;
  misses : nat
}.

Definition empty : cache := {| data := ∅; hits := 0; misses := 0 |}.

Definition maxKeys : nat := 1000.

Definition expired (now : Z) (e : entry) : bool :=
  negb (t e =? 0)%Z && (t e <? now)%Z.

Definition del (key : string) (c : cache) : cache :=
  {| data := delete key (data c); hits := hits c; misses := misses c |}.

(** [get]: a stored entry that is past its expiry is deleted and reported
    as a miss. *)
Definition get (now : Z) (key : string) (c : cache) : option string * cache :=
  match data c !! key with
  | Some e =>
      if expired now e then
        (None, {| data := delete key (data c); hits := hits c;
                  misses := S (misses c) |})
      else (Some (v e), {| data := data c; hits := S (hits c);
                           misses := misses c |})
  | None => (None, {| data := data c; hits := hits c; misses := S (misses c) |})
  end.

(** [set]: refused with [ECACHEFULL] when the store already holds [maxKeys]
    entries, whether or not [key] is among them. *)
Definition set (now : Z) (key value : string) (ttl : Z) (c : cache)
  : result cache :=
  if Nat.leb maxKeys (size (data c)) then Err "Cache max keys amount exceeded"
  else Ok {| data := <[key := {| v := value;
                                 t := if (ttl =? 0)%Z then 0%Z
                                      else (now + ttl * 1000)%Z |}]> (data c);
             hits := hits c; misses := misses c |}.

Definition keys (c : cache) : list string := (map_to_list (data c)).*1.

(** The periodic sweep ([checkperiod]) that deletes expired entries. *)
Definition checkData (now : Z) (c : cache) : cache :=
  {| data := filter (fun kv => expired now kv.2 = false) (data c);
     hits := hits c; misses := misses c |}.

(** [flushAll]: no entries, statistics reset. *)
Definition flushAll (c : cache) : cache := empty.

Record stats := { stat_keys : nat; stat_hits : nat; stat_misses : nat }.

Definition getStats (c : cache) : stats :=
  {| stat_keys := size (data c); stat_hits := hits c; stat_misses := misses c |}.

End NodeCache.

(** [getFromCache]: a found value counts when it is truthy. *)
Definition getFromCache (now : Z) (key : string) (c : NodeCache.cache)
  : option string * NodeCache.cache :=
  match NodeCache.get now key c with
  | (Some value, c') =>
      if negb (String.eqb value "") then (Some value, c') else (None, c')
  | (None, c') => (None, c')
  end.

(** [setInCache]: an error of the store is caught and reported as [false]. *)
Definition setInCache (now : Z) (key value : string) (ttl : Z)
    (c : NodeCache.cache) : bool * NodeCache.cache :=
  match NodeCache.set now key value ttl c with
  | Ok c' => (true, c')
  | Err _ => (false, c)
  end.

Definition deleteFromCache (key : string) (c : NodeCache.cache)
  : bool * NodeCache.cache :=
  (true, NodeCache.del key c).

(** [clearImageCache]: every key of the image is deleted. *)
Definition clearImageCache (imageId : string) (c : NodeCache.cache)
  : bool * NodeCache.cache :=
  let imageKeys :=
    List.filter (String.prefix ("img_" +:+ imageId +:+ "_")) (NodeCache.keys c) in
  (true, fold_left (fun acc key => NodeCache.del key acc) imageKeys c).

Definition getCacheStats (c : NodeCache.cache) : NodeCache.stats :=
  NodeCache.getStats c.

Definition flushCache (c : NodeCache.cache) : NodeCache.cache :=
  NodeCache.flushAll c.

(* ===================================================================== *)
(** ** Records of the metadata store and of the queue *)
(* ===================================================================== *)

(** [processingStatus] of models/image.js. *)
Inductive Status := pending | processing | completed | failed.

(** The descriptor [applyTransformations] returns (the byte size of the
    encoded file is not modelled). *)
Record output := {
  path : string;
  filename : string;
  format : string;
  width : Z;
  height : Z
}.

(** An element of [image.transformations]: the synchronous path appends
    the request's fields with [outputPath] and [appliedAt], the worker
    appends [jobId], [transformations], [output] and [completedAt]. *)
Inductive history_entry :=
| SyncEntry (transformations : list (string * json)) (outputPath : string)
            (appliedAt : Z)
| JobEntry (jobId : string) (transformations : list (string * json))
           (result : output) (completedAt : Z).

Module Image.
Record t := {
  id : string;
  userId : string;
  filename : string;
  path : string;
  transformations : list history_entry;
  isProcessing : bool;
  processingStatus : Status;
  processingError : option string;
  lastTransformedAt : option Z
}.
End Image.

Module Job.
Record t := {
  jobId : string;
  imageId : string;
  userId : string;
  sourcePath : string;
  originalFilename : string;
  transformations : list (string * json);
  createdAt : Z
}.
End Job.

(** Values of the process environment. *)
Record Env := {
  PROCESSED_DIR : string;
  CACHE_TTL : Z;
  geometry : Geometry
}.

(** One write of [processingStatus] that reached a row: the job on whose
    behalf it was made, the image, the status written. *)
Record status_write := {
  by_job : string;
  on_image : string;
  written : Status
}.

(** The state the request handlers and the worker share or own: the
    [images] table, the files on disk, the cache instance of the API
    process and that of the worker process, the ready messages of the
    durable queue (head first), and two histories kept for the statements
    below: the status writes and the job ids handed to the consumer. *)
Record World := {
  images : gmap string Image.t;
  disk : gmap string file;
  apiCache : NodeCache.cache;
  workerCache : NodeCache.cache;
  queue : list Job.t;
  statusLog : list status_write;
  deliveries : list string
}.

Definition set_images (f : gmap string Image.t -> gmap string Image.t)
    (w : World) : World :=
  {| images := f (images w); disk := disk w; apiCache := apiCache w;
     workerCache := workerCache w; queue := queue w;
     statusLog := statusLog w; deliveries := deliveries w |}.

Definition set_disk (d : gmap string file) (w : World) : World :=
  {| images := images w; disk := d; apiCache := apiCache w;
     workerCache := workerCache w; queue := queue w;
     statusLog := statusLog w; deliveries := deliveries w |}.

Definition set_apiCache (c : NodeCache.cache) (w : World) : World :=
  {| images := images w; disk := disk w; apiCache := c;
     workerCache := workerCache w; queue := queue w;
     statusLog := statusLog w; deliveries := deliveries w |}.

Definition set_workerCache (c : NodeCache.cache) (w : World) : World :=
  {| images := images w; disk := disk w; apiCache := apiCache w;
     workerCache := c; queue := queue w;
     statusLog := statusLog w; deliveries := deliveries w |}.

Definition set_queue (q : list Job.t) (w : World) : World :=
  {| images := images w; disk := disk w; apiCache := apiCache w;
     workerCache := workerCache w; queue := q;
     statusLog := statusLog w; deliveries := deliveries w |}.

Definition add_delivery (jobId : string) (w : World) : World :=
  {| images := images w; disk := disk w; apiCache := apiCache w;
     workerCache := workerCache w; queue := queue w;
     statusLog := statusLog w; deliveries := (deliveries w ++ [jobId])%list |}.

(** A status write is recorded when the row it addresses exists. *)
Definition log_status (jobId imageId : string) (s : Status) (w : World)
  : World :=
  match images w !! imageId with
  | Some _ =>
      {| images := images w; disk := disk w; apiCache := apiCache w;
         workerCache := workerCache w; queue := queue w;
         statusLog := (statusLog w
                       ++ [{| by_job := jobId; on_image := imageId;
                              written := s |}])%list;
         deliveries := deliveries w |}
  | None => w
  end.

(** [Image.findOne({ where: { id, userId } })]. *)
Definition Image_findOne (imgs : gmap string Image.t) (id userId : string)
  : option Image.t :=
  match imgs !! id with
  | Some image =>
      if String.eqb (Image.userId image) userId then Some image else None
  | None => None
  end.

(** [Image.findByPk(id)]. *)
Definition Image_findByPk (imgs : gmap string Image.t) (id : string)
  : option Image.t := imgs !! id.

(** The three column sets the code writes. *)
Definition with_processing (flag : bool) (s : Status) (e : option string)
    (i : Image.t) : Image.t :=
  {| Image.id := Image.id i; Image.userId := Image.userId i;
     Image.filename := Image.filename i; Image.path := Image.path i;
     Image.transformations := Image.transformations i;
     Image.isProcessing := flag; Image.processingStatus := s;
     Image.processingError := e;
     Image.lastTransformedAt := Image.lastTransformedAt i |}.

Definition with_status (s : Status) (e : option string) (i : Image.t)
  : Image.t :=
  with_processing (Image.isProcessing i) s e i.

Definition with_history (h : list history_entry) (at_ : Z) (i : Image.t)
  : Image.t :=
  {| Image.id := Image.id i; Image.userId := Image.userId i;
     Image.filename := Image.filename i; Image.path := Image.path i;
     Image.transformations := h;
     Image.isProcessing := Image.isProcessing i;
     Image.processingStatus := Image.processingStatus i;
     Image.processingError := Image.processingError i;
     Image.lastTransformedAt := Some at_ |}.

(** [Image.update(values, { where: { id } })]: no row, no change. *)
Definition Image_update (id : string) (f : Image.t -> Image.t) (w : World)
  : World :=
  set_images (alter f id) w.

(** [fs.existsSync]. *)
Definition existsSync (d : gmap string file) (p : string) : bool :=
  match d !! p with
  | Some _ => true
  | None => false
  end.

(* ===================================================================== *)
(** ** [applyTransformations] *)
(* ===================================================================== *)

(** [applyTransformations(sourcePath, transformations)] on the disk: the
    descriptor and the disk with the written output, or the thrown error. *)
Definition applyTransformations (env : Env) (uuid : string)
    (sourcePath : string) (transformations : list (string * json))
    (d : gmap string file) : result (output * gmap string file) :=
  if negb (existsSync d sourcePath) then
    Err ("Source file not found: " +:+ sourcePath)
  else
    let* p := applyTransformations_plan uuid sourcePath transformations in
    let outputPath := path_join (PROCESSED_DIR env) (outputFilename p) in
    let* outputInfo := sharp_toFile (geometry env) (d !! sourcePath) (calls p) in
    Ok ({| path := outputPath; filename := outputFilename p;
           format := outputFormat p;
           width := img_width outputInfo; height := img_height outputInfo |},
        <[outputPath := ImageFile outputInfo]> d).

(* ===================================================================== *)
(** ** The producer: [publishToQueue], [transformImage] *)
(* ===================================================================== *)

(** [publishToQueue]: the message joins the ready messages.  (The server
    listens only after [connectRabbitMQ] returned, so the channel exists.) *)
Definition publishToQueue (message : Job.t) (w : World) : World :=
  set_queue (queue w ++ [message])%list w.

(** What a handler answers: a JSON body, a file, or a thrown error as the
    error handler reports it. *)
Inductive response :=
| Accepted (jobId imageId : string) (transformations : list (string * json))
| SendFile (file_path : string) (contentType : option string)
| ApiError (statusCode : Z) (message : string)
| ServerError (message : string).

(** A transform request: [req.params.id], [req.userId],
    [req.body.transformations]. *)
Record request := {
  req_id : string;
  req_userId : string;
  req_transformations : list (string * json)
}.

(** [transformImage]; [uuid] is the value of [uuidv4()], [now] the clock. *)
Definition transformImage (now : Z) (uuid : string) (req : request)
    (w : World) : response * World :=
  match Image_findOne (images w) (req_id req) (req_userId req) with
  | None => (ApiError 404 "Image not found", w)
  | Some image =>
      if Image.isProcessing image then
        (ApiError 409 "Image is currently being processed. Please wait.", w)
      else if negb (existsSync (disk w) (Image.path image)) then
        (ApiError 404 "Image file not found on disk", w)
      else
        let jobId := uuid in
        let w1 :=
          Image_update (Image.id image) (with_processing true pending None)
                       (log_status jobId (Image.id image) pending w) in
        let jobMessage :=
          {| Job.jobId := jobId; Job.imageId := Image.id image;
             Job.userId := req_userId req;
             Job.sourcePath := Image.path image;
             Job.originalFilename := Image.filename image;
             Job.transformations := req_transformations req;
             Job.createdAt := now |} in
        (Accepted jobId (Image.id image) (req_transformations req),
         publishToQueue jobMessage w1)
  end.

(* ===================================================================== *)
(** ** The synchronous path: [transformImageSync] *)
(* ===================================================================== *)

Definition contentTypes (fmt : string) : string :=
  if String.eqb fmt "jpeg" || String.eqb fmt "jpg" then "image/jpeg"
  else if String.eqb fmt "png" then "image/png"
  else if String.eqb fmt "webp" then "image/webp"
  else if String.eqb fmt "gif" then "image/gif"
  else if String.eqb fmt "tiff" then "image/tiff"
  else "application/octet-stream".

(** The part of [transformImageSync] after a cache miss: build and run the
    inline pipeline, cache the output path, extend the history. *)
Definition transformImageSync_process (env : Env) (now : Z) (uuid : string)
    (req : request) (image : Image.t) (cacheKey : string) (w : World)
  : response * World :=
  match transformImageSync_plan uuid (Image.filename image)
                                (req_transformations req) with
  | Err m => (ServerError m, w)
  | Ok p =>
      let outputPath := path_join (PROCESSED_DIR env) (outputFilename p) in
      match sharp_toFile (geometry env) (disk w !! Image.path image)
                         (calls p) with
      | Err m => (ServerError m, w)
      | Ok d =>
          let w2 := set_disk (<[outputPath := ImageFile d]> (disk w)) w in
          let w3 :=
            set_apiCache
              (snd (setInCache now cacheKey outputPath (CACHE_TTL env)
                               (apiCache w2))) w2 in
          let newTransformations :=
            (Image.transformations image
             ++ [SyncEntry (req_transformations req) outputPath now])%list in
          (SendFile outputPath (Some (contentTypes (outputFormat p))),
           Image_update (Image.id image)
                        (with_history newTransformations now) w3)
      end
  end.

Definition transformImageSync (env : Env) (now : Z) (uuid : string)
    (req : request) (w : World) : response * World :=
  match Image_findOne (images w) (req_id req) (req_userId req) with
  | None => (ApiError 404 "Image not found", w)
  | Some image =>
      if negb (existsSync (disk w) (Image.path image)) then
        (ApiError 404 "Image file not found on disk", w)
      else
        let cacheKey :=
          generateCacheKey (req_id req) (req_transformations req) in
        let (cachedPath, cache1) := getFromCache now cacheKey (apiCache w) in
        let w1 := set_apiCache cache1 w in
        match cachedPath with
        | Some p =>
            if existsSync (disk w) p then (SendFile p None, w1)
            else transformImageSync_process env now uuid req image cacheKey w1
        | None =>
            transformImageSync_process env now uuid req image cacheKey w1
        end
  end.

(* ===================================================================== *)
(** ** The worker: [processJob], [consumeFromQueue] *)
(* ===================================================================== *)

(** The first statement of [processJob]: status [processing], error
    cleared. *)
Definition mark_processing (job : Job.t) (w : World) : World :=
  Image_update (Job.imageId job) (with_status processing None)
               (log_status (Job.jobId job) (Job.imageId job) processing w).

(** [processJob] of workers/imageWorker.js. *)
Definition processJob (env : Env) (now : Z) (uuid : string) (job : Job.t)
    (w : World) : result output * World :=
  let w1 := mark_processing job w in
  match applyTransformations env uuid (Job.sourcePath job)
                             (Job.transformations job) (disk w1) with
  | Ok (res, disk') =>
      let w2 := set_disk disk' w1 in
      match Image_findByPk (images w2) (Job.imageId job) with
      | Some image =>
          let transformationHistory :=
            (Image.transformations image
             ++ [JobEntry (Job.jobId job) (Job.transformations job) res now])%list in
          let w3 :=
            Image_update (Job.imageId job)
              (fun i => with_history transformationHistory now
                          (with_processing false completed None i))
              (log_status (Job.jobId job) (Job.imageId job) completed w2) in
          let cacheKey :=
            generateCacheKey (Job.imageId job) (Job.transformations job) in
          (Ok res,
           set_workerCache
             (snd (setInCache now cacheKey (path res) (CACHE_TTL env)
                              (workerCache w3))) w3)
      | None => (Ok res, w2)
      end
  | Err message =>
      (Err message,
       Image_update (Job.imageId job)
                    (with_processing false failed (Some message))
                    (log_status (Job.jobId job) (Job.imageId job) failed w1))
  end.

(** How the consumer settles a delivered message. *)
Inductive settlement :=
| Ack
| NackRequeue.

(** The callback [consumeFromQueue] registers, on one parsed message:
    [ch.ack(msg)] when [processJob] returns, [ch.nack(msg, false, true)]
    when it throws. *)
Definition onMessage (env : Env) (now : Z) (uuid : string) (content : Job.t)
    (w : World) : settlement * World :=
  match processJob env now uuid content w with
  | (Ok _, w') => (Ack, w')
  | (Err _, w') => (NackRequeue, w')
  end.

(** One delivery with prefetch 1: the broker hands the head of the ready
    messages to the consumer and applies its settlement; an acknowledged
    message is removed, a requeued one returns to its position. *)
Definition consume (env : Env) (now : Z) (uuid : string) (w : World) : World :=
  match queue w with
  | [] => w
  | msg :: rest =>
      match onMessage env now uuid msg (add_delivery (Job.jobId msg) w) with
      | (Ack, w') => set_queue rest w'
      | (NackRequeue, w') => set_queue (msg :: rest) w'
      end
  end.

(** Successive deliveries; each takes the clock and the fresh identifier
    of its run. *)
Fixpoint run (env : Env) (inputs : list (Z * string)) (w : World) : World :=
  match inputs with
  | [] => w
  | (now, uuid) :: rest => run env rest (consume env now uuid w)
  end.

Definition statuses_of (jobId : string) (log : list status_write)
  : list Status :=
  map written (filter (fun e => by_job e = jobId) log).

Definition delivery_count (jobId : string) (w : World) : nat :=
  length (filter (fun j => j = jobId) (deliveries w)).

(* ===================================================================== *)
(** ** Concrete data for the examples *)
(* ===================================================================== *)

(** A geometry that leaves the library-defined sizes unchanged. *)
Definition plain_geometry : Geometry :=
  {| scaled := fun _ _ _ _ d => d; rotated := fun _ d => d |}.

Definition env0 : Env :=
  {| PROCESSED_DIR := "processed"; CACHE_TTL := 3600; geometry := plain_geometry |}.

Definition image0 : Image.t :=
  {| Image.id := "img1"; Image.userId := "u1";
     Image.filename := "photo.jpg"; Image.path := "uploads/photo.jpg";
     Image.transformations := []; Image.isProcessing := false;
     Image.processingStatus := completed; Image.processingError := None;
     Image.lastTransformedAt := None |}.

Definition source_1000x800 : file :=
  ImageFile {| img_width := 1000; img_height := 800 |}.

(** One uploaded 1000 x 800 image, nothing cached, nothing queued. *)
Definition world0 : World :=
  {| images := {[ "img1" := image0 ]};
     disk := {[ "uploads/photo.jpg" := source_1000x800 ]};
     apiCache := NodeCache.empty; workerCache := NodeCache.empty;
     queue := []; statusLog := []; deliveries := [] |}.

(** The specification's pipeline-ordering example. *)
Definition crop_then_resize_spec : list (string * json) :=
  [("crop", JObj [("x", jint 0); ("y", jint 0);
                  ("width", jint 500); ("height", jint 400)]);
   ("resize", JObj [("width", jint 250); ("height", jint 200)])].

Definition resize_then_crop_spec : list (string * json) :=
  [("resize", JObj [("width", jint 500); ("height", jint 400)]);
   ("crop", JObj [("x", jint 0); ("y", jint 0);
                  ("width", jint 250); ("height", jint 200)])].

Definition req0 (t : list (string * json)) : request :=
  {| req_id := "img1"; req_userId := "u1"; req_transformations := t |}.

(** The specification's example of values that only differ below the top
    level. *)
Definition resize100_spec : list (string * json) :=
  [("resize", JObj [("width", jint 100)])].

Definition resize200_spec : list (string * json) :=
  [("resize", JObj [("width", jint 200)])].

(** A spec and a re-ordering of it, at the top level and inside [resize]. *)
Definition ordered_spec : list (string * json) :=
  [("resize", JObj [("width", jint 100); ("height", jint 50)]);
   ("format", JStr "png")].

Definition reordered_spec : list (string * json) :=
  [("format", JStr "png");
   ("resize", JObj [("height", jint 50); ("width", jint 100)])].

Definition compress_spec : list (string * json) := [("compress", JBool true)].

Definition watermark_spec : list (string * json) :=
  [("watermark", JObj [("text", JStr "demo")]); ("format", JStr "png")].

Definition common_example_spec : list (string * json) :=
  [("resize", JObj [("width", jint 300); ("height", jint 200)]);
   ("flip", JBool true);
   ("filters", JObj [("grayscale", JBool true); ("blur", jint 2)]);
   ("format", JStr "png")].

(** [world0] after a synchronous request for [resize100_spec]. *)
Definition cached_world : World :=
  snd (transformImageSync env0 1 "U1" (req0 resize100_spec) world0).

(** An image whose flag says a job is in flight. *)
Definition busy_image : Image.t := with_processing true pending None image0.

Definition busy_world : World :=
  set_images (fun _ => {[ "img1" := busy_image ]}) world0.

(** [world0] after an accepted asynchronous request whose crop rectangle
    does not fit the resized image, and the job message it published. *)
Definition poison_world : World :=
  snd (transformImage 5 "J1" (req0 crop_then_resize_spec) world0).

Definition poison_job : Job.t :=
  {| Job.jobId := "J1"; Job.imageId := "img1"; Job.userId := "u1";
     Job.sourcePath := "uploads/photo.jpg";
     Job.originalFilename := "photo.jpg";
     Job.transformations := crop_then_resize_spec; Job.createdAt := 5 |}.

(* ===================================================================== *)
(** ** Relations and predicates the statements use *)
(* ===================================================================== *)

(** [reorder v1 v2]: [v2] is [v1] with the fields of its objects, at any
    depth, listed in another order; every field keeps its value. *)
Inductive reorder : json -> json -> Prop :=
| reorder_same v : reorder v v
| reorder_arr l1 l2 :
    Forall2 reorder l1 l2 -> reorder (JArr l1) (JArr l2)
| reorder_obj f1 f2 f3 :
    Forall2 (fun a b => a.1 = b.1 /\ reorder a.2 b.2) f1 f2 ->
    Permutation f2 f3 ->
    reorder (JObj f1) (JObj f3).

(** [nested_differ K v1 v2]: [v1] and [v2] have the same shape and the same
    field names in the same order, and are equal except for the values of
    object fields whose name is not in [K]. *)
Inductive nested_differ (K : list string) : json -> json -> Prop :=
| nd_same v : nested_differ K v v
| nd_arr l1 l2 :
    Forall2 (nested_differ K) l1 l2 -> nested_differ K (JArr l1) (JArr l2)
| nd_obj f1 f2 :
    Forall2 (fun a b => a.1 = b.1 /\ (In a.1 K -> nested_differ K a.2 b.2))
            f1 f2 ->
    nested_differ K (JObj f1) (JObj f2).

(** [is_subsequence l m]: [l] is obtained from [m] by deleting elements. *)
Definition status_eqb (a b : Status) : bool :=
  match a, b with
  | pending, pending | processing, processing
  | completed, completed | failed, failed => true
  | _, _ => false
  end.

Fixpoint is_subsequence (l m : list Status) : bool :=
  match l, m with
  | [], _ => true
  | _ :: _, [] => false
  | x :: l', y :: m' =>
      if status_eqb x y then is_subsequence l' m' else is_subsequence l m'
  end.

(** The lifecycle the specification draws for one job. *)
Definition monotone_lifecycle (l : list Status) : bool :=
  is_subsequence l [pending; processing; completed]
  || is_subsequence l [pending; processing; failed].

(** A call with the options dropped that the worker passes at the value
    the library takes by default ([withoutEnlargement: false],
    [compressionLevel: 6]). *)
Definition drop_defaults (c : sharp_call) : sharp_call :=
  match c with
  | Resize w h fit position (Some (JBool false)) => Resize w h fit position None
  | Png q (Some 6%Z) => Png q None
  | _ => c
  end.

(** Specs in the part of the option space that both pipelines implement:
    no rotation, a resize that names both sides and does not forbid
    enlargement, of the filters only grayscale, numeric blur, sharpen and
    negate, no watermark text, no [compress], output format [png] or
    [webp]. *)
Definition common_spec (transformations : list (string * json)) : bool :=
  let t := field transformations in
  match t "rotate" with None | Some JNull => true | Some _ => false end
  && (negb (truthy (t "resize"))
      || (truthy (get (t "resize") "width")
          && truthy (get (t "resize") "height")
          && negb (truthy (get (t "resize") "withoutEnlargement"))))
  && (negb (truthy (t "filters"))
      || (negb (truthy (get (t "filters") "sepia"))
          && negb (truthy (get (t "filters") "normalize"))
          && negb (truthy (get (t "filters") "gamma"))
          && negb (truthy (get (t "filters") "brightness"))
          && negb (truthy (get (t "filters") "saturation"))
          && negb (truthy (get (t "filters") "hue"))
          && match get (t "filters") "blur" with
             | Some (JNum _) | None => true
             | Some x => negb (truthy_json x)
             end))
  && negb (truthy (t "watermark") && truthy (get (t "watermark") "text"))
  && negb (truthy (t "compress"))
  && match t "format" with
     | Some (JStr f) => String.eqb f "png" || String.eqb f "webp"
     | _ => false
     end.

(** The row with [isProcessing] set to [false] and nothing else changed. *)
Definition clear_flag (i : Image.t) : Image.t :=
  with_processing false (Image.processingStatus i) (Image.processingError i) i.

(** Operations on a cache instance, and a run of them from the empty
    cache. *)
Inductive cache_op :=
| CacheGet (now : Z) (key : string)
| CacheSet (now : Z) (key value : string) (ttl : Z)
| CacheDelete (key : string)
| CacheClearImage (imageId : string)
| CacheFlush
| CacheSweep (now : Z).

Definition cache_step (c : NodeCache.cache) (op : cache_op) : NodeCache.cache :=
  match op with
  | CacheGet now key => snd (getFromCache now key c)
  | CacheSet now key value ttl => snd (setInCache now key value ttl c)
  | CacheDelete key => snd (deleteFromCache key c)
  | CacheClearImage imageId => snd (clearImageCache imageId c)
  | CacheFlush => flushCache c
  | CacheSweep now => NodeCache.checkData now c
  end.

Definition cache_run (ops : list cache_op) : NodeCache.cache :=
  fold_left cache_step ops NodeCache.empty.

(** [n] insertions under distinct keys. *)
Definition fill_ops (n : nat) : list cache_op :=
  map (fun i => CacheSet 0 (NilZero.string_of_uint (Nat.to_uint i)) "out" 3600)
      (seq 0 n).

(* ===================================================================== *)
(** ** More of services/imageProcessor.js: [escapeXml] *)
(* ===================================================================== *)

(** [text.replace(/c/g, replacement)] for a pattern of one character. *)
Fixpoint replace_all (c : ascii) (replacement : string) (text : string)
  : string :=
  match text with
  | EmptyString => ""
  | String x rest =>
      if Ascii.eqb x c then replacement +:+ replace_all c replacement rest
      else String x (replace_all c replacement rest)
  end.

(** [escapeXml]: five replacements in the order of the source, the
    ampersand first. *)
Definition escapeXml (text : string) : string :=
  replace_all "'" "&apos;"
    (replace_all (ascii_of_nat 34) "&quot;"
       (replace_all ">" "&gt;"
          (replace_all "<" "&lt;"
             (replace_all "&" "&amp;" text)))).

(** The five characters [escapeXml] rewrites. *)
Definition xml_special (c : ascii) : bool :=
  existsb (Ascii.eqb c) ["&"; "<"; ">"; ascii_of_nat 34; "'"]%char.

Definition has_char (p : ascii -> bool) (s : string) : bool :=
  existsb p (list_ascii_of_string s).

(** The separator of the cache keys. *)
Definition is_underscore (c : ascii) : bool := Ascii.eqb c "_".


(** A cache that holds one output of image [img1] and one of [img2]. *)
Definition two_image_cache : NodeCache.cache :=
  snd (setInCache 0 (generateCacheKey "img2" resize100_spec)
                  "processed/b.jpg" 3600
         (snd (setInCache 0 (generateCacheKey "img1" resize100_spec)
                          "processed/a.jpg" 3600 NodeCache.empty))).

(** The stage a builder call belongs to, in the order in which
    [applyTransformations] and [transformImageSync] go through the spec:
    resize, crop, rotate, flip, flop, filters, watermark, encoder. *)
Definition stage_rank (c : sharp_call) : nat :=
  match c with
  | Resize _ _ _ _ _ => 0
  | Extract _ _ _ _ => 1
  | Rotate _ _ => 2
  | Flip => 3
  | Flop => 4
  | Grayscale | Modulate _ _ _ | Tint _ _ _ | Blur _ | Sharpen | Negate
  | Normalize | Gamma _ => 5
  | Composite _ _ => 6
  | Jpeg _ _ | Png _ _ | Webp _ | Gif | Tiff _ | Avif _ | ToFormat _ => 7
  end.

(** No call of a later stage comes before a call of an earlier one. *)
Definition in_stage_order (l : list sharp_call) : Prop :=
  StronglySorted (fun a b => stage_rank a <= stage_rank b) l.

(** The characters a generated file name must not hold for its extension
    to be the one appended to it. *)
Definition is_dot_or_slash (c : ascii) : bool := ascii_is c 46 || ascii_is c 47.

(* ===================================================================== *)
(** ** middleware/upload.js: [fileFilter], stored file names, [deleteFile] *)
(* ===================================================================== *)

Definition ALLOWED_MIME_TYPES : list string :=
  ["image/jpeg"; "image/png"; "image/gif"; "image/webp"; "image/bmp";
   "image/tiff"].

Definition ALLOWED_EXTENSIONS : list string :=
  [".jpg"; ".jpeg"; ".png"; ".gif"; ".webp"; ".bmp"; ".tiff"; ".tif"].

(** [list.includes(x)]. *)
Definition includes (l : list string) (x : string) : bool :=
  existsb (String.eqb x) l.

(** [fileFilter]: the MIME type as sent, the extension of the original
    name in lower case. *)
Definition fileFilter (originalname mimetype : string) : result unit :=
  if negb (includes ALLOWED_MIME_TYPES mimetype) then
    Err ("Invalid file type. Allowed types: "
         +:+ String.concat ", " ALLOWED_MIME_TYPES)
  else
    let ext := toLowerCase (path_extname originalname) in
    if negb (includes ALLOWED_EXTENSIONS ext) then
      Err ("Invalid file extension. Allowed extensions: "
           +:+ String.concat ", " ALLOWED_EXTENSIONS)
    else Ok tt.

(** The [filename] callback of the disk storage; [uuid] is the value of
    [uuidv4()]. *)
Definition storage_filename (uuid originalname : string) : string :=
  uuid +:+ toLowerCase (path_extname originalname).



(** [deleteFile]: [true] when a file was there and has been removed. *)
Definition deleteFile (filePath : string) (d : gmap string file)
  : bool * gmap string file :=
  if existsSync d filePath then (true, delete filePath d) else (false, d).

(* ===================================================================== *)
(** ** More of controllers/imageController.js *)
(* ===================================================================== *)

(** What the further handlers answer: a JSON body with its status, or a
    thrown error as the error handler reports it. *)
Inductive answer (A : Type) :=
| Body (status : Z) (data : A)
| Thrown (statusCode : Z) (message : string).
Arguments Body {A} status data.
Arguments Thrown {A} statusCode message.




(** The fields [getTransformationStatus] reports. *)
Record status_report := {
  rep_imageId : string;
  rep_isProcessing : bool;
  rep_status : Status;
  rep_error : option string;
  rep_lastTransformedAt : option Z
}.

Definition getTransformationStatus (id userId : string) (w : World)
  : answer status_report :=
  match Image_findOne (images w) id userId with
  | None => Thrown 404 "Image not found"
  | Some image =>
      Body 200 {| rep_imageId := Image.id image;
                  rep_isProcessing := Image.isProcessing image;
                  rep_status := Image.processingStatus image;
                  rep_error := Image.processingError image;
                  rep_lastTransformedAt := Image.lastTransformedAt image |}
  end.

(** [deleteImage]: the original file, the cache entries of the image in
    this process, the row.  (No code of the repository assigns
    [thumbnailPath], so its branch never runs.) *)
Definition deleteImage (id userId : string) (w : World)
  : answer unit * World :=
  match Image_findOne (images w) id userId with
  | None => (Thrown 404 "Image not found", w)
  | Some image =>
      let d :=
        if negb (String.eqb (Image.path image) "")
        then snd (deleteFile (Image.path image) (disk w)) else disk w in
      let c := snd (clearImageCache id (apiCache w)) in
      (Body 200 tt,
       set_images (delete (Image.id image)) (set_apiCache c (set_disk d w)))
  end.

(** [parseInt(x) || d] on a query value that is absent or an integer
    ([validatePagination] converts it). *)
Definition parseInt_or (x : option Z) (d : Z) : Z :=
  match x with
  | Some n => if (n =? 0)%Z then d else n
  | None => d
  end.

Record pagination := {
  currentPage : Z;
  totalPages : Z;
  totalItems : Z;
  itemsPerPage : Z;
  hasNextPage : bool;
  hasPrevPage : bool
}.

(** [Math.ceil(count / limit)] for a count and a positive limit. *)
Definition ceil_div (count limit : Z) : Z := ((count + limit - 1) / limit)%Z.

(** [listImages]; [rows] is the [images] table in the order of the query
    ([createdAt], newest first).  A negative limit or offset is an error of
    the database. *)
Definition listImages (rows : list Image.t) (userId : string)
    (query_page query_limit : option Z)
  : answer (list Image.t * pagination) :=
  let page := parseInt_or query_page 1 in
  let limit := parseInt_or query_limit 10 in
  let offset := ((page - 1) * limit)%Z in
  if (limit <? 0)%Z || (offset <? 0)%Z then
    Thrown 500 "LIMIT and OFFSET must not be negative"
  else
    let mine :=
      List.filter (fun i => String.eqb (Image.userId i) userId) rows in
    let count := Z.of_nat (length mine) in
    let pages := ceil_div count limit in
    Body 200
      (firstn (Z.to_nat limit) (skipn (Z.to_nat offset) mine),
       {| currentPage := page; totalPages := pages; totalItems := count;
          itemsPerPage := limit; hasNextPage := (page <? pages)%Z;
          hasPrevPage := (1 <? page)%Z |}).

(** Table invariant: a row is stored under its own primary key. *)
Definition keyed_by_id (imgs : gmap string Image.t) : Prop :=
  forall k i, imgs !! k = Some i -> Image.id i = k.

(** Two states of one row: the columns no transformation writes. *)
Definition same_identity (i j : Image.t) : Prop :=
  Image.id j = Image.id i /\ Image.userId j = Image.userId i
  /\ Image.filename j = Image.filename i /\ Image.path j = Image.path i.

(** The same rows, each with its identity. *)
Definition rows_kept (imgs imgs' : gmap string Image.t) : Prop :=
  forall k,
    match imgs !! k, imgs' !! k with
    | Some i, Some j => same_identity i j
    | None, None => True
    | _, _ => False
    end.

(* ===================================================================== *)
(** ** middleware/errorHandler.js *)
(* ===================================================================== *)

(** [details] of an error response. *)
Inductive error_details :=
| DetailText (s : string)
| DetailFields (fields : list (string * string)).

(** What [errorHandler] reads of a thrown value: [name], [statusCode],
    [message], [details], [isOperational], the [path] and [message] of the
    entries of [errors] (Sequelize), whether it is the body parser's
    [SyntaxError] ([status === 400] and a [body] property), and [stack]. *)
Record thrown := {
  err_name : string;
  err_statusCode : option Z;
  err_message : string;
  err_details : option error_details;
  err_isOperational : bool;
  err_errors : list (string * string);
  err_body_syntax : bool;
  err_stack : string
}.

(** [new ApiError(statusCode, message, details)]. *)
Definition new_ApiError (statusCode : Z) (message : string)
    (details : option error_details) (stack : string) : thrown :=
  {| err_name := "Error"; err_statusCode := Some statusCode;
     err_message := message; err_details := details;
     err_isOperational := true; err_errors := [];
     err_body_syntax := false; err_stack := stack |}.

Record error_response := {
  res_status : Z;
  res_error : string;
  res_details : option error_details;
  res_stack : option string
}.

Definition details_truthy (d : option error_details) : bool :=
  match d with
  | Some (DetailText s) => negb (String.eqb s "")
  | Some (DetailFields _) => true
  | None => false
  end.

(** [errorHandler]; [NODE_ENV] is [process.env.NODE_ENV]. *)
Definition errorHandler (NODE_ENV : string) (err : thrown) : error_response :=
  let statusCode0 :=
    match err_statusCode err with
    | Some s => if (s =? 0)%Z then 500%Z else s
    | None => 500%Z
    end in
  let message0 :=
    if String.eqb (err_message err) "" then "Internal server error"
    else err_message err in
  let details0 :=
    if details_truthy (err_details err) then err_details err else None in
  let '(s1, m1, d1) :=
    if String.eqb (err_name err) "SequelizeValidationError"
    then (400%Z, "Validation error", Some (DetailFields (err_errors err)))
    else (statusCode0, message0, details0) in
  let '(s2, m2, d2) :=
    if String.eqb (err_name err) "SequelizeUniqueConstraintError"
    then (409%Z, "Duplicate entry",
          Some (DetailFields
                  (map (fun e => (fst e, fst e +:+ " already exists"))
                       (err_errors err))))
    else (s1, m1, d1) in
  let '(s3, m3, d3) :=
    if String.eqb (err_name err) "SequelizeForeignKeyConstraintError"
    then (400%Z, "Invalid reference",
          Some (DetailText "The referenced record does not exist"))
    else (s2, m2, d2) in
  let '(s4, m4) :=
    if String.eqb (err_name err) "JsonWebTokenError"
    then (401%Z, "Invalid token") else (s3, m3) in
  let '(s5, m5) :=
    if String.eqb (err_name err) "TokenExpiredError"
    then (401%Z, "Token expired") else (s4, m4) in
  let '(s6, m6) :=
    if err_body_syntax err then (400%Z, "Invalid JSON") else (s5, m5) in
  let '(m7, d7) :=
    if negb (err_isOperational err) && String.eqb NODE_ENV "production"
    then ("An unexpected error occurred", None) else (m6, d3) in
  {| res_status := s6; res_error := m7;
     res_details := if details_truthy d7 then d7 else None;
     res_stack := if String.eqb NODE_ENV "development"
                  then Some (err_stack err) else None |}.

(* ===================================================================== *)
(** * Properties *)
(* ===================================================================== *)

(** ** JSON values: induction, well-formedness, property lookup *)

Section JsonInduction.
Variable P : json -> Prop.
Hypothesis Hnull : P JNull.
Hypothesis Hbool : forall b, P (JBool b).
Hypothesis Hnum : forall n, P (JNum n).
Hypothesis Hstr : forall s, P (JStr s).
Hypothesis Harr : forall items, Forall P items -> P (JArr items).
Hypothesis Hobj : forall fields, Forall (fun kv => P kv.2) fields -> P (JObj fields).

Lemma json_nested_ind : forall v, P v.
Proof.
  fix IH 1. intros [ | b | n | s | items | fields ].
  - exact Hnull.
  - apply Hbool.
  - apply Hnum.
  - apply Hstr.
  - apply Harr. induction items as [ | x items IHitems ]; constructor.
    + apply IH.
    + exact IHitems.
  - apply Hobj. induction fields as [ | [k x] fields IHfields ]; constructor.
    + apply IH.
    + exact IHfields.
Qed.
End JsonInduction.

Lemma existsb_eqb_In (k : string) (ks : list string) :
  existsb (String.eqb k) ks = true <-> In k ks.
Proof.
  rewrite existsb_exists. split.
  - intros [x [Hin Heq]]. apply String.eqb_eq in Heq. now subst.
  - intros Hin. exists k. split; [exact Hin | apply String.eqb_refl].
Qed.

Lemma nodup_keys_NoDup (ks : list string) :
  nodup_keys ks = true <-> List.NoDup ks.
Proof.
  induction ks as [ | k ks IH ]; simpl.
  - split; [intros _; constructor | reflexivity].
  - rewrite andb_true_iff, negb_true_iff, IH. split.
    + intros [Hk Hks]. constructor; [ | exact Hks ].
      intros Hin. apply existsb_eqb_In in Hin. congruence.
    + intros Hnd. inversion Hnd as [ | ? ? Hk Hks ]; subst. split; [ | exact Hks ].
      destruct (existsb (String.eqb k) ks) eqn:E; [ | reflexivity ].
      apply existsb_eqb_In in E. contradiction.
Qed.

Lemma get_own_None {A B : Type} (f : A -> B) (P : string) (fs : list (string * A)) :
  ~ In P (map fst fs) -> get_own f P fs = None.
Proof.
  induction fs as [ | [k x] fs IH ]; simpl; intros Hnin; [ reflexivity | ].
  destruct (String.eqb_spec k P) as [-> | Hne].
  - exfalso. apply Hnin. now left.
  - apply IH. intros Hin. apply Hnin. now right.
Qed.

(** A re-ordering of a duplicate-free field list reads the same. *)
Lemma get_own_Permutation {A B : Type} (f : A -> B) (P : string)
    (l l' : list (string * A)) :
  Permutation l l' -> List.NoDup (map fst l) ->
  get_own f P l = get_own f P l'.
Proof.
  induction 1 as [ | [k x] l l' Hperm IH | [k1 x1] [k2 x2] l | l l' l'' H1 IH1 H2 IH2 ];
    intros Hnd.
  - reflexivity.
  - simpl. inversion Hnd; subst. rewrite IH by assumption. reflexivity.
  - simpl. destruct (String.eqb_spec k1 P) as [-> | H1];
      destruct (String.eqb_spec k2 P) as [-> | H2]; try reflexivity.
    exfalso. simpl in Hnd. inversion Hnd as [ | ? ? Hk Hks ]; subst.
    apply Hk. now left.
  - rewrite IH1 by assumption. apply IH2.
    eapply Permutation_NoDup; [ | exact Hnd ].
    now apply Permutation_map.
Qed.

Lemma omap_pointwise {A B : Type} (f g : A -> option B) (l : list A) :
  (forall x, f x = g x) -> omap f l = omap g l.
Proof.
  intros Hfg. induction l as [ | x l IH ]; simpl; [ reflexivity | ].
  rewrite Hfg. destruct (g x); [ f_equal | ]; exact IH.
Qed.

Lemma omap_pointwise_In {A B : Type} (f g : A -> option B) (l : list A) :
  (forall x, In x l -> f x = g x) -> omap f l = omap g l.
Proof.
  induction l as [ | x l IH ]; simpl; intros Hfg; [ reflexivity | ].
  rewrite (Hfg x) by now left.
  assert (Hrest : omap f l = omap g l).
  { apply IH. intros y Hy. apply Hfg. now right. }
  destruct (g x); [ f_equal | ]; exact Hrest.
Qed.

(** ** The order of [Array.prototype.sort] on strings *)

Lemma ascii_compare_Lt_trans (a b c : ascii) :
  Ascii.compare a b = Lt -> Ascii.compare b c = Lt -> Ascii.compare a c = Lt.
Proof.
  unfold Ascii.compare. rewrite !N.compare_lt_iff. apply N.lt_trans.
Qed.

Lemma string_compare_Lt_trans (s1 : string) :
  forall s2 s3, String.compare s1 s2 = Lt -> String.compare s2 s3 = Lt ->
                String.compare s1 s3 = Lt.
Proof.
  induction s1 as [ | a s1 IH ]; intros [ | b s2 ] [ | c s3 ]; simpl;
    try discriminate; try reflexivity.
  destruct (Ascii.compare a b) eqn:Eab; try discriminate;
    destruct (Ascii.compare b c) eqn:Ebc; try discriminate; intros H12 H23.
  - apply Ascii.compare_eq_iff in Eab, Ebc. subst.
    replace (Ascii.compare c c) with Eq.
    + now apply (IH s2).
    + symmetry. unfold Ascii.compare. apply N.compare_refl.
  - apply Ascii.compare_eq_iff in Eab. subst. now rewrite Ebc.
  - apply Ascii.compare_eq_iff in Ebc. subst. now rewrite Eab.
  - now rewrite (ascii_compare_Lt_trans a b c).
Qed.

Lemma string_compare_refl (s : string) : String.compare s s = Eq.
Proof.
  induction s as [ | a s IH ]; simpl; [ reflexivity | ].
  unfold Ascii.compare. now rewrite N.compare_refl.
Qed.

Lemma string_leb_trans (s1 s2 s3 : string) :
  String.leb s1 s2 = true -> String.leb s2 s3 = true -> String.leb s1 s3 = true.
Proof.
  unfold String.leb.
  destruct (String.compare s1 s2) eqn:E12; try discriminate;
    destruct (String.compare s2 s3) eqn:E23; try discriminate; intros _ _.
  - apply String.compare_eq_iff in E12, E23. subst.
    now rewrite string_compare_refl.
  - apply String.compare_eq_iff in E12. subst. now rewrite E23.
  - apply String.compare_eq_iff in E23. subst. now rewrite E12.
  - now rewrite (string_compare_Lt_trans s1 s2 s3).
Qed.

Lemma string_leb_false (s1 s2 : string) :
  String.leb s1 s2 = false -> String.leb s2 s1 = true.
Proof.
  intros H. destruct (String.leb_total s1 s2) as [H' | H']; congruence.
Qed.

Lemma sort_insert_comm (x y : string) (l : list string) :
  sort_insert x (sort_insert y l) = sort_insert y (sort_insert x l).
Proof.
  induction l as [ | c l IH ]; simpl.
  - destruct (String.leb x y) eqn:Exy, (String.leb y x) eqn:Eyx; try reflexivity.
    + now rewrite (String.leb_antisym x y).
    + apply string_leb_false in Exy. congruence.
  - destruct (String.leb y c) eqn:Eyc, (String.leb x c) eqn:Exc; simpl;
      rewrite ?Eyc, ?Exc.
    + destruct (String.leb x y) eqn:Exy, (String.leb y x) eqn:Eyx; try reflexivity.
      * now rewrite (String.leb_antisym x y).
      * apply string_leb_false in Exy. congruence.
    + destruct (String.leb x y) eqn:Exy; [ | reflexivity ].
      rewrite (string_leb_trans x y c) in Exc by assumption. discriminate.
    + destruct (String.leb y x) eqn:Eyx; [ | reflexivity ].
      rewrite (string_leb_trans y x c) in Eyc by assumption. discriminate.
    + now rewrite IH.
Qed.

(** Sorting forgets the order in which the keys were listed. *)
Lemma Array_sort_Permutation (l l' : list string) :
  Permutation l l' -> Array_sort l = Array_sort l'.
Proof.
  unfold Array_sort.
  induction 1 as [ | x l l' _ IH | x y l | l l' l'' _ IH1 _ IH2 ]; simpl.
  - reflexivity.
  - now rewrite IH.
  - apply sort_insert_comm.
  - now rewrite IH1.
Qed.

Lemma sort_insert_In (x y : string) (l : list string) :
  In y (sort_insert x l) <-> y = x \/ In y l.
Proof.
  induction l as [ | c l IH ]; simpl.
  - intuition.
  - destruct (String.leb x c); simpl; rewrite ?IH; intuition.
Qed.

Lemma Array_sort_In (y : string) (l : list string) :
  In y (Array_sort l) <-> In y l.
Proof.
  unfold Array_sort. induction l as [ | x l IH ]; simpl; [ reflexivity | ].
  rewrite sort_insert_In, IH. intuition.
Qed.

(** ** Serialization under a property list *)

Lemma get_own_Forall2 {A B : Type} (f : A -> B) (P : string)
    (l l' : list (string * A)) :
  Forall2 (fun a b => a.1 = b.1 /\ f a.2 = f b.2) l l' ->
  get_own f P l = get_own f P l'.
Proof.
  induction 1 as [ | [k x] [k' x'] l l' [Hk Hx] _ IH ]; simpl in *; [ reflexivity | ].
  subst k'. rewrite Hx, IH. reflexivity.
Qed.

Lemma Forall2_same_keys {A : Type} (R : string * A -> string * A -> Prop)
    (l l' : list (string * A)) :
  Forall2 (fun a b => a.1 = b.1 /\ R a b) l l' -> map fst l = map fst l'.
Proof.
  induction 1 as [ | a b l l' [Hk _] _ IH ]; simpl; [ reflexivity | ].
  now rewrite Hk, IH.
Qed.

(** Listing the fields of objects in another order does not change what
    is printed under a property list. *)
Lemma serialize_reorder (K : list string) (v1 : json) :
  wf_json v1 = true -> forall v2, reorder v1 v2 -> serialize K v1 = serialize K v2.
Proof.
  induction v1 as [ | b | n | s | items IH | fields IH ] using json_nested_ind;
    intros Hwf v2 Hr; inversion Hr; subst; try reflexivity.
  - (* arrays *)
    match goal with H : Forall2 reorder items ?l |- _ => rename H into HF; rename l into l2 end.
    assert (Hm : map (serialize K) items = map (serialize K) l2).
    { clear Hr. simpl in Hwf.
      induction HF as [ | x y l l' Hxy _ IHl ]; simpl; [ reflexivity | ].
      simpl in Hwf. apply andb_true_iff in Hwf as [Hx Hl].
      inversion IH as [ | ? ? IHx IHrest ]; subst.
      rewrite (IHx Hx y Hxy), (IHl IHrest Hl). reflexivity. }
    simpl. now rewrite Hm.
  - (* objects *)
    simpl in Hwf. apply andb_true_iff in Hwf as [Hnd Hwf].
    apply nodup_keys_NoDup in Hnd.
    match goal with H : Forall2 _ fields ?f |- _ => rename H into HF; rename f into f2 end.
    match goal with H : Permutation f2 ?f |- _ => rename H into HP; rename f into f3 end.
    assert (Hg : forall P, get_own (serialize K) P fields = get_own (serialize K) P f3).
    { intros P.
      transitivity (get_own (serialize K) P f2).
      - apply get_own_Forall2. clear Hr HP Hnd.
        induction HF as [ | [k x] [k' x'] l l' [Hk Hx] _ IHl ]; constructor.
        + simpl in *. apply andb_true_iff in Hwf as [Hwx _].
          inversion IH as [ | ? ? IHx _ ]; subst. split; [ reflexivity | ].
          now apply IHx.
        + simpl in Hwf. apply andb_true_iff in Hwf as [_ Hwl].
          inversion IH; subst. now apply IHl.
      - apply get_own_Permutation; [ exact HP | ].
        now rewrite <- (Forall2_same_keys (fun a b => reorder a.2 b.2) _ _ HF). }
    simpl. rewrite (omap_pointwise _
      (fun P => match get_own (serialize K) P f3 with
                | Some s => Some (QuoteJSONString P +:+ ":" +:+ s)
                | None => match inherited K P with
                          | Some s => Some (QuoteJSONString P +:+ ":" +:+ s)
                          | None => None
                          end
                end)); [ reflexivity | ].
    intros P. now rewrite Hg.
Qed.

Lemma reorder_keys (t1 t2 : list (string * json)) :
  reorder (JObj t1) (JObj t2) -> Permutation (Object_keys t1) (Object_keys t2).
Proof.
  unfold Object_keys. intros Hr. inversion Hr; subst; [ reflexivity | ].
  match goal with
  | H : Forall2 _ t1 _ |- _ =>
      rewrite (Forall2_same_keys (fun a b => reorder a.2 b.2) _ _ H)
  end.
  now apply Permutation_map.
Qed.

(** Values that differ only in object fields outside the property list
    print the same. *)
Lemma serialize_nested_differ (K K' : list string) (v1 : json) :
  (forall P, In P K' -> In P K) ->
  forall v2, nested_differ K v1 v2 -> serialize K' v1 = serialize K' v2.
Proof.
  intros Hsub.
  induction v1 as [ | b | n | s | items IH | fields IH ] using json_nested_ind;
    intros v2 Hd; inversion Hd; subst; try reflexivity.
  - match goal with H : Forall2 (nested_differ K) items ?l |- _ => rename H into HF; rename l into l2 end.
    assert (Hm : map (serialize K') items = map (serialize K') l2).
    { clear Hd. induction HF as [ | x y l l' Hxy _ IHl ]; simpl; [ reflexivity | ].
      inversion IH as [ | ? ? IHx IHrest ]; subst.
      rewrite (IHx y Hxy), (IHl IHrest). reflexivity. }
    simpl. now rewrite Hm.
  - match goal with H : Forall2 _ fields ?f |- _ => rename H into HF; rename f into f2 end.
    simpl. rewrite (omap_pointwise_In _
      (fun P => match get_own (serialize K') P f2 with
                | Some s => Some (QuoteJSONString P +:+ ":" +:+ s)
                | None => match inherited K' P with
                          | Some s => Some (QuoteJSONString P +:+ ":" +:+ s)
                          | None => None
                          end
                end)); [ reflexivity | ].
    intros P HP.
    assert (Hg : get_own (serialize K') P fields = get_own (serialize K') P f2).
    { clear Hd. apply Hsub in HP.
      induction HF as [ | [k x] [k' x'] l l' [Hk Hx] _ IHl ]; simpl in *; [ reflexivity | ].
      subst k'. inversion IH as [ | ? ? IHx IHrest ]; subst.
      destruct (String.eqb_spec k P) as [-> | Hne].
      - f_equal. apply IHx. now apply Hx.
      - now apply IHl. }
    now rewrite Hg.
Qed.

Lemma nested_differ_keys (K : list string) (t1 t2 : list (string * json)) :
  nested_differ K (JObj t1) (JObj t2) -> Object_keys t1 = Object_keys t2.
Proof.
  unfold Object_keys. intros Hd. inversion Hd; subst; [ reflexivity | ].
  match goal with
  | H : Forall2 _ t1 t2 |- _ =>
      exact (Forall2_same_keys
               (fun a b => In a.1 K -> nested_differ K a.2 b.2) _ _ H)
  end.
Qed.

Lemma PropertyList_In (x : string) (replacer : list string) :
  forall listed,
    In x (PropertyList listed replacer) <-> In x listed \/ In x replacer.
Proof.
  induction replacer as [ | item rest IH ]; intros listed; simpl.
  - intuition.
  - destruct (existsb (String.eqb item) listed) eqn:E; rewrite IH.
    + apply existsb_eqb_In in E. intuition (subst; auto).
    + rewrite in_app_iff. simpl. intuition.
Qed.

(** Equal-key specs that differ only in nested fields no top-level field
    is named after have one cache key. *)
Lemma generateCacheKey_nested (imageId : string) (t1 t2 : list (string * json)) :
  nested_differ (Object_keys t1) (JObj t1) (JObj t2) ->
  generateCacheKey imageId t1 = generateCacheKey imageId t2.
Proof.
  intros Hd. unfold generateCacheKey, JSON_stringify.
  rewrite <- (nested_differ_keys _ _ _ Hd).
  rewrite (serialize_nested_differ (Object_keys t1) _ (JObj t1)
             (fun P HP =>
                match proj1 (PropertyList_In P _ []) HP with
                | or_introl Hnil => match Hnil with end
                | or_intror Hin => proj1 (Array_sort_In P _) Hin
                end)
             (JObj t2) Hd).
  reflexivity.
Qed.

(** ** Cache keys *)

(** C1. For every image identifier and every transformation spec,
    re-ordering the spec's fields, at the top level and inside nested
    objects, without changing any field-value pair yields the same cache
    key from [generateCacheKey]. *)
Theorem generateCacheKey_reorder (imageId : string)
    (t1 t2 : list (string * json)) :
  wf_json (JObj t1) = true ->
  reorder (JObj t1) (JObj t2) ->
  generateCacheKey imageId t1 = generateCacheKey imageId t2.
Proof.
  intros Hwf Hr. unfold generateCacheKey, JSON_stringify.
  rewrite (Array_sort_Permutation _ _ (reorder_keys _ _ Hr)).
  now rewrite (serialize_reorder _ (JObj t1) Hwf (JObj t2) Hr).
Qed.

Lemma generateCacheKey_reorder_witness :
  wf_json (JObj ordered_spec) = true
  /\ reorder (JObj ordered_spec) (JObj reordered_spec)
  /\ generateCacheKey "img1" ordered_spec = generateCacheKey "img1" reordered_spec.
Proof.
  assert (Hr : reorder (JObj ordered_spec) (JObj reordered_spec)).
  { unfold ordered_spec, reordered_spec.
    eapply (reorder_obj _
              [("resize", JObj [("height", jint 50); ("width", jint 100)]);
               ("format", JStr "png")]).
    - constructor.
      + split; [ reflexivity | ].
        eapply (reorder_obj _ [("width", jint 100); ("height", jint 50)]).
        * repeat constructor.
        * apply perm_swap.
      + repeat constructor.
    - apply perm_swap. }
  split; [ reflexivity | ]. split; [ exact Hr | ].
  apply generateCacheKey_reorder; [ reflexivity | exact Hr ].
Defined.

(** C2. For every image identifier and every pair of specs with the same
    top-level field names that differ only in the values of nested fields
    whose names are not top-level field names, [generateCacheKey] returns
    the same key; consequently [transformImageSync] answers a request for
    the second spec with the output cached under the first. *)
Theorem generateCacheKey_erases_nested (imageId : string)
    (t1 t2 : list (string * json)) :
  nested_differ (Object_keys t1) (JObj t1) (JObj t2) ->
  generateCacheKey imageId t1 = generateCacheKey imageId t2
  /\ forall env now uuid userId w image p c',
       Image_findOne (images w) imageId userId = Some image ->
       existsSync (disk w) (Image.path image) = true ->
       getFromCache now (generateCacheKey imageId t1) (apiCache w) = (Some p, c') ->
       existsSync (disk w) p = true ->
       transformImageSync env now uuid
         {| req_id := imageId; req_userId := userId;
            req_transformations := t2 |} w
       = (SendFile p None, set_apiCache c' w).
Proof.
  intros Hd. pose proof (generateCacheKey_nested imageId t1 t2 Hd) as Hkey.
  split; [ exact Hkey | ].
  intros env now uuid userId w image p c' Hfind Hsrc Hget Hp.
  unfold transformImageSync. simpl.
  rewrite Hfind, Hsrc. simpl. rewrite <- Hkey, Hget, Hp. reflexivity.
Qed.

Lemma generateCacheKey_erases_nested_witness :
  nested_differ (Object_keys resize100_spec)
                (JObj resize100_spec) (JObj resize200_spec)
  /\ fst (transformImageSync env0 1 "U1" (req0 resize100_spec) world0)
     = SendFile "processed/U1.jpg" (Some "image/jpeg")
  /\ generateCacheKey "img1" resize100_spec = generateCacheKey "img1" resize200_spec
  /\ fst (transformImageSync env0 2 "U2" (req0 resize200_spec) cached_world)
     = SendFile "processed/U1.jpg" None.
Proof.
  assert (Hd : nested_differ (Object_keys resize100_spec)
                 (JObj resize100_spec) (JObj resize200_spec)).
  { apply nd_obj. constructor; [ | constructor ].
    split; [ reflexivity | ]. intros _.
    apply nd_obj. constructor; [ | constructor ].
    split; [ reflexivity | ]. simpl. intros [H | []]. discriminate H. }
  split; [ exact Hd | ]. split; [ vm_compute; reflexivity | ].
  destruct (generateCacheKey_erases_nested "img1" _ _ Hd) as [Hkey Hserve].
  split; [ exact Hkey | ].
  unfold req0.
  erewrite (Hserve env0 2%Z "U2" "u1" cached_world).
  - reflexivity.
  - vm_compute. reflexivity.
  - vm_compute. reflexivity.
  - vm_compute. reflexivity.
  - vm_compute. reflexivity.
Defined.

(** ** Stage order *)

Lemma worker_encode_keeps_size (geo : Geometry) (d : dims) (f : string)
    (quality compress : jsval) :
  apply_call geo d (worker_encode f quality compress) = Ok d.
Proof.
  unfold worker_encode.
  repeat match goal with
         | |- context [if ?c then _ else _] => destruct c
         end; reflexivity.
Qed.

Lemma sync_encode_keeps_size (geo : Geometry) (d : dims) (f : string)
    (quality : jsval) :
  apply_call geo d (sync_encode f quality) = Ok d.
Proof.
  unfold sync_encode.
  repeat match goal with
         | |- context [if ?c then _ else _] => destruct c
         end; reflexivity.
Qed.

Lemma apply_calls_worker_encode (geo : Geometry) (f : string)
    (quality compress : jsval) (cs : list sharp_call) :
  forall d, apply_calls geo d (cs ++ [worker_encode f quality compress])
            = apply_calls geo d cs.
Proof.
  induction cs as [ | c cs IH ]; intros d; simpl.
  - now rewrite worker_encode_keeps_size.
  - destruct (apply_call geo d c); simpl; [ apply IH | reflexivity ].
Qed.

Lemma apply_calls_sync_encode (geo : Geometry) (f : string)
    (quality : jsval) (cs : list sharp_call) :
  forall d, apply_calls geo d (cs ++ [sync_encode f quality])
            = apply_calls geo d cs.
Proof.
  induction cs as [ | c cs IH ]; intros d; simpl.
  - now rewrite sync_encode_keeps_size.
  - destruct (apply_call geo d c); simpl; [ apply IH | reflexivity ].
Qed.

Lemma existsSync_Some (d : gmap string file) (p : string) (f : file) :
  d !! p = Some f -> existsSync d p = true.
Proof. unfold existsSync. now intros ->. Qed.

(** C3, as the code has it.  For a 1000 x 800 source and the spec
    [{crop:{x:0,y:0,width:500,height:400}, resize:{width:250,height:200}}]
    both pipelines issue the resize before the crop: the image is first
    resized to 250 x 200, the 500 x 400 rectangle then exceeds its bounds
    and the pipeline fails without output.  With the two sizes exchanged
    (resize to 500 x 400, crop 250 x 200) the output is exactly 250 x 200. *)
Theorem resize_precedes_crop (env : Env) (uuid sourcePath filename : string)
    (d : gmap string file) :
  d !! sourcePath = Some source_1000x800 ->
  (exists p encode,
      applyTransformations_plan uuid sourcePath crop_then_resize_spec = Ok p
      /\ calls p =
           [Resize (Some (jint 250)) (Some (jint 200)) (JStr "cover")
                   (JStr "center") (Some (JBool false));
            Extract (jint 0) (jint 0) (Some (jint 500)) (Some (jint 400));
            encode])
  /\ applyTransformations env uuid sourcePath crop_then_resize_spec d
     = Err "extract_area: bad extract area"
  /\ (exists p,
        transformImageSync_plan uuid filename crop_then_resize_spec = Ok p
        /\ sharp_toFile (geometry env) (d !! sourcePath) (calls p)
           = Err "extract_area: bad extract area")
  /\ (exists o,
        applyTransformations env uuid sourcePath resize_then_crop_spec d
        = Ok (o, <[path o := ImageFile {| img_width := 250; img_height := 200 |}]> d)
        /\ width o = 250%Z /\ height o = 200%Z).
Proof.
  intros Hsrc.
  unfold applyTransformations, applyTransformations_plan, transformImageSync_plan.
  rewrite (existsSync_Some _ _ _ Hsrc), Hsrc.
  cbn -[worker_encode sync_encode toLowerCase path_extname apply_calls app].
  rewrite !apply_calls_worker_encode.
  split; [ | split; [ | split ] ].
  - eexists. eexists. split; reflexivity.
  - reflexivity.
  - eexists. split; [ reflexivity | ]. cbn -[sync_encode path_extname apply_calls app].
    rewrite apply_calls_sync_encode. reflexivity.
  - cbn -[toLowerCase path_extname].
    change (0 + 250 <=? 500)%Z with true. change (0 + 200 <=? 400)%Z with true.
    cbn -[toLowerCase path_extname].
    eexists {| path := _; filename := _; format := _; width := _; height := _ |}.
    split; [ reflexivity | ]. split; reflexivity.
Qed.

Lemma resize_precedes_crop_witness :
  disk world0 !! "uploads/photo.jpg" = Some source_1000x800
  /\ applyTransformations env0 "U" "uploads/photo.jpg" crop_then_resize_spec
                          (disk world0)
     = Err "extract_area: bad extract area".
Proof.
  assert (H : disk world0 !! "uploads/photo.jpg" = Some source_1000x800)
    by (vm_compute; reflexivity).
  split; [ exact H | ].
  exact (proj1 (proj2 (resize_precedes_crop env0 "U" "uploads/photo.jpg"
                         "photo.jpg" (disk world0) H))).
Defined.

(** C3, as stated, fails on the code: the specification's example spec
    produces no 250 x 200 output, on either path. *)
Lemma crop_then_resize_fails :
  applyTransformations env0 "U" "uploads/photo.jpg" crop_then_resize_spec
                       (disk world0)
  = Err "extract_area: bad extract area"
  /\ fst (transformImageSync env0 5 "U" (req0 crop_then_resize_spec) world0)
     = ServerError "extract_area: bad extract area".
Proof. split; vm_compute; reflexivity. Qed.

(** ** The world: projections of the recorded status writes *)

Lemma log_status_images (j i : string) (s : Status) (w : World) :
  images (log_status j i s w) = images w.
Proof. unfold log_status. now destruct (images w !! i). Qed.

Lemma log_status_disk (j i : string) (s : Status) (w : World) :
  disk (log_status j i s w) = disk w.
Proof. unfold log_status. now destruct (images w !! i). Qed.

Lemma log_status_queue (j i : string) (s : Status) (w : World) :
  queue (log_status j i s w) = queue w.
Proof. unfold log_status. now destruct (images w !! i). Qed.

Lemma log_status_deliveries (j i : string) (s : Status) (w : World) :
  deliveries (log_status j i s w) = deliveries w.
Proof. unfold log_status. now destruct (images w !! i). Qed.

Lemma log_status_present (j i : string) (s : Status) (w : World) (image : Image.t) :
  images w !! i = Some image ->
  statusLog (log_status j i s w)
  = (statusLog w ++ [{| by_job := j; on_image := i; written := s |}])%list.
Proof. unfold log_status. now intros ->. Qed.

Lemma log_status_absent (j i : string) (s : Status) (w : World) :
  images w !! i = None -> log_status j i s w = w.
Proof. unfold log_status. now intros ->. Qed.

Ltac world_simpl :=
  repeat (progress (cbn [set_queue set_disk set_images set_apiCache
                         set_workerCache add_delivery Image_update
                         mark_processing queue disk deliveries images
                         statusLog apiCache workerCache])
          || rewrite log_status_disk || rewrite log_status_deliveries
          || rewrite log_status_images || rewrite log_status_queue).

(** ** The worker on a failing and on a succeeding run *)

Lemma processJob_failure (env : Env) (now : Z) (uuid : string) (job : Job.t)
    (w : World) (m : string) :
  applyTransformations env uuid (Job.sourcePath job) (Job.transformations job)
                       (disk w) = Err m ->
  processJob env now uuid job w
  = (Err m,
     Image_update (Job.imageId job) (with_processing false failed (Some m))
       (log_status (Job.jobId job) (Job.imageId job) failed
                   (mark_processing job w))).
Proof.
  intros H. unfold processJob.
  replace (disk (mark_processing job w)) with (disk w) by (now world_simpl).
  rewrite H. reflexivity.
Qed.

Lemma consume_failure (env : Env) (now : Z) (uuid : string) (msg : Job.t)
    (rest : list Job.t) (w : World) (m : string) :
  queue w = msg :: rest ->
  applyTransformations env uuid (Job.sourcePath msg) (Job.transformations msg)
                       (disk w) = Err m ->
  consume env now uuid w
  = set_queue (msg :: rest)
      (Image_update (Job.imageId msg) (with_processing false failed (Some m))
         (log_status (Job.jobId msg) (Job.imageId msg) failed
            (mark_processing msg (add_delivery (Job.jobId msg) w)))).
Proof.
  intros Hq H. unfold consume, onMessage. rewrite Hq.
  rewrite (processJob_failure env now uuid msg _ m) by exact H. reflexivity.
Qed.

Lemma consume_failure_fields (env : Env) (now : Z) (uuid : string)
    (msg : Job.t) (rest : list Job.t) (w : World) (m : string) :
  queue w = msg :: rest ->
  applyTransformations env uuid (Job.sourcePath msg) (Job.transformations msg)
                       (disk w) = Err m ->
  queue (consume env now uuid w) = msg :: rest
  /\ disk (consume env now uuid w) = disk w
  /\ deliveries (consume env now uuid w)
     = (deliveries w ++ [Job.jobId msg])%list
  /\ images (consume env now uuid w)
     = alter (with_processing false failed (Some m)) (Job.imageId msg)
         (alter (with_status processing None) (Job.imageId msg) (images w)).
Proof.
  intros Hq H. rewrite (consume_failure env now uuid msg rest w m Hq H).
  world_simpl. auto.
Qed.

Lemma mark_processing_row (job : Job.t) (w : World) (image : Image.t) :
  images w !! Job.imageId job = Some image ->
  images (mark_processing job w) !! Job.imageId job
  = Some (with_status processing None image).
Proof.
  intros H. world_simpl. now rewrite lookup_alter_eq, H.
Qed.

Lemma mark_processing_log (job : Job.t) (w : World) (image : Image.t) :
  images w !! Job.imageId job = Some image ->
  statusLog (mark_processing job w)
  = (statusLog w ++ [{| by_job := Job.jobId job; on_image := Job.imageId job;
                        written := processing |}])%list.
Proof.
  intros H. world_simpl. now apply log_status_present with image.
Qed.

(** A failing delivery on an existing row: the two status writes, the
    resulting row, the requeued message. *)
Lemma consume_failure_row (env : Env) (now : Z) (uuid : string)
    (msg : Job.t) (rest : list Job.t) (w : World) (m : string)
    (image : Image.t) :
  queue w = msg :: rest ->
  images w !! Job.imageId msg = Some image ->
  applyTransformations env uuid (Job.sourcePath msg) (Job.transformations msg)
                       (disk w) = Err m ->
  statusLog (consume env now uuid w)
  = (statusLog w
     ++ [{| by_job := Job.jobId msg; on_image := Job.imageId msg;
            written := processing |};
         {| by_job := Job.jobId msg; on_image := Job.imageId msg;
            written := failed |}])%list
  /\ images (consume env now uuid w) !! Job.imageId msg
     = Some (with_processing false failed (Some m)
               (with_status processing None image)).
Proof.
  intros Hq Hrow H. rewrite (consume_failure env now uuid msg rest w m Hq H).
  assert (Hrow' : images (add_delivery (Job.jobId msg) w) !! Job.imageId msg
                  = Some image) by exact Hrow.
  pose proof (mark_processing_row msg _ image Hrow') as Hmark.
  split.
  - cbn [set_queue Image_update set_images statusLog].
    rewrite (log_status_present _ _ _ _ _ Hmark).
    rewrite (mark_processing_log msg _ image Hrow').
    cbn [add_delivery statusLog]. now rewrite <- app_assoc.
  - cbn [set_queue Image_update set_images images].
    rewrite log_status_images, lookup_alter_eq, Hmark. reflexivity.
Qed.

(** A succeeding delivery on an existing row. *)
Lemma consume_success_row (env : Env) (now : Z) (uuid : string)
    (msg : Job.t) (rest : list Job.t) (w : World) (res : output)
    (disk' : gmap string file) (image : Image.t) :
  queue w = msg :: rest ->
  images w !! Job.imageId msg = Some image ->
  applyTransformations env uuid (Job.sourcePath msg) (Job.transformations msg)
                       (disk w) = Ok (res, disk') ->
  queue (consume env now uuid w) = rest
  /\ statusLog (consume env now uuid w)
     = (statusLog w
        ++ [{| by_job := Job.jobId msg; on_image := Job.imageId msg;
               written := processing |};
            {| by_job := Job.jobId msg; on_image := Job.imageId msg;
               written := completed |}])%list
  /\ exists image',
       images (consume env now uuid w) !! Job.imageId msg = Some image'
       /\ Image.processingStatus image' = completed
       /\ Image.isProcessing image' = false
       /\ Image.processingError image' = None.
Proof.
  intros Hq Hrow H. unfold consume, onMessage, processJob. rewrite Hq.
  assert (Hrow' : images (add_delivery (Job.jobId msg) w) !! Job.imageId msg
                  = Some image) by exact Hrow.
  pose proof (mark_processing_row msg _ image Hrow') as Hmark.
  replace (disk (mark_processing msg (add_delivery (Job.jobId msg) w)))
    with (disk w) by (now world_simpl).
  rewrite H. unfold Image_findByPk.
  cbn [set_disk images]. rewrite Hmark.
  cbn [set_queue set_workerCache set_disk Image_update set_images queue
       statusLog images].
  split; [ reflexivity | ]. split.
  - rewrite (log_status_present _ _ _ _ (with_status processing None image))
      by exact Hmark.
    cbn [set_disk statusLog]. rewrite (mark_processing_log msg _ image Hrow').
    cbn [add_delivery statusLog]. now rewrite <- app_assoc.
  - rewrite log_status_images. cbn [set_disk images].
    rewrite lookup_alter_eq, Hmark.
    eexists. split; [ reflexivity | ]. auto.
Qed.

(** ** Job lifecycle *)

(** Deliveries of other jobs: a job none of whose messages is queued gets
    no status write and no delivery, however many deliveries follow. *)
Lemma statuses_of_log_status_other (j j' i : string) (s : Status) (w : World) :
  j' <> j ->
  statuses_of j (statusLog (log_status j' i s w)) = statuses_of j (statusLog w).
Proof.
  intros Hne. unfold log_status. destruct (images w !! i); [ | reflexivity ].
  cbn [statusLog]. unfold statuses_of.
  rewrite filter_app, filter_cons_False by (cbn; congruence).
  rewrite filter_nil, app_nil_r. reflexivity.
Qed.

Lemma processJob_other_job (j : string) (env : Env) (now : Z) (uuid : string)
    (job : Job.t) (w : World) :
  Job.jobId job <> j ->
  statuses_of j (statusLog (snd (processJob env now uuid job w)))
  = statuses_of j (statusLog w)
  /\ deliveries (snd (processJob env now uuid job w)) = deliveries w
  /\ queue (snd (processJob env now uuid job w)) = queue w.
Proof.
  intros Hne. unfold processJob.
  destruct (applyTransformations env uuid (Job.sourcePath job)
              (Job.transformations job) (disk (mark_processing job w)))
    as [[res disk'] | m].
  - destruct (Image_findByPk (images (set_disk disk' (mark_processing job w)))
                (Job.imageId job)) as [image | ]; cbn [snd]; world_simpl;
      rewrite ?statuses_of_log_status_other by exact Hne;
      world_simpl; rewrite ?statuses_of_log_status_other by exact Hne; auto.
  - cbn [snd]. world_simpl.
    rewrite !statuses_of_log_status_other by exact Hne.
    world_simpl. rewrite ?statuses_of_log_status_other by exact Hne. auto.
Qed.

Lemma consume_other_job (j : string) (env : Env) (now : Z) (uuid : string)
    (w : World) :
  (forall m, In m (queue w) -> Job.jobId m <> j) ->
  statuses_of j (statusLog (consume env now uuid w))
  = statuses_of j (statusLog w)
  /\ delivery_count j (consume env now uuid w) = delivery_count j w
  /\ (forall m, In m (queue (consume env now uuid w)) -> In m (queue w)).
Proof.
  intros Hq. unfold consume, onMessage.
  destruct (queue w) as [ | msg rest ] eqn:Eq; [ rewrite Eq; auto | ].
  assert (Hne : Job.jobId msg <> j) by (apply Hq; now left).
  destruct (processJob_other_job j env now uuid msg
              (add_delivery (Job.jobId msg) w) Hne) as (Hs & Hd & _).
  assert (Hcount : length (filter (fun x => x = j)
                             (deliveries (add_delivery (Job.jobId msg) w)))
                   = delivery_count j w).
  { cbn [add_delivery deliveries]. unfold delivery_count.
    rewrite filter_app, filter_cons_False by congruence.
    rewrite filter_nil, app_nil_r. reflexivity. }
  destruct (processJob env now uuid msg (add_delivery (Job.jobId msg) w))
    as [[res | m] w']; cbn [snd] in Hs, Hd; unfold delivery_count;
    cbn [set_queue statusLog deliveries queue]; rewrite Hs, Hd, Hcount;
    (split; [ reflexivity | ]); (split; [ reflexivity | ]).
  - intros x Hx. now right.
  - intros x Hx. exact Hx.
Qed.

Lemma run_other_job (j : string) (env : Env) (inputs : list (Z * string)) :
  forall w,
    (forall m, In m (queue w) -> Job.jobId m <> j) ->
    statuses_of j (statusLog (run env inputs w)) = statuses_of j (statusLog w)
    /\ delivery_count j (run env inputs w) = delivery_count j w.
Proof.
  induction inputs as [ | [now uuid] inputs IH ]; intros w Hq; [ now split | ].
  cbn [run].
  destruct (consume_other_job j env now uuid w Hq) as (Hs & Hd & Hsub).
  destruct (IH (consume env now uuid w)) as [Hs' Hd'].
  { intros m Hm. apply Hq, Hsub, Hm. }
  split; congruence.
Qed.

(** C4, as the code has it.  Each delivery of a job whose image row exists
    writes [processing] and then exactly one of [completed] and [failed],
    never [pending].  After [completed] the message is acknowledged and
    leaves the queue; when no other queued message carries the id of the
    job ([transformImage] publishes each job id once), no later delivery
    writes a status for the job or hands it to the worker again.  After
    [failed] the message is requeued at its position, and the next
    delivery writes [processing] again: [failed] is not terminal. *)
Theorem delivery_status_writes (env : Env) (now : Z) (uuid : string)
    (msg : Job.t) (rest : list Job.t) (w : World) (image : Image.t) :
  queue w = msg :: rest ->
  images w !! Job.imageId msg = Some image ->
  let wr s := {| by_job := Job.jobId msg; on_image := Job.imageId msg;
                 written := s |} in
  let w' := consume env now uuid w in
  (statusLog w' = (statusLog w ++ [wr processing; wr completed])%list
   /\ queue w' = rest
   /\ ((forall m, In m rest -> Job.jobId m <> Job.jobId msg) ->
       forall inputs,
         statuses_of (Job.jobId msg) (statusLog (run env inputs w'))
         = statuses_of (Job.jobId msg) (statusLog w')
         /\ delivery_count (Job.jobId msg) (run env inputs w')
            = delivery_count (Job.jobId msg) w'))
  \/ (statusLog w' = (statusLog w ++ [wr processing; wr failed])%list
      /\ queue w' = msg :: rest
      /\ forall now2 uuid2, exists s,
           statusLog (consume env now2 uuid2 w')
           = (statusLog w' ++ [wr processing; wr s])%list).
Proof.
  intros Hq Hrow wr w'. subst w'.
  destruct (applyTransformations env uuid (Job.sourcePath msg)
              (Job.transformations msg) (disk w)) as [[res disk'] | m] eqn:Happ.
  - left. destruct (consume_success_row env now uuid msg rest w res disk' image
                      Hq Hrow Happ) as (Hqueue & Hlog & _).
    split; [ assumption | ]. split; [ assumption | ].
    intros Hrest inputs. apply run_other_job. now rewrite Hqueue.
  - right.
    destruct (consume_failure_row env now uuid msg rest w m image Hq Hrow Happ)
      as [Hlog Hrow'].
    destruct (consume_failure_fields env now uuid msg rest w m Hq Happ)
      as (Hqueue & Hdisk & _).
    split; [ exact Hlog | ]. split; [ exact Hqueue | ].
    intros now2 uuid2.
    destruct (applyTransformations env uuid2 (Job.sourcePath msg)
                (Job.transformations msg) (disk (consume env now uuid w)))
      as [[res2 disk2] | m2] eqn:Happ2.
    + exists completed.
      now destruct (consume_success_row env now2 uuid2 msg rest _ res2 disk2 _
                      Hqueue Hrow' Happ2) as (_ & Hlog2 & _).
    + exists failed.
      now destruct (consume_failure_row env now2 uuid2 msg rest _ m2 _
                      Hqueue Hrow' Happ2) as [Hlog2 _].
Qed.

Lemma delivery_status_writes_witness :
  queue poison_world = [poison_job]
  /\ images poison_world !! "img1" = Some busy_image
  /\ statusLog (consume env0 6 "U1" poison_world)
     = [{| by_job := "J1"; on_image := "img1"; written := pending |};
        {| by_job := "J1"; on_image := "img1"; written := processing |};
        {| by_job := "J1"; on_image := "img1"; written := failed |}]
  /\ statuses_of "J1"
       (statusLog
          (run env0 [(7%Z, "U2"); (8%Z, "U3")]
             (consume env0 6 "U1"
                (snd (transformImage 5 "J1" (req0 resize_then_crop_spec)
                                     world0)))))
     = [pending; processing; completed].
Proof.
  assert (Hq : queue poison_world = [poison_job]) by (vm_compute; reflexivity).
  assert (Hrow : images poison_world !! Job.imageId poison_job = Some busy_image)
    by (vm_compute; reflexivity).
  split; [ exact Hq | ]. split; [ exact Hrow | ]. split.
  - destruct (delivery_status_writes env0 6 "U1" poison_job [] poison_world
                busy_image Hq Hrow) as [(Hlog & Hqueue & _) | (Hlog & _)].
    + exfalso. vm_compute in Hqueue. discriminate Hqueue.
    + rewrite Hlog. vm_compute. reflexivity.
  - assert (Hq2 : queue (snd (transformImage 5 "J1"
                                (req0 resize_then_crop_spec) world0))
                  = [{| Job.jobId := "J1"; Job.imageId := "img1";
                        Job.userId := "u1";
                        Job.sourcePath := "uploads/photo.jpg";
                        Job.originalFilename := "photo.jpg";
                        Job.transformations := resize_then_crop_spec;
                        Job.createdAt := 5 |}]) by (vm_compute; reflexivity).
    assert (Hrow2 : images (snd (transformImage 5 "J1"
                                   (req0 resize_then_crop_spec) world0))
                      !! "img1" = Some busy_image) by (vm_compute; reflexivity).
    destruct (delivery_status_writes env0 6 "U1" _ [] _ busy_image Hq2 Hrow2)
      as [(Hlog & _ & Hterm) | (_ & Hqueue & _)].
    + cbn [Job.jobId] in Hterm.
      rewrite (proj1 (Hterm (fun m (H : In m []) => match H with end)
                            [(7%Z, "U2"); (8%Z, "U3")])).
      rewrite Hlog. vm_compute. reflexivity.
    + exfalso. vm_compute in Hqueue. discriminate Hqueue.
Defined.

(** C4, as stated, fails on the code: after a failing run the job is
    delivered again and its status goes from [failed] back to
    [processing]. *)
Lemma failed_job_returns_to_processing :
  statuses_of "J1" (statusLog (run env0 [(6%Z, "U1"); (7%Z, "U2")] poison_world))
  = [pending; processing; failed; processing; failed]
  /\ monotone_lifecycle
       (statuses_of "J1"
          (statusLog (run env0 [(6%Z, "U1"); (7%Z, "U2")] poison_world)))
     = false.
Proof. split; vm_compute; reflexivity. Qed.

(** ** Mutual exclusion on the asynchronous endpoint *)

(** C5. For every image record whose [isProcessing] flag is true, a call
    to [transformImage] for that image fails with status 409
    (AlreadyProcessing) and leaves the world, in particular the queue,
    unchanged: no second job message is published. *)
Theorem transformImage_rejects_in_flight (now : Z) (uuid : string)
    (req : request) (w : World) (image : Image.t) :
  Image_findOne (images w) (req_id req) (req_userId req) = Some image ->
  Image.isProcessing image = true ->
  transformImage now uuid req w
  = (ApiError 409 "Image is currently being processed. Please wait.", w).
Proof.
  intros Hfind Hflag. unfold transformImage. now rewrite Hfind, Hflag.
Qed.

Lemma transformImage_rejects_in_flight_witness :
  Image_findOne (images busy_world) "img1" "u1" = Some busy_image
  /\ Image.isProcessing busy_image = true
  /\ transformImage 9 "J2" (req0 resize_then_crop_spec) busy_world
     = (ApiError 409 "Image is currently being processed. Please wait.",
        busy_world).
Proof.
  assert (H : Image_findOne (images busy_world) "img1" "u1" = Some busy_image)
    by (vm_compute; reflexivity).
  split; [ exact H | ]. split; [ reflexivity | ].
  exact (transformImage_rejects_in_flight 9 "J2" (req0 resize_then_crop_spec)
           busy_world busy_image H eq_refl).
Defined.

(** ** Failure recording *)

(** C7. For every job whose pipeline execution fails, the worker leaves
    the image record with [processingStatus = failed], [processingError]
    holding the error message and [isProcessing = false], and the consumer
    negatively acknowledges the message with requeue. *)
Theorem failure_recorded_and_requeued (env : Env) (now : Z) (uuid : string)
    (msg : Job.t) (rest : list Job.t) (w : World) (image : Image.t)
    (m : string) :
  queue w = msg :: rest ->
  images w !! Job.imageId msg = Some image ->
  applyTransformations env uuid (Job.sourcePath msg) (Job.transformations msg)
                       (disk w) = Err m ->
  fst (onMessage env now uuid msg w) = NackRequeue
  /\ queue (consume env now uuid w) = msg :: rest
  /\ exists image',
       images (consume env now uuid w) !! Job.imageId msg = Some image'
       /\ Image.processingStatus image' = failed
       /\ Image.processingError image' = Some m
       /\ Image.isProcessing image' = false.
Proof.
  intros Hq Hrow Happ. split; [ | split ].
  - unfold onMessage. now rewrite (processJob_failure env now uuid msg w m Happ).
  - now destruct (consume_failure_fields env now uuid msg rest w m Hq Happ).
  - destruct (consume_failure_row env now uuid msg rest w m image Hq Hrow Happ)
      as [_ Hrow'].
    eexists. split; [ exact Hrow' | ]. auto.
Qed.

Lemma failure_recorded_and_requeued_witness :
  applyTransformations env0 "U1" "uploads/photo.jpg" crop_then_resize_spec
                       (disk poison_world)
  = Err "extract_area: bad extract area"
  /\ fst (onMessage env0 6 "U1" poison_job poison_world) = NackRequeue
  /\ queue (consume env0 6 "U1" poison_world) = [poison_job]
  /\ exists image',
       images (consume env0 6 "U1" poison_world) !! "img1" = Some image'
       /\ Image.processingStatus image' = failed
       /\ Image.processingError image' = Some "extract_area: bad extract area"
       /\ Image.isProcessing image' = false.
Proof.
  assert (Happ : applyTransformations env0 "U1" (Job.sourcePath poison_job)
                   (Job.transformations poison_job) (disk poison_world)
                 = Err "extract_area: bad extract area")
    by (vm_compute; reflexivity).
  split; [ exact Happ | ].
  apply (failure_recorded_and_requeued env0 6 "U1" poison_job [] poison_world
           busy_image).
  - vm_compute. reflexivity.
  - vm_compute. reflexivity.
  - exact Happ.
Defined.

(** ** Redelivery of a job that cannot succeed *)

Lemma filter_repeat_same (j : string) (n : nat) :
  filter (fun x => x = j) (repeat j n) = repeat j n.
Proof.
  induction n as [ | n IH ]; simpl; [ reflexivity | ].
  rewrite filter_cons_True by reflexivity. now rewrite IH.
Qed.

Lemma delivery_count_app (j : string) (w : World) (l : list string) (n : nat) :
  deliveries w = (l ++ repeat j n)%list ->
  delivery_count j w = length (filter (fun x => x = j) l) + n.
Proof.
  unfold delivery_count. intros ->.
  rewrite filter_app, length_app, filter_repeat_same, repeat_length.
  reflexivity.
Qed.

(** While every attempt fails, every delivery leaves the message at its
    place in the queue and the disk as it was. *)
Lemma run_failing (env : Env) (msg : Job.t) (rest : list Job.t)
    (inputs : list (Z * string)) :
  forall w,
    queue w = msg :: rest ->
    (forall uuid, exists m,
        applyTransformations env uuid (Job.sourcePath msg)
                             (Job.transformations msg) (disk w) = Err m) ->
    queue (run env inputs w) = msg :: rest
    /\ disk (run env inputs w) = disk w
    /\ deliveries (run env inputs w)
       = (deliveries w ++ repeat (Job.jobId msg) (length inputs))%list.
Proof.
  induction inputs as [ | [now uuid] inputs IH ]; intros w Hq Hfail; simpl.
  - rewrite app_nil_r. auto.
  - destruct (Hfail uuid) as [m Hm].
    destruct (consume_failure_fields env now uuid msg rest w m Hq Hm)
      as (Hq' & Hd' & Hdel' & _).
    destruct (IH (consume env now uuid w) Hq') as (Hq2 & Hd2 & Hdel2).
    { intros uuid'. rewrite Hd'. apply Hfail. }
    split; [ exact Hq2 | ]. split; [ congruence | ].
    rewrite Hdel2, Hdel', <- app_assoc. reflexivity.
Qed.

(** C8, as the code has it.  For every job whose processing fails
    permanently, every delivery is negatively acknowledged with requeue:
    after any number [n] of further deliveries the message is still at its
    place in the queue and has been delivered [n] more times, so the number
    of redeliveries has no bound. *)
Theorem failing_job_redelivered_every_time (env : Env) (msg : Job.t)
    (rest : list Job.t) (inputs : list (Z * string)) (w : World) :
  queue w = msg :: rest ->
  (forall uuid, exists m,
      applyTransformations env uuid (Job.sourcePath msg)
                           (Job.transformations msg) (disk w) = Err m) ->
  queue (run env inputs w) = msg :: rest
  /\ delivery_count (Job.jobId msg) (run env inputs w)
     = delivery_count (Job.jobId msg) w + length inputs.
Proof.
  intros Hq Hfail.
  destruct (run_failing env msg rest inputs w Hq Hfail) as (Hq' & _ & Hdel).
  split; [ exact Hq' | ].
  rewrite (delivery_count_app _ _ _ _ Hdel). reflexivity.
Qed.

Lemma poison_job_always_fails (uuid : string) :
  exists m,
    applyTransformations env0 uuid (Job.sourcePath poison_job)
                         (Job.transformations poison_job) (disk poison_world)
    = Err m.
Proof. eexists. vm_compute. reflexivity. Qed.

Lemma failing_job_redelivered_every_time_witness :
  queue poison_world = [poison_job]
  /\ queue (run env0 [(6%Z, "U1"); (7%Z, "U2"); (8%Z, "U3")] poison_world)
     = [poison_job]
  /\ delivery_count "J1"
       (run env0 [(6%Z, "U1"); (7%Z, "U2"); (8%Z, "U3")] poison_world) = 3.
Proof.
  assert (Hq : queue poison_world = [poison_job]) by (vm_compute; reflexivity).
  split; [ exact Hq | ].
  exact (failing_job_redelivered_every_time env0 poison_job []
           [(6%Z, "U1"); (7%Z, "U2"); (8%Z, "U3")] poison_world Hq
           poison_job_always_fails).
Defined.

(** C8, as stated, fails on the code: no number bounds the deliveries of
    the job whose crop rectangle never fits. *)
Lemma poison_job_redelivery_unbounded :
  ~ exists bound : nat,
      forall inputs : list (Z * string),
        delivery_count "J1" (run env0 inputs poison_world) <= bound.
Proof.
  intros [bound Hbound].
  specialize (Hbound (repeat (0%Z, "U") (S bound))).
  assert (Hq : queue poison_world = [poison_job]) by (vm_compute; reflexivity).
  destruct (run_failing env0 poison_job [] (repeat (0%Z, "U") (S bound))
              poison_world Hq poison_job_always_fails) as (_ & _ & Hdel).
  rewrite (delivery_count_app "J1" _ _ _ Hdel), repeat_length in Hbound.
  lia.
Qed.

(** ** The cache bound *)

Lemma del_all_size (ks : list string) :
  forall c,
    size (NodeCache.data (fold_left (fun acc key => NodeCache.del key acc) ks c))
    <= size (NodeCache.data c).
Proof.
  induction ks as [ | k ks IH ]; intros c; simpl; [ reflexivity | ].
  etransitivity; [ apply IH | ]. simpl. rewrite map_size_delete.
  destruct (NodeCache.data c !! k); simpl; lia.
Qed.

Lemma cache_step_bounded (c : NodeCache.cache) (op : cache_op) :
  size (NodeCache.data c) <= NodeCache.maxKeys ->
  size (NodeCache.data (cache_step c op)) <= NodeCache.maxKeys.
Proof.
  intros Hc.
  destruct op as [now key | now key value ttl | key | imageId | | now ]; simpl.
  - unfold getFromCache, NodeCache.get.
    destruct (NodeCache.data c !! key) as [e | ] eqn:He.
    + destruct (NodeCache.expired now e); simpl.
      * rewrite map_size_delete, He. simpl.
        unfold NodeCache.maxKeys in *. lia.
      * destruct (negb (NodeCache.v e =? "")); simpl; exact Hc.
    + simpl. exact Hc.
  - unfold setInCache, NodeCache.set.
    destruct (Nat.leb NodeCache.maxKeys (size (NodeCache.data c))) eqn:Hfull;
      simpl; [ exact Hc | ].
    apply Nat.leb_gt in Hfull. rewrite map_size_insert.
    unfold NodeCache.maxKeys in *.
    destruct (NodeCache.data c !! key); simpl; lia.
  - rewrite map_size_delete. unfold NodeCache.maxKeys in *.
    destruct (NodeCache.data c !! key); simpl; lia.
  - etransitivity; [ apply del_all_size | exact Hc ].
  - rewrite map_size_empty. unfold NodeCache.maxKeys. lia.
  - etransitivity; [ | exact Hc ].
    apply map_subseteq_size, map_filter_subseteq.
Qed.

Lemma cache_fold_bounded (ops : list cache_op) :
  forall c, size (NodeCache.data c) <= NodeCache.maxKeys ->
            size (NodeCache.data (fold_left cache_step ops c))
            <= NodeCache.maxKeys.
Proof.
  induction ops as [ | op ops IH ]; intros c Hc; simpl; [ exact Hc | ].
  apply IH. now apply cache_step_bounded.
Qed.

(** A non-empty value stored with a positive [ttl] in a cache that is not
    full is returned up to its expiry. *)
Lemma setInCache_hit (now now' : Z) (key value : string) (ttl : Z)
    (c : NodeCache.cache) :
  size (NodeCache.data c) < NodeCache.maxKeys ->
  value <> "" ->
  (0 < ttl)%Z ->
  (now' <= now + ttl * 1000)%Z ->
  (getFromCache now' key (setInCache now key value ttl c).2).1 = Some value.
Proof.
  intros Hsize Hval Httl Hnow.
  unfold setInCache, NodeCache.set.
  destruct (Nat.leb NodeCache.maxKeys (size (NodeCache.data c))) eqn:Hfull.
  { apply Nat.leb_le in Hfull. lia. }
  unfold getFromCache, NodeCache.get. cbn [fst snd NodeCache.data].
  rewrite lookup_insert_eq.
  unfold NodeCache.expired. cbn [NodeCache.t NodeCache.v].
  replace (ttl =? 0)%Z with false by (symmetry; apply Z.eqb_neq; lia).
  replace (now + ttl * 1000 <? now')%Z with false
    by (symmetry; apply Z.ltb_ge; lia).
  rewrite andb_false_r.
  destruct (String.eqb_spec value "") as [ | _ ]; [ contradiction | ].
  reflexivity.
Qed.

(** C9, as the code has it.  After any sequence of cache operations from
    the empty cache the statistics report at most the capacity (1000) in
    stored entries.  An insertion into a cache that holds the capacity is
    refused: [setInCache] returns [false], nothing is evicted and the cache
    is unchanged; below the capacity the insertion succeeds and stores the
    entry, and a non-empty value stored with a positive [ttl] reads back:
    [getFromCache] returns it at every instant up to [ttl] seconds after
    the insertion. *)
Theorem cache_full_refuses_insertion (ops : list cache_op) :
  NodeCache.stat_keys (getCacheStats (cache_run ops)) <= NodeCache.maxKeys
  /\ (forall now key value ttl,
        NodeCache.stat_keys (getCacheStats (cache_run ops)) = NodeCache.maxKeys ->
        setInCache now key value ttl (cache_run ops) = (false, cache_run ops))
  /\ (forall now key value ttl,
        NodeCache.stat_keys (getCacheStats (cache_run ops)) < NodeCache.maxKeys ->
        fst (setInCache now key value ttl (cache_run ops)) = true
        /\ (exists e,
              NodeCache.data (snd (setInCache now key value ttl (cache_run ops)))
                !! key = Some e
              /\ NodeCache.v e = value)
        /\ (value <> "" -> (0 < ttl)%Z ->
            forall now', (now' <= now + ttl * 1000)%Z ->
              fst (getFromCache now' key
                     (snd (setInCache now key value ttl (cache_run ops))))
              = Some value)).
Proof.
  unfold getCacheStats, NodeCache.getStats. simpl. split; [ | split ].
  - apply cache_fold_bounded. simpl. rewrite map_size_empty.
    unfold NodeCache.maxKeys. lia.
  - intros now key value ttl Hfull. unfold setInCache, NodeCache.set.
    rewrite Hfull, Nat.leb_refl. reflexivity.
  - intros now key value ttl Hroom. split; [ | split ].
    + unfold setInCache, NodeCache.set.
      apply Nat.leb_gt in Hroom. now rewrite Hroom.
    + unfold setInCache, NodeCache.set.
      apply Nat.leb_gt in Hroom. rewrite Hroom. simpl.
      eexists. rewrite lookup_insert_eq. split; reflexivity.
    + intros Hval Httl now' Hnow.
      now apply setInCache_hit.
Qed.

(** C9, as stated, fails on the code: the insertion that follows 1000
    insertions under distinct keys is refused and evicts nothing. *)
Lemma insertion_beyond_capacity_refused :
  NodeCache.stat_keys (getCacheStats (cache_run (fill_ops 1000))) = 1000
  /\ fst (setInCache 0 "one-more" "out" 3600 (cache_run (fill_ops 1000)))
     = false
  /\ NodeCache.data
       (snd (setInCache 0 "one-more" "out" 3600 (cache_run (fill_ops 1000))))
       !! "one-more" = None
  /\ NodeCache.stat_keys
       (getCacheStats
          (snd (setInCache 0 "one-more" "out" 3600 (cache_run (fill_ops 1000)))))
     = 1000.
Proof.
  split; [ vm_compute; reflexivity | ].
  split; [ vm_compute; reflexivity | ].
  split; vm_compute; reflexivity.
Qed.

(** ** The two pipelines *)

Lemma or_else_falsy (a : jsval) (d : json) : truthy a = false -> or_else a d = d.
Proof. destruct a as [x | ]; simpl; [ now intros -> | reflexivity ]. Qed.

Lemma or_else_truthy (x d : json) : truthy_json x = true -> or_else (Some x) d = x.
Proof. simpl. now intros ->. Qed.

Lemma resize_stage_common (resize : jsval) :
  negb (truthy resize)
  || (truthy (get resize "width") && truthy (get resize "height")
      && negb (truthy (get resize "withoutEnlargement"))) = true ->
  map drop_defaults (worker_resize resize) = sync_resize resize.
Proof.
  unfold worker_resize, sync_resize. destruct (truthy resize); simpl;
    [ | reflexivity ].
  intros H. apply andb_true_iff in H as [H Hwoe].
  apply andb_true_iff in H as [Hw Hh]. apply negb_true_iff in Hwoe.
  rewrite Hw, Hh, (or_else_falsy _ _ Hwoe). reflexivity.
Qed.

Lemma crop_stage_defaults (crop : jsval) :
  map drop_defaults (crop_stage crop) = crop_stage crop.
Proof. unfold crop_stage. now destruct (truthy crop). Qed.

Lemma flip_stage_defaults (flip : jsval) :
  map drop_defaults (flip_stage flip) = flip_stage flip.
Proof. unfold flip_stage. now destruct (truthy flip). Qed.

Lemma flop_stage_defaults (flop : jsval) :
  map drop_defaults (flop_stage flop) = flop_stage flop.
Proof. unfold flop_stage. now destruct (truthy flop). Qed.

Lemma rotate_stage_common (rotate : jsval) :
  match rotate with None | Some JNull => true | Some _ => false end = true ->
  worker_rotate rotate = [] /\ sync_rotate rotate = [].
Proof. destruct rotate as [[ | | | | | ] | ]; simpl; intros H; now try discriminate H. Qed.

Lemma filters_stage_common (filters : jsval) :
  negb (truthy filters)
  || (negb (truthy (get filters "sepia"))
      && negb (truthy (get filters "normalize"))
      && negb (truthy (get filters "gamma"))
      && negb (truthy (get filters "brightness"))
      && negb (truthy (get filters "saturation"))
      && negb (truthy (get filters "hue"))
      && match get filters "blur" with
         | Some (JNum _) | None => true
         | Some x => negb (truthy_json x)
         end) = true ->
  map drop_defaults (worker_filters filters) = sync_filters filters.
Proof.
  unfold worker_filters, sync_filters. destruct (truthy filters);
    [ | reflexivity ].
  rewrite orb_false_l.
  generalize (get filters "grayscale") (get filters "sepia")
    (get filters "blur") (get filters "sharpen") (get filters "negate")
    (get filters "normalize") (get filters "gamma")
    (get filters "brightness") (get filters "saturation")
    (get filters "hue").
  intros gr se bl sh ne no ga br sa hu H.
  repeat (apply andb_true_iff in H as [H ?]).
  repeat match goal with
         | Hn : negb _ = true |- _ => apply negb_true_iff in Hn; rewrite Hn
         end.
  destruct (truthy gr), (truthy sh), (truthy ne);
    destruct bl as [[ | bb | [z | lit] | s | l | o ] | ];
    cbn [truthy truthy_json negb when app map drop_defaults] in *;
    try discriminate;
    repeat match goal with
           | Hb : negb ?c = true |- _ => apply negb_true_iff in Hb; rewrite Hb
           end;
    try reflexivity;
    destruct (negb (z =? 0)%Z); reflexivity.
Qed.

Lemma watermark_stage_common (watermark : jsval) :
  negb (truthy watermark && truthy (get watermark "text")) = true ->
  worker_watermark watermark = [].
Proof.
  unfold worker_watermark. intros H. apply negb_true_iff in H.
  destruct watermark; [ now rewrite H | reflexivity ].
Qed.

Lemma encode_stage_common (f : string) (quality compress : jsval) :
  String.eqb f "png" || String.eqb f "webp" = true ->
  truthy compress = false ->
  drop_defaults (worker_encode f quality compress) = sync_encode f quality.
Proof.
  intros Hf Hc. unfold worker_encode, sync_encode. rewrite Hc.
  apply orb_true_iff in Hf as [Hf | Hf]; apply String.eqb_eq in Hf; subst f;
    reflexivity.
Qed.

Lemma apply_call_drop_defaults (geo : Geometry) (d : dims) (c : sharp_call) :
  apply_call geo d (drop_defaults c) = apply_call geo d c.
Proof.
  destruct c as [ w h f p woe | | | | | | | | | | | | | | | q level | | | | | ];
    try reflexivity.
  - destruct woe as [[ | [ | ] | | | | ] | ]; reflexivity.
  - destruct level as [[ | [[ | | ] | [[ | | ] | [ | | ] | ] | ] | ] | ];
      reflexivity.
Qed.

Lemma apply_calls_drop_defaults (geo : Geometry) (cs : list sharp_call) :
  forall d, apply_calls geo d (map drop_defaults cs) = apply_calls geo d cs.
Proof.
  induction cs as [ | c cs IH ]; intros d; simpl; [ reflexivity | ].
  rewrite apply_call_drop_defaults.
  destruct (apply_call geo d c); simpl; [ apply IH | reflexivity ].
Qed.

(** Where the two pipelines do agree.  On the specs of [common_spec] (no
    rotation, a resize that names both sides and does not forbid
    enlargement, of the filters only grayscale, numeric blur, sharpen and
    negate, no watermark text, no [compress], output format [png] or
    [webp]) the synchronous pipeline and the worker pipeline issue the same
    calls in the same order, up to options the worker passes at their
    default value, choose the same output format and file name, and produce
    the same image size or the same failure. *)
Theorem pipelines_agree_on_common_specs (uuid sourcePath filename : string)
    (transformations : list (string * json)) :
  common_spec transformations = true ->
  exists pw ps,
    applyTransformations_plan uuid sourcePath transformations = Ok pw
    /\ transformImageSync_plan uuid filename transformations = Ok ps
    /\ map drop_defaults (calls pw) = calls ps
    /\ outputFormat pw = outputFormat ps
    /\ outputFilename pw = outputFilename ps
    /\ forall geo source,
         sharp_toFile geo source (calls pw) = sharp_toFile geo source (calls ps).
Proof.
  unfold common_spec. intros H. repeat (apply andb_true_iff in H as [H ?]).
  destruct (field transformations "format") as [[ | | | f | | ] | ] eqn:Hfmt;
    try discriminate.
  assert (Hf : truthy_json (JStr f) = true).
  { match goal with
    | Hx : (_ || _) = true |- _ =>
        apply orb_true_iff in Hx as [Hx | Hx]; apply String.eqb_eq in Hx;
        subst f; reflexivity
    end. }
  match goal with Hc : negb (truthy (field _ "compress")) = true |- _ =>
    apply negb_true_iff in Hc; rename Hc into Hcompress end.
  destruct (rotate_stage_common _ H) as [Hwr Hsr].
  unfold applyTransformations_plan, transformImageSync_plan.
  rewrite Hfmt, !(or_else_truthy _ _ Hf), Hwr, Hsr.
  rewrite watermark_stage_common by assumption.
  do 2 eexists. split; [ reflexivity | ]. split; [ reflexivity | ].
  assert (Hcalls :
    map drop_defaults
      ((worker_resize (field transformations "resize")
        ++ crop_stage (field transformations "crop") ++ []
        ++ flip_stage (field transformations "flip")
        ++ flop_stage (field transformations "flop")
        ++ worker_filters (field transformations "filters") ++ [])
       ++ [worker_encode f (field transformations "quality")
                         (field transformations "compress")])
    = ((sync_resize (field transformations "resize")
        ++ crop_stage (field transformations "crop") ++ []
        ++ flip_stage (field transformations "flip")
        ++ flop_stage (field transformations "flop")
        ++ sync_filters (field transformations "filters"))
       ++ [sync_encode f (field transformations "quality")])%list).
  { rewrite !map_app. simpl map.
    rewrite resize_stage_common, crop_stage_defaults, flip_stage_defaults,
      flop_stage_defaults, filters_stage_common, encode_stage_common
      by assumption.
    now rewrite app_nil_r. }
  cbn [calls outputFormat outputFilename].
  split; [ exact Hcalls | split; [ reflexivity | split; [ reflexivity | ] ] ].
  intros geo source. unfold sharp_toFile.
  destruct source as [[d | ] | ]; try reflexivity.
  now rewrite <- Hcalls, apply_calls_drop_defaults.
Qed.

Lemma pipelines_agree_on_common_specs_witness :
  common_spec common_example_spec = true
  /\ exists pw ps,
       applyTransformations_plan "U" "uploads/photo.jpg" common_example_spec = Ok pw
       /\ transformImageSync_plan "U" "photo.jpg" common_example_spec = Ok ps
       /\ map drop_defaults (calls pw) = calls ps
       /\ outputFormat pw = outputFormat ps
       /\ outputFilename pw = outputFilename ps
       /\ forall geo source,
            sharp_toFile geo source (calls pw) = sharp_toFile geo source (calls ps).
Proof.
  split; [ reflexivity | ].
  apply pipelines_agree_on_common_specs. reflexivity.
Defined.

(** C10.  The claim that both paths compute the same transformation is
    evaluated on the code at two specs.  For [{compress: true}] on a JPEG
    source the worker encodes at quality 60, the synchronous path at
    quality 80: it never reads [compress].  For a watermark text the worker
    composes the badge, the synchronous path issues no watermark call.  The
    call lists differ also after dropping defaulted options. *)
Theorem sync_path_diverges_from_worker :
  (applyTransformations_plan "U" "uploads/photo.jpg" compress_spec
   = Ok {| calls := [Jpeg (jint 60) (Some true)];
           outputFormat := "jpg"; outputFilename := "U.jpg" |}
   /\ transformImageSync_plan "U" "photo.jpg" compress_spec
      = Ok {| calls := [Jpeg (jint 80) None];
              outputFormat := "jpg"; outputFilename := "U.jpg" |}
   /\ map drop_defaults [Jpeg (jint 60) (Some true)] <> [Jpeg (jint 80) None])
  /\ (applyTransformations_plan "U" "uploads/photo.jpg" watermark_spec
      = Ok {| calls := [Composite (JObj [("text", JStr "demo")])
                                  (JStr "southeast");
                        Png (jint 80) (Some 6%Z)];
              outputFormat := "png"; outputFilename := "U.png" |}
      /\ transformImageSync_plan "U" "photo.jpg" watermark_spec
         = Ok {| calls := [Png (jint 80) None];
                 outputFormat := "png"; outputFilename := "U.png" |}).
Proof.
  split; [ split; [ | split ] | split ]; try (vm_compute; reflexivity).
  simpl. intros H. discriminate H.
Qed.

(** ** The synchronous endpoint and the processing flag *)

Lemma Image_findOne_clear_flag (imgs : gmap string Image.t)
    (id userId : string) (image : Image.t) :
  Image_findOne imgs id userId = Some image ->
  Image_findOne (alter clear_flag id imgs) id userId = Some (clear_flag image).
Proof.
  unfold Image_findOne. rewrite lookup_alter_eq.
  destruct (imgs !! id) as [i | ]; simpl; [ | discriminate ].
  destruct (Image.userId i =? userId)%string; [ | discriminate ].
  now intros [= ->].
Qed.

(** The answer after a cache miss reads the row's file name and path and
    the disk, nothing else. *)
Lemma transformImageSync_process_answer (env : Env) (now : Z) (uuid : string)
    (req : request) (image image' : Image.t) (cacheKey : string)
    (w w' : World) :
  Image.filename image' = Image.filename image ->
  Image.path image' = Image.path image ->
  disk w' = disk w ->
  fst (transformImageSync_process env now uuid req image' cacheKey w')
  = fst (transformImageSync_process env now uuid req image cacheKey w).
Proof.
  intros Hname Hpath Hdisk. unfold transformImageSync_process.
  rewrite Hname, Hpath, Hdisk.
  destruct (transformImageSync_plan uuid (Image.filename image)
              (req_transformations req)) as [p | m]; [ | reflexivity ].
  destruct (sharp_toFile (geometry env) (disk w !! Image.path image) (calls p));
    reflexivity.
Qed.

Lemma transformImageSync_process_queue (env : Env) (now : Z) (uuid : string)
    (req : request) (image : Image.t) (cacheKey : string) (w : World) :
  queue (snd (transformImageSync_process env now uuid req image cacheKey w))
  = queue w.
Proof.
  unfold transformImageSync_process.
  destruct (transformImageSync_plan uuid (Image.filename image)
              (req_transformations req)) as [p | m]; [ | reflexivity ].
  destruct (sharp_toFile (geometry env) (disk w !! Image.path image) (calls p));
    reflexivity.
Qed.

(** What the flag gates.  For every image with [isProcessing = true], a
    request on the asynchronous endpoint is rejected with status 409 and
    queues nothing.  The synchronous endpoint does not read the flag: it
    answers as it would with the flag cleared (running the transformation
    when nothing is cached), and it never queues a job. *)
Theorem in_flight_gate_is_asynchronous_only (env : Env) (now : Z)
    (uuid : string) (req : request) (w : World) (image : Image.t) :
  Image_findOne (images w) (req_id req) (req_userId req) = Some image ->
  Image.isProcessing image = true ->
  transformImage now uuid req w
  = (ApiError 409 "Image is currently being processed. Please wait.", w)
  /\ fst (transformImageSync env now uuid req w)
     = fst (transformImageSync env now uuid req
              (Image_update (req_id req) clear_flag w))
  /\ queue (snd (transformImageSync env now uuid req w)) = queue w.
Proof.
  intros Hfind Hflag. split; [ | split ].
  - unfold transformImage. now rewrite Hfind, Hflag.
  - unfold transformImageSync. cbn [Image_update set_images images disk apiCache].
    rewrite (Image_findOne_clear_flag _ _ _ _ Hfind), Hfind.
    change (Image.path (clear_flag image)) with (Image.path image).
    destruct (existsSync (disk w) (Image.path image)); [ | reflexivity ].
    cbn [negb].
    destruct (getFromCache now
                (generateCacheKey (req_id req) (req_transformations req))
                (apiCache w)) as [[p | ] c1].
    + destruct (existsSync (disk w) p); [ reflexivity | ].
      symmetry. now apply transformImageSync_process_answer.
    + symmetry. now apply transformImageSync_process_answer.
  - unfold transformImageSync. rewrite Hfind.
    destruct (existsSync (disk w) (Image.path image)); [ | reflexivity ].
    cbn [negb].
    destruct (getFromCache now
                (generateCacheKey (req_id req) (req_transformations req))
                (apiCache w)) as [[p | ] c1].
    + destruct (existsSync (disk w) p); [ reflexivity | ].
      now rewrite transformImageSync_process_queue.
    + now rewrite transformImageSync_process_queue.
Qed.

Lemma in_flight_gate_is_asynchronous_only_witness :
  Image_findOne (images busy_world) "img1" "u1" = Some busy_image
  /\ Image.isProcessing busy_image = true
  /\ transformImage 9 "J2" (req0 resize_then_crop_spec) busy_world
     = (ApiError 409 "Image is currently being processed. Please wait.",
        busy_world)
  /\ fst (transformImageSync env0 9 "U" (req0 resize_then_crop_spec) busy_world)
     = fst (transformImageSync env0 9 "U" (req0 resize_then_crop_spec)
              (Image_update "img1" clear_flag busy_world))
  /\ queue (snd (transformImageSync env0 9 "U" (req0 resize_then_crop_spec)
                   busy_world)) = queue busy_world.
Proof.
  assert (H : Image_findOne (images busy_world) "img1" "u1" = Some busy_image)
    by (vm_compute; reflexivity).
  split; [ exact H | ]. split; [ reflexivity | ].
  exact (in_flight_gate_is_asynchronous_only env0 9 "U"
           (req0 resize_then_crop_spec) busy_world busy_image H eq_refl).
Defined.

(** C6.  The claim that both endpoints reject a request while the flag is
    set is evaluated on the code at an image whose flag is set: the
    asynchronous endpoint answers 409 and leaves the world unchanged, the
    synchronous endpoint runs the transformation and writes its 250 x 200
    output. *)
Theorem sync_runs_while_processing :
  Image_findOne (images busy_world) "img1" "u1" = Some busy_image
  /\ Image.isProcessing busy_image = true
  /\ transformImage 9 "J2" (req0 resize_then_crop_spec) busy_world
     = (ApiError 409 "Image is currently being processed. Please wait.",
        busy_world)
  /\ fst (transformImageSync env0 9 "U" (req0 resize_then_crop_spec) busy_world)
     = SendFile "processed/U.jpg" (Some "image/jpeg")
  /\ disk (snd (transformImageSync env0 9 "U" (req0 resize_then_crop_spec)
                  busy_world)) !! "processed/U.jpg"
     = Some (ImageFile {| img_width := 250; img_height := 200 |}).
Proof. repeat split; vm_compute; reflexivity. Qed.

(* ===================================================================== *)
(** * Further properties of the code *)
(* ===================================================================== *)

(** ** Strings *)

Lemma string_app_assoc (a b c : string) : (a +:+ b) +:+ c = a +:+ (b +:+ c).
Proof.
  induction a as [ | x a IH ]; [ reflexivity | ].
  change (String x ((a +:+ b) +:+ c) = String x (a +:+ (b +:+ c))).
  now f_equal.
Qed.

Lemma string_app_nil_r (a : string) : a +:+ "" = a.
Proof.
  induction a as [ | x a IH ]; [ reflexivity | ].
  change (String x (a +:+ "") = String x a). now f_equal.
Qed.

Lemma has_char_app (p : ascii -> bool) (a b : string) :
  has_char p (a +:+ b) = has_char p a || has_char p b.
Proof.
  unfold has_char. induction a as [ | x a IH ]; simpl; [ reflexivity | ].
  now rewrite IH, orb_assoc.
Qed.

(** ** [escapeXml] *)

Lemma replace_all_app (c : ascii) (r a b : string) :
  replace_all c r (a +:+ b) = replace_all c r a +:+ replace_all c r b.
Proof.
  induction a as [ | x a IH ]; simpl; [ reflexivity | ].
  destruct (Ascii.eqb x c); rewrite IH; [ | reflexivity ].
  now rewrite string_app_assoc.
Qed.

(** The later replacements never touch what the earlier ones wrote:
    escaping goes character by character. *)
Lemma escapeXml_app (a b : string) :
  escapeXml (a +:+ b) = escapeXml a +:+ escapeXml b.
Proof. unfold escapeXml. now rewrite !replace_all_app. Qed.

Lemma escapeXml_cons (c : ascii) (rest : string) :
  escapeXml (String c rest) = escapeXml (String c "") +:+ escapeXml rest.
Proof. now rewrite <- escapeXml_app. Qed.

Lemma escapeXml_char (c : ascii) :
  (c = "&"%char /\ escapeXml (String c "") = "&amp;")
  \/ (c = "<"%char /\ escapeXml (String c "") = "&lt;")
  \/ (c = ">"%char /\ escapeXml (String c "") = "&gt;")
  \/ (c = ascii_of_nat 34 /\ escapeXml (String c "") = "&quot;")
  \/ (c = "'"%char /\ escapeXml (String c "") = "&apos;")
  \/ (xml_special c = false /\ escapeXml (String c "") = String c "").
Proof.
  destruct c as [b0 b1 b2 b3 b4 b5 b6 b7].
  destruct b0, b1, b2, b3, b4, b5, b6, b7;
    solve [ repeat (first [ (left; split; reflexivity) | right ]);
            try (split; reflexivity) ].
Qed.

(** X1. The output of [escapeXml] holds none of the characters [<], [>],
    double quote and single quote, whatever the text. *)
Theorem escapeXml_no_markup (text : string) :
  has_char (fun c => existsb (Ascii.eqb c)
                       ["<"; ">"; ascii_of_nat 34; "'"]%char)
           (escapeXml text) = false.
Proof.
  induction text as [ | c text IH ]; [ reflexivity | ].
  rewrite escapeXml_cons, has_char_app, IH, orb_false_r.
  destruct (escapeXml_char c)
    as [[_ ->] | [[_ ->] | [[_ ->] | [[_ ->] | [[_ ->] | [Hc ->]]]]]];
    try reflexivity.
  unfold has_char, xml_special in *. simpl in *.
  rewrite orb_false_r.
  destruct (Ascii.eqb c "&"); [ discriminate Hc | ]. exact Hc.
Qed.

Lemma escapeXml_char_step (c1 c2 : ascii) (x y : string) :
  escapeXml (String c1 "") +:+ x = escapeXml (String c2 "") +:+ y ->
  c1 = c2 /\ x = y.
Proof.
  destruct (escapeXml_char c1)
    as [[E1 ->] | [[E1 ->] | [[E1 ->] | [[E1 ->] | [[E1 ->] | [E1 ->]]]]]];
    destruct (escapeXml_char c2)
      as [[E2 ->] | [[E2 ->] | [[E2 ->] | [[E2 ->] | [[E2 ->] | [E2 ->]]]]]];
    intros H; cbv [String.append] in H; subst; try discriminate H;
    try (injection H as H; subst; split; reflexivity);
    try (injection H as Hc _; subst; discriminate E1);
    try (injection H as Hc _; subst; discriminate E2).
Qed.

(** X2. [escapeXml] loses nothing: two texts with the same escaped form
    are the same text. *)
Theorem escapeXml_injective (s1 s2 : string) :
  escapeXml s1 = escapeXml s2 -> s1 = s2.
Proof.
  revert s2. induction s1 as [ | c1 s1 IH ]; intros [ | c2 s2 ] H.
  - reflexivity.
  - exfalso. rewrite escapeXml_cons in H.
    destruct (escapeXml_char c2)
      as [[_ E] | [[_ E] | [[_ E] | [[_ E] | [[_ E] | [_ E]]]]]];
      rewrite E in H; discriminate H.
  - exfalso. rewrite escapeXml_cons in H.
    destruct (escapeXml_char c1)
      as [[_ E] | [[_ E] | [[_ E] | [[_ E] | [[_ E] | [_ E]]]]]];
      rewrite E in H; discriminate H.
  - rewrite (escapeXml_cons c1), (escapeXml_cons c2) in H.
    apply escapeXml_char_step in H as [-> H]. now rewrite (IH s2 H).
Qed.

Lemma escapeXml_injective_witness :
  escapeXml "Tom & Jerry" = escapeXml "Tom & Jerry"
  /\ "Tom & Jerry" = "Tom & Jerry".
Proof.
  split; [ reflexivity | ].
  apply (escapeXml_injective "Tom & Jerry" "Tom & Jerry"). reflexivity.
Defined.

(** X3. A text without any of the five special characters is left as it
    is. *)
Theorem escapeXml_plain_text (text : string) :
  has_char xml_special text = false -> escapeXml text = text.
Proof.
  induction text as [ | c text IH ]; [ reflexivity | ].
  unfold has_char. simpl. intros H. apply orb_false_iff in H as [Hc Hrest].
  rewrite escapeXml_cons, (IH Hrest).
  destruct (escapeXml_char c)
    as [[-> _] | [[-> _] | [[-> _] | [[-> _] | [[-> _] | [_ ->]]]]]];
    try discriminate Hc.
  reflexivity.
Qed.

Lemma escapeXml_plain_text_witness :
  has_char xml_special "Photo 2024" = false
  /\ escapeXml "Photo 2024" = "Photo 2024".
Proof.
  split; [ reflexivity | ]. apply escapeXml_plain_text. reflexivity.
Defined.

(** ** Cache keys of different images *)

Lemma string_get_In (s : string) :
  forall n c, String.get n s = Some c -> In c (list_ascii_of_string s).
Proof.
  induction s as [ | x s IH ]; intros [ | n ] c H; simpl in *;
    try discriminate H.
  - injection H as ->. now left.
  - right. now apply (IH n).
Qed.

Lemma base64_digit_no_underscore (n : N) :
  has_char is_underscore (base64_digit n) = false.
Proof.
  unfold base64_digit.
  destruct (String.get (N.to_nat n) base64_alphabet) as [c | ] eqn:E;
    [ | reflexivity ].
  apply string_get_In in E.
  assert (Hall : forallb (fun x => negb (is_underscore x))
                   (list_ascii_of_string base64_alphabet) = true)
    by (vm_compute; reflexivity).
  rewrite forallb_forall in Hall. specialize (Hall c E).
  unfold has_char. simpl. apply negb_true_iff in Hall. now rewrite Hall.
Qed.

Lemma toString_base64_no_underscore_upto (n : nat) :
  forall bs, length bs <= n ->
             has_char is_underscore (toString_base64 bs) = false.
Proof.
  induction n as [ | n IH ]; intros bs Hlen.
  - destruct bs; [ reflexivity | simpl in Hlen; lia ].
  - destruct bs as [ | a [ | b [ | c rest ] ] ]; [ reflexivity | | | ];
      cbn [toString_base64];
      rewrite ?has_char_app, ?base64_digit_no_underscore; try reflexivity.
    simpl. apply IH. simpl in Hlen. lia.
Qed.

Lemma toString_base64_no_underscore (bs : list N) :
  has_char is_underscore (toString_base64 bs) = false.
Proof. now apply (toString_base64_no_underscore_upto (length bs)). Qed.

(** A text is cut in one way only at its last underscore. *)
Lemma split_at_last_underscore (i1 : string) :
  forall i2 b1 b2,
    has_char is_underscore b1 = false ->
    has_char is_underscore b2 = false ->
    i1 +:+ "_" +:+ b1 = i2 +:+ "_" +:+ b2 ->
    i1 = i2 /\ b1 = b2.
Proof.
  induction i1 as [ | x i1 IH ]; intros [ | y i2 ] b1 b2 H1 H2 H;
    cbv [String.append] in H; fold String.append in H.
  - injection H as ->. split; reflexivity.
  - exfalso. injection H as <- ->.
    rewrite has_char_app in H1. apply orb_false_iff in H1 as [_ H1].
    unfold has_char in H1. simpl in H1. discriminate H1.
  - exfalso. injection H as -> <-.
    rewrite has_char_app in H2. apply orb_false_iff in H2 as [_ H2].
    unfold has_char in H2. simpl in H2. discriminate H2.
  - injection H as -> H. destruct (IH i2 b1 b2 H1 H2 H) as [-> ->].
    split; reflexivity.
Qed.

(** X4. Cache keys of different images never coincide, whatever the two
    specs: equal keys come from one image identifier. *)
Theorem generateCacheKey_separates_images (imageId1 imageId2 : string)
    (t1 t2 : list (string * json)) :
  generateCacheKey imageId1 t1 = generateCacheKey imageId2 t2 ->
  imageId1 = imageId2.
Proof.
  unfold generateCacheKey.
  generalize (toString_base64_no_underscore
                (Buffer_from (JSON_stringify (JObj t1)
                                (Array_sort (Object_keys t1))))).
  generalize (toString_base64_no_underscore
                (Buffer_from (JSON_stringify (JObj t2)
                                (Array_sort (Object_keys t2))))).
  generalize (toString_base64
                (Buffer_from (JSON_stringify (JObj t1)
                                (Array_sort (Object_keys t1))))).
  generalize (toString_base64
                (Buffer_from (JSON_stringify (JObj t2)
                                (Array_sort (Object_keys t2))))).
  intros b2 b1 H2 H1 H.
  change ("img_" +:+ imageId1 +:+ "_" +:+ b1)
    with ("img_" +:+ (imageId1 +:+ "_" +:+ b1)) in H.
  change ("img_" +:+ imageId2 +:+ "_" +:+ b2)
    with ("img_" +:+ (imageId2 +:+ "_" +:+ b2)) in H.
  cbv [String.append] in H; fold String.append in H.
  injection H as H.
  now destruct (split_at_last_underscore _ _ _ _ H1 H2 H).
Qed.

Lemma generateCacheKey_separates_images_witness :
  generateCacheKey "img1" resize100_spec = generateCacheKey "img1" resize200_spec
  /\ "img1" = "img1".
Proof.
  assert (H : generateCacheKey "img1" resize100_spec
              = generateCacheKey "img1" resize200_spec)
    by (vm_compute; reflexivity).
  split; [ exact H | ].
  exact (generateCacheKey_separates_images _ _ _ _ H).
Defined.

(** ** Clearing the cache of one image *)

Lemma del_all_lookup (ks : list string) (k : string) :
  forall c,
    NodeCache.data (fold_left (fun acc key => NodeCache.del key acc) ks c) !! k
    = if bool_decide (k ∈ ks) then None else NodeCache.data c !! k.
Proof.
  induction ks as [ | x ks IH ]; intros c; cbn [fold_left].
  - case_bool_decide as H; [ | reflexivity ].
    now apply elem_of_nil in H.
  - rewrite IH. cbn [NodeCache.del NodeCache.data].
    repeat case_bool_decide; try reflexivity.
    + exfalso. match goal with H : ~ _ |- _ => apply H end.
      now apply list_elem_of_further.
    + match goal with H : k ∈ x :: ks |- _ =>
        apply elem_of_cons in H as [-> | H] end; [ | contradiction ].
      apply lookup_delete_eq.
    + apply lookup_delete_ne. intros ->.
      match goal with H : ~ _ ∈ _ :: _ |- _ => apply H end.
      apply list_elem_of_here.
Qed.

Lemma keys_spec (c : NodeCache.cache) (k : string) :
  k ∈ NodeCache.keys c <-> is_Some (NodeCache.data c !! k).
Proof.
  unfold NodeCache.keys. rewrite list_elem_of_fmap. split.
  - intros [[k' e] [-> Hin]]. apply elem_of_map_to_list in Hin. now exists e.
  - intros [e He]. exists (k, e). split; [ reflexivity | ].
    now apply elem_of_map_to_list.
Qed.

Lemma clearImageCache_data (imageId : string) (c : NodeCache.cache)
    (k : string) :
  NodeCache.data (clearImageCache imageId c).2 !! k
  = if String.prefix ("img_" +:+ imageId +:+ "_") k then None
    else NodeCache.data c !! k.
Proof.
  unfold clearImageCache. cbn [snd]. rewrite del_all_lookup.
  destruct (String.prefix ("img_" +:+ imageId +:+ "_") k) eqn:Hp.
  - destruct (NodeCache.data c !! k) as [e | ] eqn:Hk.
    + rewrite bool_decide_eq_true_2; [ reflexivity | ].
      apply list_elem_of_In, filter_In. split; [ | exact Hp ].
      apply list_elem_of_In, keys_spec. now exists e.
    + now destruct (bool_decide _).
  - rewrite bool_decide_eq_false_2; [ reflexivity | ].
    intros Hin. apply list_elem_of_In, filter_In in Hin as [_ Hin].
    rewrite Hp in Hin. discriminate Hin.
Qed.

(** X5. [clearImageCache] deletes exactly the stored keys that start with
    the prefix of the image, and leaves every other key with its entry. *)
Theorem clearImageCache_lookup (imageId : string) (c : NodeCache.cache)
    (k : string) :
  NodeCache.data (clearImageCache imageId c).2 !! k
  = if String.prefix ("img_" +:+ imageId +:+ "_") k then None
    else NodeCache.data c !! k.
Proof. exact (clearImageCache_data imageId c k). Qed.

Lemma prefix_app (p : string) : forall x, String.prefix p (p +:+ x) = true.
Proof.
  induction p as [ | a p IH ]; intros x; simpl; [ now destruct x | ].
  destruct (ascii_dec a a) as [_ | Hne]; [ apply IH | contradiction ].
Qed.

Lemma prefix_cons (a b : ascii) (s1 s2 : string) :
  String.prefix (String a s1) (String b s2) = true ->
  a = b /\ String.prefix s1 s2 = true.
Proof.
  simpl. destruct (ascii_dec a b) as [-> | ]; [ now split | discriminate ].
Qed.

Lemma prefix_has_underscore (p : string) :
  forall b, String.prefix (p +:+ "_") b = true ->
            has_char is_underscore b = true.
Proof.
  induction p as [ | x p IH ]; intros [ | y b ] H;
    try (simpl in H; discriminate H).
  - apply prefix_cons in H as [<- _]. reflexivity.
  - change (String x p +:+ "_") with (String x (p +:+ "_")) in H.
    apply prefix_cons in H as [_ H].
    unfold has_char. simpl. fold (has_char is_underscore b).
    rewrite (IH b H). apply orb_true_r.
Qed.

Lemma prefix_until_underscore (p : string) :
  forall q b,
    has_char is_underscore q = false ->
    has_char is_underscore b = false ->
    String.prefix (p +:+ "_") (q +:+ "_" +:+ b) = true ->
    p = q.
Proof.
  induction p as [ | x p IH ]; intros [ | y q ] b Hq Hb H.
  - reflexivity.
  - exfalso. change ("" +:+ "_") with "_" in H.
    change (String y q +:+ "_" +:+ b) with (String y (q +:+ "_" +:+ b)) in H.
    apply prefix_cons in H as [<- _]. discriminate Hq.
  - exfalso. change (String x p +:+ "_") with (String x (p +:+ "_")) in H.
    change ("" +:+ "_" +:+ b) with (String "_" b) in H.
    apply prefix_cons in H as [_ H].
    apply prefix_has_underscore in H. rewrite H in Hb. discriminate Hb.
  - change (String x p +:+ "_") with (String x (p +:+ "_")) in H.
    change (String y q +:+ "_" +:+ b) with (String y (q +:+ "_" +:+ b)) in H.
    apply prefix_cons in H as [-> H]. f_equal.
    apply (IH q b); [ | exact Hb | exact H ].
    unfold has_char in *. simpl in Hq.
    now apply orb_false_iff in Hq as [_ Hq].
Qed.

Lemma generateCacheKey_prefix (imageId : string) (t : list (string * json)) :
  String.prefix ("img_" +:+ imageId +:+ "_") (generateCacheKey imageId t)
  = true.
Proof.
  unfold generateCacheKey.
  generalize (toString_base64
                (Buffer_from (JSON_stringify (JObj t)
                                (Array_sort (Object_keys t))))).
  intros b.
  replace ("img_" +:+ imageId +:+ "_" +:+ b)
    with (("img_" +:+ imageId +:+ "_") +:+ b).
  - apply prefix_app.
  - now rewrite !string_app_assoc.
Qed.

(** X6. After [clearImageCache] no spec of the image is answered from the
    cache: [getFromCache] misses on every key generated for it. *)
Theorem clearImageCache_forgets_image (imageId : string)
    (c : NodeCache.cache) (now : Z) (t : list (string * json)) :
  (getFromCache now (generateCacheKey imageId t)
     (clearImageCache imageId c).2).1 = None.
Proof.
  unfold getFromCache, NodeCache.get.
  rewrite clearImageCache_data, generateCacheKey_prefix. reflexivity.
Qed.

(** X7. [clearImageCache] keeps the entries of every other image whose
    identifier holds no underscore (UUIDs hold none). *)
Theorem clearImageCache_keeps_other_images (imageId other : string)
    (c : NodeCache.cache) (t : list (string * json)) :
  has_char is_underscore other = false ->
  imageId <> other ->
  NodeCache.data (clearImageCache imageId c).2 !! generateCacheKey other t
  = NodeCache.data c !! generateCacheKey other t.
Proof.
  intros Hother Hne. rewrite clearImageCache_data.
  destruct (String.prefix ("img_" +:+ imageId +:+ "_")
              (generateCacheKey other t)) eqn:Hp; [ | reflexivity ].
  exfalso. apply Hne. unfold generateCacheKey in Hp.
  change ("img_" +:+ imageId +:+ "_")
    with ("img_" +:+ (imageId +:+ "_")) in Hp.
  revert Hp.
  generalize (toString_base64_no_underscore
                (Buffer_from (JSON_stringify (JObj t)
                                (Array_sort (Object_keys t))))).
  generalize (toString_base64
                (Buffer_from (JSON_stringify (JObj t)
                                (Array_sort (Object_keys t))))).
  intros b Hb Hp.
  change ("img_" +:+ other +:+ "_" +:+ b)
    with ("img_" +:+ (other +:+ "_" +:+ b)) in Hp.
  do 4 (apply prefix_cons in Hp as [_ Hp]).
  exact (prefix_until_underscore _ _ _ Hother Hb Hp).
Qed.

Lemma clearImageCache_keeps_other_images_witness :
  NodeCache.data two_image_cache !! generateCacheKey "img1" resize100_spec
  = Some {| NodeCache.v := "processed/a.jpg"; NodeCache.t := 3600000 |}
  /\ NodeCache.data (clearImageCache "img1" two_image_cache).2
       !! generateCacheKey "img1" resize100_spec = None
  /\ NodeCache.data (clearImageCache "img1" two_image_cache).2
       !! generateCacheKey "img2" resize100_spec
     = Some {| NodeCache.v := "processed/b.jpg"; NodeCache.t := 3600000 |}.
Proof.
  split; [ vm_compute; reflexivity | ].
  split; [ vm_compute; reflexivity | ].
  rewrite (clearImageCache_keeps_other_images "img1" "img2" two_image_cache
             resize100_spec);
    [ vm_compute; reflexivity | reflexivity | discriminate ].
Defined.

(** ** Time to live of a cached value *)

(** X8. A non-empty value stored in a cache that is not full reads back
    at every instant up to its expiry ([ttl] seconds after the store). *)
Theorem setInCache_then_getFromCache (now now' : Z) (key value : string)
    (ttl : Z) (c : NodeCache.cache) :
  size (NodeCache.data c) < NodeCache.maxKeys ->
  value <> "" ->
  (0 < ttl)%Z ->
  (now' <= now + ttl * 1000)%Z ->
  (setInCache now key value ttl c).1 = true /\
  (getFromCache now' key (setInCache now key value ttl c).2).1 = Some value.
Proof.
  intros Hsize Hval Httl Hnow.
  unfold setInCache, NodeCache.set.
  destruct (Nat.leb NodeCache.maxKeys (size (NodeCache.data c))) eqn:Hfull.
  { apply Nat.leb_le in Hfull. lia. }
  split; [ reflexivity | ].
  unfold getFromCache, NodeCache.get. cbn [fst snd NodeCache.data].
  rewrite lookup_insert_eq.
  unfold NodeCache.expired. cbn [NodeCache.t NodeCache.v].
  replace (ttl =? 0)%Z with false by (symmetry; apply Z.eqb_neq; lia).
  replace (now + ttl * 1000 <? now')%Z with false
    by (symmetry; apply Z.ltb_ge; lia).
  rewrite andb_false_r.
  destruct (String.eqb_spec value "") as [ | _ ]; [ contradiction | ].
  reflexivity.
Qed.

Lemma setInCache_then_getFromCache_witness :
  (setInCache 0 "k" "processed/a.jpg" 3600 NodeCache.empty).1 = true /\
  (getFromCache 3600000 "k"
     (setInCache 0 "k" "processed/a.jpg" 3600 NodeCache.empty).2).1
  = Some "processed/a.jpg".
Proof.
  apply (setInCache_then_getFromCache 0 3600000 "k" "processed/a.jpg" 3600
           NodeCache.empty);
    [ vm_compute; lia | discriminate | lia | lia ].
Defined.

(** X9. Past its expiry the stored value is not returned any more, and
    the read that finds it expired deletes it from the store. *)
Theorem getFromCache_after_expiry (now now' : Z) (key value : string)
    (ttl : Z) (c : NodeCache.cache) :
  size (NodeCache.data c) < NodeCache.maxKeys ->
  (0 < ttl)%Z ->
  (0 <= now)%Z ->
  (now + ttl * 1000 < now')%Z ->
  (getFromCache now' key (setInCache now key value ttl c).2).1 = None /\
  NodeCache.data
    (getFromCache now' key (setInCache now key value ttl c).2).2 !! key
  = None.
Proof.
  intros Hsize Httl Hpos Hnow.
  unfold setInCache, NodeCache.set.
  destruct (Nat.leb NodeCache.maxKeys (size (NodeCache.data c))) eqn:Hfull.
  { apply Nat.leb_le in Hfull. lia. }
  unfold getFromCache, NodeCache.get. cbn [fst snd NodeCache.data].
  rewrite lookup_insert_eq.
  unfold NodeCache.expired. cbn [NodeCache.t NodeCache.v].
  replace (ttl =? 0)%Z with false by (symmetry; apply Z.eqb_neq; lia).
  replace (now + ttl * 1000 =? 0)%Z with false
    by (symmetry; apply Z.eqb_neq; lia).
  replace (now + ttl * 1000 <? now')%Z with true
    by (symmetry; apply Z.ltb_lt; lia).
  cbn [negb andb fst snd NodeCache.data].
  split; [ reflexivity | apply lookup_delete_eq ].
Qed.

Lemma getFromCache_after_expiry_witness :
  (getFromCache 3600001 "k"
     (setInCache 0 "k" "processed/a.jpg" 3600 NodeCache.empty).2).1 = None /\
  NodeCache.data
    (getFromCache 3600001 "k"
       (setInCache 0 "k" "processed/a.jpg" 3600 NodeCache.empty).2).2 !! "k"
  = None.
Proof.
  apply (getFromCache_after_expiry 0 3600001 "k" "processed/a.jpg" 3600
           NodeCache.empty);
    [ vm_compute; lia | lia | lia | lia ].
Defined.

(** ** The caches under a status write *)

Lemma log_status_apiCache (j i : string) (s : Status) (w : World) :
  apiCache (log_status j i s w) = apiCache w.
Proof. unfold log_status. now destruct (images w !! i). Qed.

Lemma log_status_workerCache (j i : string) (s : Status) (w : World) :
  workerCache (log_status j i s w) = workerCache w.
Proof. unfold log_status. now destruct (images w !! i). Qed.

Ltac frame_simpl :=
  repeat (progress world_simpl
          || rewrite log_status_apiCache || rewrite log_status_workerCache).

(** ** Requests for an image of another user *)

Lemma Image_findOne_foreign (imgs : gmap string Image.t) (id userId : string) :
  (forall image, imgs !! id = Some image -> Image.userId image <> userId) ->
  Image_findOne imgs id userId = None.
Proof.
  intros H. unfold Image_findOne.
  destruct (imgs !! id) as [image | ] eqn:E; [ | reflexivity ].
  destruct (String.eqb_spec (Image.userId image) userId) as [Heq | _];
    [ | reflexivity ].
  now destruct (H image eq_refl).
Qed.

(** X10. A request for an image that does not exist or belongs to another
    user is answered 404 "Image not found" by the two transform handlers,
    by [deleteImage] and by [getTransformationStatus], and changes nothing:
    no job is published, no file or cache entry is touched, the row stays. *)
Theorem foreign_image_is_not_found (env : Env) (now : Z) (uuid : string)
    (req : request) (w : World) :
  (forall image, images w !! req_id req = Some image ->
                 Image.userId image <> req_userId req) ->
  transformImage now uuid req w = (ApiError 404 "Image not found", w)
  /\ transformImageSync env now uuid req w = (ApiError 404 "Image not found", w)
  /\ deleteImage (req_id req) (req_userId req) w
     = (Thrown 404 "Image not found", w)
  /\ getTransformationStatus (req_id req) (req_userId req) w
     = Thrown 404 "Image not found".
Proof.
  intros H. apply Image_findOne_foreign in H.
  unfold transformImage, transformImageSync, deleteImage,
    getTransformationStatus.
  rewrite H. auto.
Qed.

Lemma foreign_image_is_not_found_witness :
  transformImage 9 "J2"
    {| req_id := "img1"; req_userId := "u2";
       req_transformations := resize100_spec |} world0
  = (ApiError 404 "Image not found", world0)
  /\ transformImageSync env0 9 "J2"
       {| req_id := "img1"; req_userId := "u2";
          req_transformations := resize100_spec |} world0
     = (ApiError 404 "Image not found", world0)
  /\ deleteImage "img1" "u2" world0 = (Thrown 404 "Image not found", world0)
  /\ getTransformationStatus "img1" "u2" world0
     = Thrown 404 "Image not found".
Proof.
  apply (foreign_image_is_not_found env0 9 "J2"
           {| req_id := "img1"; req_userId := "u2";
              req_transformations := resize100_spec |} world0).
  intros image H. vm_compute in H. injection H as <-. discriminate.
Defined.

(** ** An accepted asynchronous request *)

Lemma Image_findOne_own (imgs : gmap string Image.t) (id : string)
    (image : Image.t) :
  imgs !! id = Some image ->
  Image_findOne imgs id (Image.userId image) = Some image.
Proof.
  intros H. unfold Image_findOne. now rewrite H, String.eqb_refl.
Qed.

Lemma transformImage_accept_fields (now : Z) (uuid : string) (req : request)
    (w : World) (image : Image.t) :
  images w !! req_id req = Some image ->
  Image.id image = req_id req ->
  Image.userId image = req_userId req ->
  Image.isProcessing image = false ->
  existsSync (disk w) (Image.path image) = true ->
  let w' := (transformImage now uuid req w).2 in
  (transformImage now uuid req w).1
  = Accepted uuid (req_id req) (req_transformations req)
  /\ queue w'
     = (queue w
        ++ [{| Job.jobId := uuid; Job.imageId := req_id req;
               Job.userId := req_userId req;
               Job.sourcePath := Image.path image;
               Job.originalFilename := Image.filename image;
               Job.transformations := req_transformations req;
               Job.createdAt := now |}])%list
  /\ images w' = <[req_id req := with_processing true pending None image]>
                   (images w)
  /\ disk w' = disk w /\ apiCache w' = apiCache w
  /\ (forall now2 uuid2 t2,
        transformImage now2 uuid2
          {| req_id := req_id req; req_userId := req_userId req;
             req_transformations := t2 |} w'
        = (ApiError 409 "Image is currently being processed. Please wait.",
           w'))
  /\ getTransformationStatus (req_id req) (req_userId req) w'
     = Body 200 {| rep_imageId := req_id req; rep_isProcessing := true;
                   rep_status := pending; rep_error := None;
                   rep_lastTransformedAt := Image.lastTransformedAt image |}.
Proof.
  intros Hrow Hid Huser Hflag Hfile w'.
  assert (Hfind : Image_findOne (images w) (req_id req) (req_userId req)
                  = Some image)
    by (rewrite <- Huser; now apply Image_findOne_own).
  assert (Hw' : w' = publishToQueue
                       {| Job.jobId := uuid; Job.imageId := req_id req;
                          Job.userId := req_userId req;
                          Job.sourcePath := Image.path image;
                          Job.originalFilename := Image.filename image;
                          Job.transformations := req_transformations req;
                          Job.createdAt := now |}
                       (Image_update (req_id req)
                          (with_processing true pending None)
                          (log_status uuid (req_id req) pending w))).
  { subst w'. unfold transformImage.
    rewrite Hfind, Hflag, Hfile, Hid. reflexivity. }
  assert (Himgs : images w'
                  = <[req_id req := with_processing true pending None image]>
                      (images w)).
  { rewrite Hw'. unfold publishToQueue. world_simpl.
    apply map_eq. intros k. destruct (decide (k = req_id req)) as [-> | Hne].
    - now rewrite lookup_alter_eq, lookup_insert_eq, Hrow.
    - now rewrite lookup_alter_ne, lookup_insert_ne by congruence. }
  assert (Hfind' : Image_findOne (images w') (req_id req) (req_userId req)
                   = Some (with_processing true pending None image)).
  { rewrite <- Huser.
    apply (Image_findOne_own _ _ (with_processing true pending None image)).
    rewrite Himgs. apply lookup_insert_eq. }
  split; [ | split; [ | split; [ | split; [ | split; [ | split ] ] ] ] ].
  - unfold transformImage. rewrite Hfind, Hflag, Hfile, Hid. reflexivity.
  - rewrite Hw'. unfold publishToQueue. now world_simpl.
  - exact Himgs.
  - rewrite Hw'. unfold publishToQueue. now frame_simpl.
  - rewrite Hw'. unfold publishToQueue. now frame_simpl.
  - intros now2 uuid2 t2. unfold transformImage.
    cbn [req_id req_userId]. rewrite Hfind'. reflexivity.
  - unfold getTransformationStatus. rewrite Hfind'. cbn. now rewrite Hid.
Qed.

(** X11. An accepted [transformImage] request appends exactly one job
    message that carries the image, its source path and the requested
    spec, sets the row to [pending] with the flag raised, and touches
    neither the files nor the caches; until a worker settles the job every
    further [transformImage] request for the image is answered 409 and
    [getTransformationStatus] reports [pending]. *)
Theorem transformImage_accepted (now : Z) (uuid : string) (req : request)
    (w : World) (image : Image.t) :
  images w !! req_id req = Some image ->
  Image.id image = req_id req ->
  Image.userId image = req_userId req ->
  Image.isProcessing image = false ->
  existsSync (disk w) (Image.path image) = true ->
  let w' := (transformImage now uuid req w).2 in
  (transformImage now uuid req w).1
  = Accepted uuid (req_id req) (req_transformations req)
  /\ queue w'
     = (queue w
        ++ [{| Job.jobId := uuid; Job.imageId := req_id req;
               Job.userId := req_userId req;
               Job.sourcePath := Image.path image;
               Job.originalFilename := Image.filename image;
               Job.transformations := req_transformations req;
               Job.createdAt := now |}])%list
  /\ images w' = <[req_id req := with_processing true pending None image]>
                   (images w)
  /\ disk w' = disk w /\ apiCache w' = apiCache w
  /\ (forall now2 uuid2 t2,
        transformImage now2 uuid2
          {| req_id := req_id req; req_userId := req_userId req;
             req_transformations := t2 |} w'
        = (ApiError 409 "Image is currently being processed. Please wait.",
           w'))
  /\ getTransformationStatus (req_id req) (req_userId req) w'
     = Body 200 {| rep_imageId := req_id req; rep_isProcessing := true;
                   rep_status := pending; rep_error := None;
                   rep_lastTransformedAt := Image.lastTransformedAt image |}.
Proof.
  exact (transformImage_accept_fields now uuid req w image).
Qed.

Lemma transformImage_accepted_witness :
  (transformImage 5 "J1" (req0 resize_then_crop_spec) world0).1
  = Accepted "J1" "img1" resize_then_crop_spec
  /\ getTransformationStatus "img1" "u1"
       (transformImage 5 "J1" (req0 resize_then_crop_spec) world0).2
     = Body 200 {| rep_imageId := "img1"; rep_isProcessing := true;
                   rep_status := pending; rep_error := None;
                   rep_lastTransformedAt := None |}.
Proof.
  assert (Hrow : images world0 !! req_id (req0 resize_then_crop_spec)
                 = Some image0) by (vm_compute; reflexivity).
  assert (Hfile : existsSync (disk world0) (Image.path image0) = true)
    by (vm_compute; reflexivity).
  destruct (transformImage_accepted 5 "J1" (req0 resize_then_crop_spec)
              world0 image0 Hrow eq_refl eq_refl eq_refl Hfile)
    as (H1 & _ & _ & _ & _ & _ & H2).
  split; [ exact H1 | exact H2 ].
Defined.

Lemma applyTransformations_source_exists (env : Env) (uuid sourcePath : string)
    (t : list (string * json)) (d : gmap string file)
    (r : output * gmap string file) :
  applyTransformations env uuid sourcePath t d = Ok r ->
  existsSync d sourcePath = true.
Proof.
  unfold applyTransformations.
  destruct (existsSync d sourcePath); [ reflexivity | discriminate ].
Qed.

(** X12. From request to result: when the queue is empty and the worker's
    pipeline succeeds on the spec, an accepted [transformImage] request
    followed by one delivery leaves the queue empty, the output on disk,
    and the row [completed] with the flag lowered, no error, the job
    appended to the history and [lastTransformedAt] at the worker's clock. *)
Theorem accepted_job_completes (env : Env) (now now' : Z)
    (uuid uuid' : string) (req : request) (w : World) (image : Image.t)
    (res : output) (disk' : gmap string file) :
  images w !! req_id req = Some image ->
  Image.id image = req_id req ->
  Image.userId image = req_userId req ->
  Image.isProcessing image = false ->
  queue w = [] ->
  applyTransformations env uuid' (Image.path image) (req_transformations req)
                       (disk w) = Ok (res, disk') ->
  let w' := consume env now' uuid' (transformImage now uuid req w).2 in
  queue w' = []
  /\ disk w' = disk'
  /\ images w' !! req_id req
     = Some (with_history
               (Image.transformations image
                ++ [JobEntry uuid (req_transformations req) res now'])%list
               now' (with_processing false completed None image))
  /\ deliveries w' = (deliveries w ++ [uuid])%list.
Proof.
  intros Hrow Hid Huser Hflag Hq Happ w'.
  pose proof (applyTransformations_source_exists _ _ _ _ _ _ Happ) as Hfile.
  destruct (transformImage_accept_fields now uuid req w image Hrow Hid Huser Hflag
              Hfile) as (_ & Hq1 & Himgs1 & Hdisk1 & _).
  set (w1 := (transformImage now uuid req w).2) in *.
  rewrite Hq in Hq1. cbn [app] in Hq1.
  subst w'. unfold consume, onMessage, processJob. rewrite Hq1.
  cbn [Job.jobId Job.imageId Job.sourcePath Job.transformations].
  assert (Hrow1 : images (add_delivery uuid w1) !! req_id req
                  = Some (with_processing true pending None image)).
  { cbn [add_delivery images]. rewrite Himgs1. apply lookup_insert_eq. }
  set (job := {| Job.jobId := uuid; Job.imageId := req_id req;
                 Job.userId := req_userId req;
                 Job.sourcePath := Image.path image;
                 Job.originalFilename := Image.filename image;
                 Job.transformations := req_transformations req;
                 Job.createdAt := now |}) in *.
  pose proof (mark_processing_row job (add_delivery uuid w1) _ Hrow1) as Hmark.
  replace (disk (mark_processing job (add_delivery uuid w1))) with (disk w)
    by (world_simpl; now rewrite Hdisk1).
  rewrite Happ. unfold Image_findByPk. cbn [set_disk images].
  cbn [job Job.imageId] in Hmark. rewrite Hmark.
  cbn [set_queue set_workerCache set_disk Image_update set_images queue
       disk images deliveries].
  split; [ reflexivity | ]. split.
  { rewrite log_status_disk. reflexivity. }
  split.
  { rewrite log_status_images. cbn [set_disk images].
    rewrite lookup_alter_eq, Hmark. reflexivity. }
  rewrite log_status_deliveries. cbn [set_disk deliveries]. world_simpl.
  subst w1. unfold transformImage.
  rewrite <- Huser, (Image_findOne_own _ _ _ Hrow), Hflag, Hfile.
  cbn [negb snd]. unfold publishToQueue. now world_simpl.
Qed.

Lemma accepted_job_completes_witness :
  queue (consume env0 6 "U1"
           (transformImage 5 "J1" (req0 resize_then_crop_spec) world0).2) = []
  /\ deliveries (consume env0 6 "U1"
                   (transformImage 5 "J1" (req0 resize_then_crop_spec)
                                   world0).2) = ["J1"].
Proof.
  assert (Hrow : images world0 !! req_id (req0 resize_then_crop_spec)
                 = Some image0) by (vm_compute; reflexivity).
  assert (Hq : queue world0 = []) by reflexivity.
  assert (Happ : applyTransformations env0 "U1" (Image.path image0)
                   (req_transformations (req0 resize_then_crop_spec))
                   (disk world0)
                 = Ok ({| path := "processed/U1.jpg"; filename := "U1.jpg";
                          format := "jpg"; width := 250; height := 200 |},
                       <["processed/U1.jpg" :=
                           ImageFile {| img_width := 250; img_height := 200 |}]>
                         (disk world0)))
    by (vm_compute; reflexivity).
  destruct (accepted_job_completes env0 5 6 "J1" "U1"
              (req0 resize_then_crop_spec) world0 image0 _ _
              Hrow eq_refl eq_refl eq_refl Hq Happ) as (H1 & _ & _ & H2).
  split; [ exact H1 | exact H2 ].
Defined.



(** X14. A job that fails on every attempt blocks the queue: with one
    message delivered at a time and the failed message requeued at its
    place, no job behind it is ever delivered, however many deliveries
    follow. *)
Theorem failing_head_blocks_queue (env : Env) (msg : Job.t)
    (rest : list Job.t) (inputs : list (Z * string)) (w : World)
    (other : string) :
  queue w = msg :: rest ->
  (forall uuid, exists m,
      applyTransformations env uuid (Job.sourcePath msg)
                           (Job.transformations msg) (disk w) = Err m) ->
  other <> Job.jobId msg ->
  delivery_count other (run env inputs w) = delivery_count other w
  /\ queue (run env inputs w) = msg :: rest.
Proof.
  intros Hq Hfail Hne.
  destruct (run_failing env msg rest inputs w Hq Hfail) as (Hq' & _ & Hdel).
  split; [ | exact Hq' ].
  unfold delivery_count. rewrite Hdel, filter_app, length_app. clear Hdel.
  replace (filter (fun j => j = other)
             (repeat (Job.jobId msg) (length inputs))) with (@nil string).
  - simpl. lia.
  - induction (length inputs) as [ | n IH ]; [ reflexivity | ].
    simpl. rewrite filter_cons_False by congruence. exact IH.
Qed.

Lemma failing_head_blocks_queue_witness :
  delivery_count "J2"
    (run env0 [(6%Z, "U1"); (7%Z, "U2")]
       (publishToQueue
          {| Job.jobId := "J2"; Job.imageId := "img1"; Job.userId := "u1";
             Job.sourcePath := "uploads/photo.jpg";
             Job.originalFilename := "photo.jpg";
             Job.transformations := resize100_spec; Job.createdAt := 5 |}
          poison_world))
  = 0.
Proof.
  set (job2 := {| Job.jobId := "J2"; Job.imageId := "img1";
                  Job.userId := "u1"; Job.sourcePath := "uploads/photo.jpg";
                  Job.originalFilename := "photo.jpg";
                  Job.transformations := resize100_spec;
                  Job.createdAt := 5 |}).
  assert (Hq : queue (publishToQueue job2 poison_world) = [poison_job; job2])
    by (vm_compute; reflexivity).
  assert (Hne : "J2" <> Job.jobId poison_job) by discriminate.
  rewrite (proj1 (failing_head_blocks_queue env0 poison_job [job2]
                    [(6%Z, "U1"); (7%Z, "U2")]
                    (publishToQueue job2 poison_world) "J2" Hq
                    poison_job_always_fails Hne)).
  vm_compute. reflexivity.
Defined.

(** ** The synchronous path and its cache *)

Lemma getFromCache_size (now : Z) (key : string) (c : NodeCache.cache) :
  size (NodeCache.data (getFromCache now key c).2) <= size (NodeCache.data c).
Proof.
  unfold getFromCache, NodeCache.get.
  destruct (NodeCache.data c !! key) as [e | ] eqn:E; [ | reflexivity ].
  destruct (NodeCache.expired now e).
  - cbn [snd NodeCache.data]. rewrite map_size_delete, E. simpl. lia.
  - now destruct (negb (String.eqb (NodeCache.v e) "")).
Qed.

Lemma path_join_not_empty (dir name : string) : path_join dir name <> "".
Proof. unfold path_join. destruct dir; discriminate. Qed.

Lemma existsSync_insert (d : gmap string file) (p q : string) (f : file) :
  existsSync d q = true -> existsSync (<[p := f]> d) q = true.
Proof.
  unfold existsSync. destruct (decide (p = q)) as [-> | Hne].
  - now rewrite lookup_insert_eq.
  - now rewrite lookup_insert_ne.
Qed.

Lemma Image_findOne_alter (imgs : gmap string Image.t)
    (f : Image.t -> Image.t) (k id userId : string) (image : Image.t) :
  (forall i, Image.userId (f i) = Image.userId i) ->
  (forall i, Image.path (f i) = Image.path i) ->
  Image_findOne imgs id userId = Some image ->
  exists image',
    Image_findOne (alter f k imgs) id userId = Some image'
    /\ Image.path image' = Image.path image.
Proof.
  intros Huser Hpath. unfold Image_findOne.
  destruct (decide (k = id)) as [-> | Hne].
  - rewrite lookup_alter_eq. destruct (imgs !! id) as [i | ]; [ | discriminate ].
    cbn. rewrite Huser.
    destruct (String.eqb (Image.userId i) userId); [ | discriminate ].
    intros [= <-]. eexists. split; [ reflexivity | apply Hpath ].
  - rewrite lookup_alter_ne by exact Hne. intros H. now exists image.
Qed.

(** X15. A result of the synchronous path is reused: after a request that
    ran the pipeline and answered with the file [p], every request for the
    same image whose spec has the same cache key (the same spec, a
    re-ordering of it, or one that differs only below the top level) is
    answered with [p] from the cache until the entry expires, without
    running a pipeline: the files and the rows stay as they are. *)
Theorem transformImageSync_reuses_result (env : Env) (now1 now2 : Z)
    (uuid1 uuid2 : string) (req : request) (t2 : list (string * json))
    (w : World) (p ct : string) :
  size (NodeCache.data (apiCache w)) < NodeCache.maxKeys ->
  (0 < CACHE_TTL env)%Z ->
  (now2 <= now1 + CACHE_TTL env * 1000)%Z ->
  generateCacheKey (req_id req) t2
  = generateCacheKey (req_id req) (req_transformations req) ->
  (transformImageSync env now1 uuid1 req w).1 = SendFile p (Some ct) ->
  let w1 := (transformImageSync env now1 uuid1 req w).2 in
  let req2 := {| req_id := req_id req; req_userId := req_userId req;
                 req_transformations := t2 |} in
  (transformImageSync env now2 uuid2 req2 w1).1 = SendFile p None
  /\ disk (transformImageSync env now2 uuid2 req2 w1).2 = disk w1
  /\ images (transformImageSync env now2 uuid2 req2 w1).2 = images w1.
Proof.
  intros Hsize Httl Hnow Hkey H1 w1 req2. subst w1.
  destruct (transformImageSync env now1 uuid1 req w) as [r1 w1] eqn:E.
  cbn [fst snd] in *. subst r1. unfold transformImageSync in E.
  destruct (Image_findOne (images w) (req_id req) (req_userId req))
    as [image | ] eqn:Hfind; [ | inversion E ].
  destruct (existsSync (disk w) (Image.path image)) eqn:Hsrc;
    cbn [negb] in E; [ | inversion E ].
  set (key := generateCacheKey (req_id req) (req_transformations req)) in *.
  pose proof (getFromCache_size now1 key (apiCache w)) as Hsize1.
  destruct (getFromCache now1 key (apiCache w)) as [cp cache1].
  cbn [snd] in Hsize1.
  assert (Hproc : transformImageSync_process env now1 uuid1 req image key
                    (set_apiCache cache1 w) = (SendFile p (Some ct), w1)).
  { destruct cp as [p0 | ]; [ | exact E ].
    destruct (existsSync (disk w) p0); [ inversion E | exact E ]. }
  clear E. unfold transformImageSync_process in Hproc.
  destruct (transformImageSync_plan uuid1 (Image.filename image)
              (req_transformations req)) as [pl | m]; [ | inversion Hproc ].
  destruct (sharp_toFile (geometry env)
              (disk (set_apiCache cache1 w) !! Image.path image) (calls pl))
    as [d | m]; [ | inversion Hproc ].
  injection Hproc as Hp _ Hw1.
  cbn [set_disk set_apiCache disk apiCache] in Hw1.
  assert (Hdisk1 : disk w1 = <[p := ImageFile d]> (disk w))
    by (rewrite <- Hw1, <- Hp; reflexivity).
  assert (Hcache1 : apiCache w1
                    = (setInCache now1 key p (CACHE_TTL env) cache1).2)
    by (rewrite <- Hw1, <- Hp; reflexivity).
  assert (Himgs1 : images w1
                   = alter (with_history
                              (Image.transformations image
                               ++ [SyncEntry (req_transformations req) p now1])
                              now1) (Image.id image) (images w))
    by (rewrite <- Hw1, <- Hp; reflexivity).
  destruct (Image_findOne_alter (images w)
              (with_history
                 (Image.transformations image
                  ++ [SyncEntry (req_transformations req) p now1])%list now1)
              (Image.id image) (req_id req) (req_userId req) image)
    as (image' & Hfind' & Hpath'); [ reflexivity | reflexivity | exact Hfind | ].
  rewrite <- Himgs1 in Hfind'.
  unfold transformImageSync. cbn [req2 req_id req_userId req_transformations].
  rewrite Hfind', Hpath', Hdisk1, (existsSync_insert _ _ _ _ Hsrc), Hkey.
  cbn [negb]. fold key.
  pose proof (setInCache_hit now1 now2 key p (CACHE_TTL env) cache1) as Hhit.
  rewrite <- Hcache1 in Hhit.
  destruct (getFromCache now2 key (apiCache w1)) as [cp2 cache2].
  cbn [fst] in Hhit. rewrite Hhit.
  - unfold existsSync. rewrite lookup_insert_eq.
    cbn [fst snd set_apiCache disk images]. rewrite Hdisk1. auto.
  - unfold NodeCache.maxKeys in *. lia.
  - rewrite <- Hp. apply path_join_not_empty.
  - exact Httl.
  - exact Hnow.
Qed.

Lemma transformImageSync_reuses_result_witness :
  (transformImageSync env0 2 "U2" (req0 resize200_spec) cached_world).1
  = SendFile "processed/U1.jpg" None.
Proof.
  assert (Hsize : size (NodeCache.data (apiCache world0)) < NodeCache.maxKeys)
    by (vm_compute; lia).
  assert (Hkey : generateCacheKey (req_id (req0 resize100_spec)) resize200_spec
                 = generateCacheKey (req_id (req0 resize100_spec))
                     (req_transformations (req0 resize100_spec)))
    by (vm_compute; reflexivity).
  assert (H1 : (transformImageSync env0 1 "U1" (req0 resize100_spec) world0).1
               = SendFile "processed/U1.jpg" (Some "image/jpeg"))
    by (vm_compute; reflexivity).
  assert (Httl : (0 < CACHE_TTL env0)%Z) by (vm_compute; reflexivity).
  assert (Hnow : (2 <= 1 + CACHE_TTL env0 * 1000)%Z)
    by (vm_compute; discriminate).
  exact (proj1 (transformImageSync_reuses_result env0 1 2 "U1" "U2"
                  (req0 resize100_spec) resize200_spec world0 _ _
                  Hsize Httl Hnow Hkey H1)).
Defined.

(** ** Deleting an image *)

Lemma deleteImage_fields (id : string) (w : World) (image : Image.t) :
  images w !! id = Some image ->
  Image.id image = id ->
  Image.path image <> "" ->
  deleteImage id (Image.userId image) w
  = (Body 200 tt,
     set_images (delete id)
       (set_apiCache (clearImageCache id (apiCache w)).2
          (set_disk (delete (Image.path image) (disk w)) w))).
Proof.
  intros Hrow Hid Hpath. unfold deleteImage.
  rewrite (Image_findOne_own _ _ _ Hrow), Hid.
  destruct (String.eqb_spec (Image.path image) "") as [ | _ ];
    [ contradiction | ].
  cbn [negb]. unfold deleteFile.
  destruct (existsSync (disk w) (Image.path image)) eqn:E; [ reflexivity | ].
  cbn [snd]. do 4 f_equal. unfold existsSync in E.
  destruct (disk w !! Image.path image) eqn:E'; [ discriminate | ].
  symmetry. now apply delete_id.
Qed.



(** X17. [deleteImage] does not look at the in-flight flag.  When the head
    of the queue is a job of the deleted image, every later delivery of it
    fails on the missing source file and requeues the message: the job
    stays at the head of the queue for ever. *)
Theorem deleted_image_poisons_queue (env : Env) (id : string) (w : World)
    (image : Image.t) (msg : Job.t) (rest : list Job.t)
    (inputs : list (Z * string)) :
  images w !! id = Some image ->
  Image.id image = id ->
  Image.path image <> "" ->
  queue w = msg :: rest ->
  Job.sourcePath msg = Image.path image ->
  let w' := (deleteImage id (Image.userId image) w).2 in
  queue (run env inputs w') = msg :: rest
  /\ delivery_count (Job.jobId msg) (run env inputs w')
     = delivery_count (Job.jobId msg) w + length inputs.
Proof.
  intros Hrow Hid Hpath Hq Hsrc w'.
  assert (Hq' : queue w' = msg :: rest).
  { subst w'. rewrite (deleteImage_fields id w image Hrow Hid Hpath).
    exact Hq. }
  assert (Hdel : deliveries w' = deliveries w).
  { subst w'. now rewrite (deleteImage_fields id w image Hrow Hid Hpath). }
  assert (Hfail : forall uuid, exists m,
             applyTransformations env uuid (Job.sourcePath msg)
                                  (Job.transformations msg) (disk w') = Err m).
  { intros uuid. eexists. unfold applyTransformations.
    replace (existsSync (disk w') (Job.sourcePath msg)) with false;
      [ reflexivity | ].
    subst w'. rewrite (deleteImage_fields id w image Hrow Hid Hpath), Hsrc.
    cbn [snd set_images set_apiCache set_disk disk]. unfold existsSync.
    now rewrite lookup_delete_eq. }
  destruct (run_failing env msg rest inputs w' Hq' Hfail) as (Hq2 & _ & Hdel2).
  split; [ exact Hq2 | ].
  rewrite (delivery_count_app _ _ _ _ Hdel2).
  unfold delivery_count. now rewrite Hdel.
Qed.

Lemma deleted_image_poisons_queue_witness :
  queue (run env0 [(8%Z, "U1"); (9%Z, "U2")]
           (deleteImage "img1" "u1"
              (transformImage 5 "J1" (req0 resize100_spec) world0).2).2)
  = [{| Job.jobId := "J1"; Job.imageId := "img1"; Job.userId := "u1";
        Job.sourcePath := "uploads/photo.jpg";
        Job.originalFilename := "photo.jpg";
        Job.transformations := resize100_spec; Job.createdAt := 5 |}].
Proof.
  assert (Hrow : images (transformImage 5 "J1" (req0 resize100_spec) world0).2
                   !! "img1" = Some busy_image) by (vm_compute; reflexivity).
  assert (Hpath : Image.path busy_image <> "") by discriminate.
  assert (Hq : queue (transformImage 5 "J1" (req0 resize100_spec) world0).2
               = [{| Job.jobId := "J1"; Job.imageId := "img1";
                     Job.userId := "u1";
                     Job.sourcePath := "uploads/photo.jpg";
                     Job.originalFilename := "photo.jpg";
                     Job.transformations := resize100_spec;
                     Job.createdAt := 5 |}]) by (vm_compute; reflexivity).
  exact (proj1 (deleted_image_poisons_queue env0 "img1" _ busy_image _ []
                  [(8%Z, "U1"); (9%Z, "U2")] Hrow eq_refl Hpath Hq eq_refl)).
Defined.

(** ** The order of the stages *)

Lemma staged_app (k : nat) (s l : list sharp_call) :
  Forall (fun c => stage_rank c = k) s ->
  in_stage_order l /\ Forall (fun c => k <= stage_rank c) l ->
  in_stage_order (s ++ l) /\ Forall (fun c => k <= stage_rank c) (s ++ l).
Proof.
  intros Hs [Hl Hge]. induction Hs as [ | c s Hc Hs IH ]; [ now split | ].
  destruct IH as [IH1 IH2]. split.
  - cbn [app]. constructor; [ exact IH1 | ].
    rewrite Hc. exact IH2.
  - cbn [app]. constructor; [ lia | exact IH2 ].
Qed.

Lemma staged_weaken (k k' : nat) (l : list sharp_call) :
  k <= k' ->
  in_stage_order l /\ Forall (fun c => k' <= stage_rank c) l ->
  in_stage_order l /\ Forall (fun c => k <= stage_rank c) l.
Proof.
  intros Hk [Hl Hge]. split; [ exact Hl | ].
  eapply Forall_impl; [ exact Hge | ]. intros c Hc. simpl in Hc. lia.
Qed.

Ltac stage_cases :=
  repeat match goal with
         | |- context [if ?c then _ else _] => destruct c
         end;
  repeat constructor.

Lemma worker_resize_stage (resize : jsval) :
  Forall (fun c => stage_rank c = 0) (worker_resize resize).
Proof. unfold worker_resize. stage_cases. Qed.

Lemma sync_resize_stage (resize : jsval) :
  Forall (fun c => stage_rank c = 0) (sync_resize resize).
Proof. unfold sync_resize. stage_cases. Qed.

Lemma crop_stage_stage (crop : jsval) :
  Forall (fun c => stage_rank c = 1) (crop_stage crop).
Proof. unfold crop_stage. stage_cases. Qed.

Lemma worker_rotate_stage (rotate : jsval) :
  Forall (fun c => stage_rank c = 2) (worker_rotate rotate).
Proof. unfold worker_rotate. destruct rotate as [[ | | | | | ] | ]; repeat constructor. Qed.

Lemma sync_rotate_stage (rotate : jsval) :
  Forall (fun c => stage_rank c = 2) (sync_rotate rotate).
Proof. unfold sync_rotate. destruct rotate; stage_cases. Qed.

Lemma flip_stage_stage (flip : jsval) :
  Forall (fun c => stage_rank c = 3) (flip_stage flip).
Proof. unfold flip_stage. stage_cases. Qed.

Lemma flop_stage_stage (flop : jsval) :
  Forall (fun c => stage_rank c = 4) (flop_stage flop).
Proof. unfold flop_stage. stage_cases. Qed.

Lemma when_stage (k : nat) (c : bool) (l : list sharp_call) :
  Forall (fun x => stage_rank x = k) l ->
  Forall (fun x => stage_rank x = k) (when c l).
Proof. destruct c; [ auto | constructor ]. Qed.

Lemma worker_filters_stage (filters : jsval) :
  Forall (fun c => stage_rank c = 5) (worker_filters filters).
Proof.
  unfold worker_filters. destruct (truthy filters); [ | constructor ].
  repeat (apply Forall_app; split); apply when_stage; repeat constructor.
Qed.

Lemma sync_filters_stage (filters : jsval) :
  Forall (fun c => stage_rank c = 5) (sync_filters filters).
Proof.
  unfold sync_filters. destruct (truthy filters); [ | constructor ].
  repeat (apply Forall_app; split);
    try (apply when_stage; repeat constructor).
  destruct (get filters "blur"); [ | constructor ].
  apply when_stage; repeat constructor.
Qed.

Lemma worker_watermark_stage (watermark : jsval) :
  Forall (fun c => stage_rank c = 6) (worker_watermark watermark).
Proof. unfold worker_watermark. destruct watermark; stage_cases. Qed.

Lemma worker_encode_stage (f : string) (quality compress : jsval) :
  stage_rank (worker_encode f quality compress) = 7.
Proof.
  unfold worker_encode. cbv zeta.
  repeat match goal with
         | |- context [if ?c then Jpeg _ _ else _] => destruct c
         | |- context [if ?c then Png _ _ else _] => destruct c
         | |- context [if ?c then Webp _ else _] => destruct c
         | |- context [if ?c then Gif else _] => destruct c
         | |- context [if ?c then Tiff _ else _] => destruct c
         | |- context [if ?c then Avif _ else _] => destruct c
         end; reflexivity.
Qed.

Lemma sync_encode_stage (f : string) (quality : jsval) :
  stage_rank (sync_encode f quality) = 7.
Proof.
  unfold sync_encode.
  repeat match goal with
         | |- context [if ?c then Jpeg _ _ else _] => destruct c
         | |- context [if ?c then Png _ _ else _] => destruct c
         | |- context [if ?c then Webp _ else _] => destruct c
         end; reflexivity.
Qed.

Lemma encoder_alone (enc : sharp_call) :
  stage_rank enc = 7 ->
  in_stage_order [enc] /\ Forall (fun c => 7 <= stage_rank c) [enc].
Proof.
  intros H. split.
  - repeat constructor.
  - constructor; [ lia | constructor ].
Qed.

(** X18. Whatever the spec and the order of its fields, the calls either
    pipeline issues are in stage order (resize, crop, rotate, flip, flop,
    filters, watermark, encoder): no crop ever precedes a resize, and the
    encoder call is the last one. *)
Theorem pipelines_keep_stage_order (uuid sourcePath filename : string)
    (transformations : list (string * json)) (p p' : plan) :
  applyTransformations_plan uuid sourcePath transformations = Ok p ->
  transformImageSync_plan uuid filename transformations = Ok p' ->
  in_stage_order (calls p) /\ in_stage_order (calls p')
  /\ (exists stages, calls p = (stages ++ [worker_encode (outputFormat p)
                                   (field transformations "quality")
                                   (field transformations "compress")])%list)
  /\ (exists stages, calls p' = (stages ++ [sync_encode (outputFormat p')
                                    (field transformations "quality")])%list).
Proof.
  unfold applyTransformations_plan, transformImageSync_plan. cbv zeta.
  destruct (or_else (field transformations "format") _) as [ | | | f | | ];
    try discriminate.
  destruct (or_else (field transformations "format") _) as [ | | | f' | | ];
    try discriminate.
  intros [= <-] [= <-]. cbn [calls outputFormat].
  split; [ | split; [ | split; eexists; reflexivity ] ].
  - rewrite <- !app_assoc.
    apply (staged_app 0); [ apply worker_resize_stage | ].
    apply (staged_weaken 0 1); [ lia | ].
    apply (staged_app 1); [ apply crop_stage_stage | ].
    apply (staged_weaken 1 2); [ lia | ].
    apply (staged_app 2); [ apply worker_rotate_stage | ].
    apply (staged_weaken 2 3); [ lia | ].
    apply (staged_app 3); [ apply flip_stage_stage | ].
    apply (staged_weaken 3 4); [ lia | ].
    apply (staged_app 4); [ apply flop_stage_stage | ].
    apply (staged_weaken 4 5); [ lia | ].
    apply (staged_app 5); [ apply worker_filters_stage | ].
    apply (staged_weaken 5 6); [ lia | ].
    apply (staged_app 6); [ apply worker_watermark_stage | ].
    apply (staged_weaken 6 7); [ lia | ].
    apply encoder_alone, worker_encode_stage.
  - rewrite <- !app_assoc.
    apply (staged_app 0); [ apply sync_resize_stage | ].
    apply (staged_weaken 0 1); [ lia | ].
    apply (staged_app 1); [ apply crop_stage_stage | ].
    apply (staged_weaken 1 2); [ lia | ].
    apply (staged_app 2); [ apply sync_rotate_stage | ].
    apply (staged_weaken 2 3); [ lia | ].
    apply (staged_app 3); [ apply flip_stage_stage | ].
    apply (staged_weaken 3 4); [ lia | ].
    apply (staged_app 4); [ apply flop_stage_stage | ].
    apply (staged_weaken 4 5); [ lia | ].
    apply (staged_app 5); [ apply sync_filters_stage | ].
    apply (staged_weaken 5 7); [ lia | ].
    apply encoder_alone, sync_encode_stage.
Qed.

Lemma pipelines_keep_stage_order_witness :
  in_stage_order
    [Resize (Some (jint 250)) (Some (jint 200)) (JStr "cover") (JStr "center")
            (Some (JBool false));
     Extract (jint 0) (jint 0) (Some (jint 500)) (Some (jint 400));
     Jpeg (jint 80) (Some true)].
Proof.
  eassert (Hw : applyTransformations_plan "U1" "uploads/photo.jpg"
                  crop_then_resize_spec = Ok _) by (vm_compute; reflexivity).
  eassert (Hs : transformImageSync_plan "U1" "photo.jpg"
                  crop_then_resize_spec = Ok _) by (vm_compute; reflexivity).
  exact (proj1 (pipelines_keep_stage_order _ _ _ _ _ _ Hw Hs)).
Defined.

(** X19. The order of the fields of a spec has no effect on what either
    pipeline does: two specs with the same fields in another order give
    the same calls, output format and output name. *)
Theorem pipelines_ignore_field_order (uuid sourcePath filename : string)
    (t1 t2 : list (string * json)) :
  Permutation t1 t2 ->
  List.NoDup (map fst t1) ->
  applyTransformations_plan uuid sourcePath t1
  = applyTransformations_plan uuid sourcePath t2
  /\ transformImageSync_plan uuid filename t1
     = transformImageSync_plan uuid filename t2.
Proof.
  intros Hperm Hnd.
  assert (Hfield : forall name, field t1 name = field t2 name).
  { intros name. unfold field. now apply get_own_Permutation. }
  unfold applyTransformations_plan, transformImageSync_plan.
  rewrite !Hfield. split; reflexivity.
Qed.

Lemma pipelines_ignore_field_order_witness :
  applyTransformations_plan "U1" "uploads/photo.jpg" crop_then_resize_spec
  = applyTransformations_plan "U1" "uploads/photo.jpg"
      [("resize", JObj [("width", jint 250); ("height", jint 200)]);
       ("crop", JObj [("x", jint 0); ("y", jint 0);
                      ("width", jint 500); ("height", jint 400)])].
Proof.
  refine (proj1 (pipelines_ignore_field_order "U1" "uploads/photo.jpg"
                   "photo.jpg" crop_then_resize_spec _ _ _)).
  - apply perm_swap.
  - repeat constructor; simpl; intuition discriminate.
Defined.

(** ** Uploads: the stored name keeps the checked extension *)

Lemma includes_In (l : list string) (x : string) :
  includes l x = true -> In x l.
Proof.
  unfold includes. intros H. apply existsb_exists in H as (y & Hy & Heq).
  apply String.eqb_eq in Heq. now subst.
Qed.

Lemma fileFilter_accepts (originalname mimetype : string) :
  fileFilter originalname mimetype = Ok tt ->
  In mimetype ALLOWED_MIME_TYPES
  /\ In (toLowerCase (path_extname originalname)) ALLOWED_EXTENSIONS.
Proof.
  unfold fileFilter.
  destruct (includes ALLOWED_MIME_TYPES mimetype) eqn:Hm; [ | discriminate ].
  destruct (includes ALLOWED_EXTENSIONS
              (toLowerCase (path_extname originalname))) eqn:He;
    [ | discriminate ].
  intros _. split; now apply includes_In.
Qed.

Lemma after_last_slash_none (s : string) :
  has_char is_dot_or_slash s = false -> after_last_slash s = None.
Proof.
  unfold has_char. induction s as [ | c s IH ]; [ reflexivity | ].
  cbn [list_ascii_of_string existsb after_last_slash]. intros H.
  apply orb_false_iff in H as [Hc Hs]. rewrite (IH Hs).
  unfold is_dot_or_slash in Hc. apply orb_false_iff in Hc as [_ Hc].
  now rewrite Hc.
Qed.

Lemma from_last_dot_none (s : string) :
  has_char is_dot_or_slash s = false -> from_last_dot s = None.
Proof.
  unfold has_char. induction s as [ | c s IH ]; [ reflexivity | ].
  cbn [list_ascii_of_string existsb from_last_dot]. intros H.
  apply orb_false_iff in H as [Hc Hs]. rewrite (IH Hs).
  unfold is_dot_or_slash in Hc. apply orb_false_iff in Hc as [Hc _].
  now rewrite Hc.
Qed.

Lemma after_last_slash_join (dir : string) :
  forall name, after_last_slash name = None ->
               after_last_slash (path_join dir name) = Some name.
Proof.
  unfold path_join. intros name Hname.
  induction dir as [ | c dir IH ].
  - change ("" +:+ "/" +:+ name) with (String "/" name).
    cbn [after_last_slash]. now rewrite Hname.
  - change (String c dir +:+ "/" +:+ name)
      with (String c (dir +:+ "/" +:+ name)).
    cbn [after_last_slash]. now rewrite IH.
Qed.

Lemma after_last_slash_app (u : string) :
  forall e, has_char is_dot_or_slash u = false ->
            after_last_slash e = None ->
            after_last_slash (u +:+ e) = None.
Proof.
  unfold has_char. induction u as [ | c u IH ]; intros e Hu He; [ exact He | ].
  change (String c u +:+ e) with (String c (u +:+ e)).
  cbn [list_ascii_of_string existsb] in Hu.
  apply orb_false_iff in Hu as [Hc Hu].
  cbn [after_last_slash]. rewrite (IH e Hu He).
  unfold is_dot_or_slash in Hc. apply orb_false_iff in Hc as [_ Hc].
  now rewrite Hc.
Qed.

Lemma from_last_dot_app (u : string) :
  forall e x, from_last_dot e = Some x ->
              from_last_dot (u +:+ e) = Some x.
Proof.
  induction u as [ | c u IH ]; intros e x He; [ exact He | ].
  change (String c u +:+ e) with (String c (u +:+ e)).
  cbn [from_last_dot]. now rewrite (IH e x He).
Qed.

Lemma first_char_no_dot (c : ascii) (u : string) :
  has_char is_dot_or_slash (String c u) = false -> ascii_is c 46 = false.
Proof.
  unfold has_char. cbn [list_ascii_of_string existsb]. intros H.
  apply orb_false_iff in H as [Hc _]. unfold is_dot_or_slash in Hc.
  now apply orb_false_iff in Hc as [Hc _].
Qed.

(** The extension of a path whose base name is [uuid ++ ext], for [ext] a
    dot followed by letters and [uuid] a non-empty name without dot. *)
Lemma path_extname_of_basename (p uuid ext : string) :
  path_basename p = uuid +:+ ext ->
  uuid <> "" ->
  has_char is_dot_or_slash uuid = false ->
  from_last_dot ext = Some ext ->
  path_extname p = ext.
Proof.
  intros Hbase Hne Hu Hdot. unfold path_extname. rewrite Hbase.
  destruct uuid as [ | c u ]; [ contradiction | ].
  pose proof (first_char_no_dot c u Hu) as Hc.
  pose proof (from_last_dot_app (String c u) ext ext Hdot) as Hfrom.
  change (String c u +:+ ext) with (String c (u +:+ ext)) in *.
  cbv beta iota. rewrite Hc, Hfrom.
  destruct (String.eqb_spec (String c (u +:+ ext)) "..") as [Heq | _];
    [ | reflexivity ].
  injection Heq as -> _. discriminate Hc.
Qed.

(** X20. An upload that [fileFilter] accepts is stored under a name whose
    extension is the lower-cased extension of the original name, one of the
    allowed extensions: the format the pipelines later read off the stored
    path is the one the filter checked.  The generated identifier is a
    non-empty name without dot and slash (a UUID). *)
Theorem stored_name_keeps_checked_extension (dir uuid originalname mimetype
    : string) :
  fileFilter originalname mimetype = Ok tt ->
  uuid <> "" ->
  has_char is_dot_or_slash uuid = false ->
  path_extname (path_join dir (storage_filename uuid originalname))
  = toLowerCase (path_extname originalname)
  /\ path_extname (storage_filename uuid originalname)
     = toLowerCase (path_extname originalname)
  /\ In (path_extname (path_join dir (storage_filename uuid originalname)))
        ALLOWED_EXTENSIONS.
Proof.
  intros Hok Hne Hu. apply fileFilter_accepts in Hok as [_ Hext].
  unfold storage_filename.
  set (ext := toLowerCase (path_extname originalname)) in *.
  assert (Hshape : after_last_slash ext = None /\ from_last_dot ext = Some ext).
  { unfold ALLOWED_EXTENSIONS in Hext. cbn [In] in Hext.
    repeat (destruct Hext as [<- | Hext]; [ split; reflexivity | ]).
    contradiction. }
  destruct Hshape as [Hslash Hdot].
  assert (Hnoslash : after_last_slash (uuid +:+ ext) = None)
    by now apply after_last_slash_app.
  assert (H1 : path_extname (path_join dir (uuid +:+ ext)) = ext).
  { apply (path_extname_of_basename _ uuid ext); try assumption.
    unfold path_basename. now rewrite after_last_slash_join. }
  split; [ exact H1 | ]. split; [ | now rewrite H1 ].
  apply (path_extname_of_basename _ uuid ext); try assumption.
  unfold path_basename. now rewrite Hnoslash.
Qed.

Lemma stored_name_keeps_checked_extension_witness :
  path_extname (path_join "uploads" (storage_filename "U1" "Holiday.JPG"))
  = ".jpg".
Proof.
  assert (Hext : toLowerCase (path_extname "Holiday.JPG") = ".jpg")
    by reflexivity.
  rewrite <- Hext.
  refine (proj1 (stored_name_keeps_checked_extension "uploads" "U1"
                   "Holiday.JPG" "image/jpeg" _ _ _));
    [ reflexivity | discriminate | reflexivity ].
Defined.

(** ** What the transformations leave alone *)

Lemma rows_kept_refl (imgs : gmap string Image.t) : rows_kept imgs imgs.
Proof.
  intros k. destruct (imgs !! k); [ | exact I ]. repeat split.
Qed.

Lemma rows_kept_trans (a b c : gmap string Image.t) :
  rows_kept a b -> rows_kept b c -> rows_kept a c.
Proof.
  intros Hab Hbc k. specialize (Hab k). specialize (Hbc k).
  destruct (a !! k), (b !! k), (c !! k); try contradiction; try exact I.
  destruct Hab as (? & ? & ? & ?), Hbc as (? & ? & ? & ?).
  repeat split; congruence.
Qed.

Lemma rows_kept_alter (imgs : gmap string Image.t) (f : Image.t -> Image.t)
    (id : string) :
  (forall i, same_identity i (f i)) -> rows_kept imgs (alter f id imgs).
Proof.
  intros Hf k. destruct (decide (id = k)) as [-> | Hne].
  - rewrite lookup_alter_eq. destruct (imgs !! k); [ apply Hf | exact I ].
  - rewrite lookup_alter_ne by exact Hne.
    destruct (imgs !! k); [ | exact I ]. repeat split.
Qed.

Lemma same_identity_with_processing (flag : bool) (s : Status)
    (e : option string) (i : Image.t) :
  same_identity i (with_processing flag s e i).
Proof. repeat split. Qed.

Lemma same_identity_with_status (s : Status) (e : option string)
    (i : Image.t) :
  same_identity i (with_status s e i).
Proof. repeat split. Qed.

Lemma same_identity_with_history (h : list history_entry) (at_ : Z)
    (i : Image.t) :
  same_identity i (with_history h at_ i).
Proof. repeat split. Qed.

Lemma transformImage_rows (now : Z) (uuid : string) (req : request)
    (w : World) :
  rows_kept (images w) (images (transformImage now uuid req w).2).
Proof.
  unfold transformImage.
  destruct (Image_findOne (images w) (req_id req) (req_userId req))
    as [image | ]; [ | apply rows_kept_refl ].
  destruct (Image.isProcessing image); [ apply rows_kept_refl | ].
  destruct (negb (existsSync (disk w) (Image.path image)));
    [ apply rows_kept_refl | ].
  cbn [snd]. unfold publishToQueue. world_simpl.
  apply rows_kept_alter, same_identity_with_processing.
Qed.

Lemma transformImageSync_process_rows (env : Env) (now : Z) (uuid : string)
    (req : request) (image : Image.t) (cacheKey : string) (w : World) :
  rows_kept (images w)
    (images (transformImageSync_process env now uuid req image cacheKey w).2).
Proof.
  unfold transformImageSync_process.
  destruct (transformImageSync_plan uuid (Image.filename image)
              (req_transformations req)) as [p | m]; [ | apply rows_kept_refl ].
  destruct (sharp_toFile (geometry env) (disk w !! Image.path image) (calls p))
    as [d | m]; [ | apply rows_kept_refl ].
  cbn [snd]. world_simpl.
  apply rows_kept_alter, same_identity_with_history.
Qed.

Lemma transformImageSync_rows (env : Env) (now : Z) (uuid : string)
    (req : request) (w : World) :
  rows_kept (images w) (images (transformImageSync env now uuid req w).2).
Proof.
  unfold transformImageSync.
  destruct (Image_findOne (images w) (req_id req) (req_userId req))
    as [image | ]; [ | apply rows_kept_refl ].
  destruct (negb (existsSync (disk w) (Image.path image)));
    [ apply rows_kept_refl | ].
  destruct (getFromCache now _ (apiCache w)) as [cp cache1].
  assert (Hproc : rows_kept (images w)
            (images (transformImageSync_process env now uuid req image
                       (generateCacheKey (req_id req) (req_transformations req))
                       (set_apiCache cache1 w)).2))
    by apply (transformImageSync_process_rows env now uuid req image _
                (set_apiCache cache1 w)).
  destruct cp as [p | ]; [ | exact Hproc ].
  destruct (existsSync (disk w) p); [ apply rows_kept_refl | exact Hproc ].
Qed.

Lemma mark_processing_rows (job : Job.t) (w : World) :
  rows_kept (images w) (images (mark_processing job w)).
Proof. world_simpl. apply rows_kept_alter, same_identity_with_status. Qed.

Lemma processJob_rows (env : Env) (now : Z) (uuid : string) (job : Job.t)
    (w : World) :
  rows_kept (images w) (images (processJob env now uuid job w).2).
Proof.
  unfold processJob.
  eapply rows_kept_trans; [ apply (mark_processing_rows job w) | ].
  destruct (applyTransformations env uuid (Job.sourcePath job)
              (Job.transformations job) (disk (mark_processing job w)))
    as [[res disk'] | m].
  - destruct (Image_findByPk (images (set_disk disk' (mark_processing job w)))
                (Job.imageId job)) as [image | ].
    + cbn [snd]. cbn [set_workerCache Image_update set_images images].
      rewrite log_status_images. cbn [set_disk images].
      apply rows_kept_alter. intros i. repeat split.
    + cbn [snd set_disk images]. apply rows_kept_refl.
  - cbn [snd]. cbn [Image_update set_images images].
    rewrite log_status_images.
    apply rows_kept_alter, same_identity_with_processing.
Qed.

Lemma consume_rows (env : Env) (now : Z) (uuid : string) (w : World) :
  rows_kept (images w) (images (consume env now uuid w)).
Proof.
  unfold consume, onMessage. destruct (queue w) as [ | msg rest ];
    [ apply rows_kept_refl | ].
  pose proof (processJob_rows env now uuid msg
                (add_delivery (Job.jobId msg) w)) as H.
  destruct (processJob env now uuid msg (add_delivery (Job.jobId msg) w))
    as [[res | m] w']; exact H.
Qed.

(** X21. No transformation creates or deletes a row or changes whose it
    is: after [transformImage], [transformImageSync] or any number of
    deliveries to the worker, the table holds the same rows, each with the
    [id], [userId], [filename] and [path] it had. *)
Theorem transformations_keep_rows (env : Env) (now : Z) (uuid : string)
    (req : request) (inputs : list (Z * string)) (w : World) :
  rows_kept (images w) (images (transformImage now uuid req w).2)
  /\ rows_kept (images w) (images (transformImageSync env now uuid req w).2)
  /\ rows_kept (images w) (images (run env inputs w)).
Proof.
  split; [ apply transformImage_rows | ].
  split; [ apply transformImageSync_rows | ].
  revert w. induction inputs as [ | [now' uuid'] inputs IH ]; intros w.
  - apply rows_kept_refl.
  - cbn [run]. eapply rows_kept_trans; [ apply consume_rows | apply IH ].
Qed.

(** ** From upload to the first transformation *)



(** ** Pages of [listImages] *)

Lemma firstn_plus {A : Type} (a b : nat) :
  forall l : list A,
    firstn (a + b) l = (firstn a l ++ firstn b (skipn a l))%list.
Proof.
  induction a as [ | a IH ]; intros l; [ reflexivity | ].
  destruct l as [ | x l ]; cbn [Nat.add firstn skipn app].
  - now destruct b.
  - now rewrite IH.
Qed.

Lemma chunks_concat {A : Type} (n : nat) (l : list A) (k : nat) :
  concat (map (fun p => firstn n (skipn (p * n) l)) (seq 0 k))
  = firstn (k * n) l.
Proof.
  induction k as [ | k IH ]; [ reflexivity | ].
  rewrite seq_S, map_app, concat_app, IH. cbn [map concat Nat.add].
  rewrite app_nil_r. replace (S k * n) with (k * n + n) by lia.
  now rewrite firstn_plus.
Qed.

Lemma ceil_div_covers (count limit : Z) :
  (0 <= count)%Z -> (1 <= limit)%Z ->
  (0 <= ceil_div count limit)%Z /\ (count <= ceil_div count limit * limit)%Z.
Proof.
  intros Hc Hl. unfold ceil_div. split.
  - apply Z.div_pos; lia.
  - pose proof (Z.mul_succ_div_gt (count + limit - 1) limit ltac:(lia)). lia.
Qed.

Lemma ceil_div_next (count limit page : Z) :
  (0 <= count)%Z -> (1 <= limit)%Z ->
  (page < ceil_div count limit)%Z <-> (page * limit < count)%Z.
Proof.
  intros Hc Hl. unfold ceil_div. split; intros H.
  - pose proof (Z.mul_div_le (count + limit - 1) limit ltac:(lia)). nia.
  - assert (page + 1 <= (count + limit - 1) / limit)%Z; [ | lia ].
    apply Z.div_le_lower_bound; lia.
Qed.

Lemma listImages_page (rows : list Image.t) (userId : string)
    (page limit : Z) :
  (1 <= page)%Z -> (1 <= limit)%Z ->
  let mine := List.filter (fun i => String.eqb (Image.userId i) userId) rows in
  listImages rows userId (Some page) (Some limit)
  = Body 200
      (firstn (Z.to_nat limit)
              (skipn (Z.to_nat (page - 1) * Z.to_nat limit) mine),
       {| currentPage := page;
          totalPages := ceil_div (Z.of_nat (length mine)) limit;
          totalItems := Z.of_nat (length mine);
          itemsPerPage := limit;
          hasNextPage :=
            (page <? ceil_div (Z.of_nat (length mine)) limit)%Z;
          hasPrevPage := (1 <? page)%Z |}).
Proof.
  intros Hp Hl mine. unfold listImages, parseInt_or.
  replace (page =? 0)%Z with false by (symmetry; apply Z.eqb_neq; lia).
  replace (limit =? 0)%Z with false by (symmetry; apply Z.eqb_neq; lia).
  replace (limit <? 0)%Z with false by (symmetry; apply Z.ltb_ge; lia).
  replace ((page - 1) * limit <? 0)%Z with false
    by (symmetry; apply Z.ltb_ge; nia).
  cbn [orb]. fold mine.
  rewrite Z2Nat.inj_mul by lia. reflexivity.
Qed.

(** X23. For a page number and a limit as the validator admits them
    (both at least 1), [listImages] answers 200 with at most [limit] rows,
    all of the caller, and a total that counts the caller's rows only;
    [hasNextPage] is true exactly when the next page holds a row, and a
    page past the last one is an empty list, not an error. *)
Theorem listImages_page_bounds (rows : list Image.t) (userId : string)
    (page limit : Z) :
  (1 <= page)%Z -> (1 <= limit)%Z ->
  exists imgs pg imgs' pg',
    listImages rows userId (Some page) (Some limit) = Body 200 (imgs, pg)
    /\ listImages rows userId (Some (page + 1)%Z) (Some limit)
       = Body 200 (imgs', pg')
    /\ (Z.of_nat (length imgs) <= limit)%Z
    /\ Forall (fun i => Image.userId i = userId) imgs
    /\ totalItems pg
       = Z.of_nat (length (List.filter
                             (fun i => String.eqb (Image.userId i) userId)
                             rows))
    /\ (hasNextPage pg = true <-> imgs' <> [])
    /\ ((totalPages pg < page)%Z -> imgs = []).
Proof.
  intros Hp Hl.
  set (mine := List.filter (fun i => String.eqb (Image.userId i) userId) rows).
  do 4 eexists.
  split; [ apply listImages_page; assumption | ].
  split; [ apply listImages_page; lia | ].
  fold mine. cbn [totalItems hasNextPage totalPages].
  set (n := Z.to_nat limit).
  assert (Hlen : forall k, length (skipn k mine) = length mine - k)
    by (intros k; apply length_skipn).
  split; [ | split; [ | split; [ reflexivity | split ] ] ].
  - rewrite length_firstn. lia.
  - apply Forall_take, Forall_drop, List.Forall_forall. intros i Hi.
    apply filter_In in Hi as [_ Hi]. now apply String.eqb_eq.
  - rewrite Z.ltb_lt, ceil_div_next by lia.
    replace (page + 1 - 1)%Z with page by lia.
    split.
    + intros Hlt Hnil. apply (f_equal (@length _)) in Hnil.
      rewrite length_firstn, Hlen in Hnil. cbn [length] in Hnil.
      assert (Z.of_nat (Z.to_nat page * n) = (page * limit)%Z)
        by (unfold n; nia).
      nia.
    + intros Hne. destruct (Z.ltb_spec (page * limit) (Z.of_nat (length mine)))
        as [Hlt | Hge]; [ exact Hlt | ].
      exfalso. apply Hne. rewrite skipn_all2; [ apply firstn_nil | ].
      unfold n. nia.
  - intros Hlt. rewrite skipn_all2; [ apply firstn_nil | ].
    destruct (ceil_div_covers (Z.of_nat (length mine)) limit) as [H0 Hcov];
      [ lia | lia | ].
    unfold n. nia.
Qed.

Lemma listImages_page_bounds_witness :
  exists imgs pg imgs' pg',
    listImages [image0; busy_image] "u1" (Some 1%Z) (Some 1%Z)
    = Body 200 (imgs, pg)
    /\ listImages [image0; busy_image] "u1" (Some (1 + 1)%Z) (Some 1%Z)
       = Body 200 (imgs', pg')
    /\ (Z.of_nat (length imgs) <= 1)%Z
    /\ Forall (fun i => Image.userId i = "u1") imgs
    /\ totalItems pg
       = Z.of_nat (length (List.filter
                             (fun i => String.eqb (Image.userId i) "u1")
                             [image0; busy_image]))
    /\ (hasNextPage pg = true <-> imgs' <> [])
    /\ ((totalPages pg < 1)%Z -> imgs = []).
Proof.
  apply (listImages_page_bounds [image0; busy_image] "u1" 1 1); lia.
Defined.

(** X24. The pages of [listImages] cut the caller's rows without loss and
    without repetition: for a limit of at least 1, the rows of the pages
    1 to [totalPages], one after the other, are the caller's rows in the
    order of the query. *)
Theorem listImages_pages_partition (rows : list Image.t) (userId : string)
    (limit : Z) :
  (1 <= limit)%Z ->
  let mine := List.filter (fun i => String.eqb (Image.userId i) userId) rows in
  let pages := Z.to_nat (ceil_div (Z.of_nat (length mine)) limit) in
  concat
    (map (fun page =>
            match listImages rows userId (Some (Z.of_nat page)) (Some limit)
            with
            | Body _ (imgs, _) => imgs
            | Thrown _ _ => []
            end)
         (seq 1 pages))
  = mine.
Proof.
  intros Hl mine pages. set (n := Z.to_nat limit).
  transitivity (concat (map (fun q => firstn n (skipn (q * n) mine))
                            (seq 0 pages))).
  - f_equal. rewrite <- seq_shift, map_map. apply map_ext. intros q.
    rewrite (listImages_page rows userId (Z.of_nat (S q)) limit) by lia.
    fold mine. fold n. do 3 f_equal. lia.
  - rewrite chunks_concat. apply firstn_all2.
    destruct (ceil_div_covers (Z.of_nat (length mine)) limit) as [H0 Hcov];
      [ lia | lia | ].
    unfold pages, n. nia.
Qed.

Lemma listImages_pages_partition_witness :
  concat
    (map (fun page =>
            match listImages [image0; busy_image] "u1"
                             (Some (Z.of_nat page)) (Some 1%Z)
            with
            | Body _ (imgs, _) => imgs
            | Thrown _ _ => []
            end)
         (seq 1 (Z.to_nat
                   (ceil_div
                      (Z.of_nat
                         (length
                            (List.filter
                               (fun i => String.eqb (Image.userId i) "u1")
                               [image0; busy_image]))) 1))))
  = List.filter (fun i => String.eqb (Image.userId i) "u1")
                [image0; busy_image].
Proof.
  apply (listImages_pages_partition [image0; busy_image] "u1" 1). lia.
Defined.

(** ** The error handler *)

(** X25. Outside development no response carries a stack trace, and in
    production an error that is not operational (anything but an
    [ApiError]: a Sequelize validation or unique-constraint error, a token
    error, a malformed body among them) is answered with the generic
    message and without details, whatever the error holds. *)
Theorem errorHandler_hides_internal_errors (NODE_ENV : string) (err : thrown) :
  (NODE_ENV <> "development" -> res_stack (errorHandler NODE_ENV err) = None)
  /\ (err_isOperational err = false ->
      res_error (errorHandler "production" err)
      = "An unexpected error occurred"
      /\ res_details (errorHandler "production" err) = None
      /\ res_stack (errorHandler "production" err) = None).
Proof.
  split.
  - intros Hne. unfold errorHandler.
    destruct (String.eqb_spec NODE_ENV "development") as [ | _ ];
      [ contradiction | ].
    repeat match goal with
           | |- context [if ?c then _ else _] => destruct c
           end; reflexivity.
  - intros Hop. unfold errorHandler. rewrite Hop.
    change (negb false && String.eqb "production" "production") with true.
    change (String.eqb "production" "development") with false.
    repeat match goal with
           | |- context [if ?c then _ else _] => destruct c
           end; cbn; auto.
Qed.

Lemma errorHandler_hides_internal_errors_witness :
  res_error
    (errorHandler "production"
       {| err_name := "SequelizeUniqueConstraintError";
          err_statusCode := None; err_message := "Validation error";
          err_details := None; err_isOperational := false;
          err_errors := [("filename", "filename must be unique")];
          err_body_syntax := false; err_stack := "at Image.create" |})
  = "An unexpected error occurred".
Proof.
  refine (proj1 (proj2 (errorHandler_hides_internal_errors "production" _) _)).
  reflexivity.
Defined.

(** X26. An [ApiError] reaches the client as it was thrown: for a status
    code other than 0 and a non-empty message, the response has that
    status and that message in every environment. *)
Theorem errorHandler_passes_ApiError (NODE_ENV : string) (statusCode : Z)
    (message : string) (details : option error_details) (stack : string) :
  statusCode <> 0%Z ->
  message <> "" ->
  res_status (errorHandler NODE_ENV
                (new_ApiError statusCode message details stack)) = statusCode
  /\ res_error (errorHandler NODE_ENV
                  (new_ApiError statusCode message details stack)) = message
  /\ res_details (errorHandler NODE_ENV
                    (new_ApiError statusCode message details stack))
     = if details_truthy details then details else None.
Proof.
  intros Hs Hm. unfold errorHandler, new_ApiError.
  cbn [err_name err_statusCode err_message err_details err_isOperational
       err_errors err_body_syntax err_stack].
  change (String.eqb "Error" "SequelizeValidationError") with false.
  change (String.eqb "Error" "SequelizeUniqueConstraintError") with false.
  change (String.eqb "Error" "SequelizeForeignKeyConstraintError") with false.
  change (String.eqb "Error" "JsonWebTokenError") with false.
  change (String.eqb "Error" "TokenExpiredError") with false.
  cbn [negb andb].
  destruct (Z.eqb_spec statusCode 0) as [ | _ ]; [ contradiction | ].
  destruct (String.eqb_spec message "") as [ | _ ]; [ contradiction | ].
  cbn [res_status res_error res_details].
  split; [ reflexivity | ]. split; [ reflexivity | ].
  destruct (details_truthy details) eqn:E; cbn; rewrite ?E; reflexivity.
Qed.

Lemma errorHandler_passes_ApiError_witness :
  res_status (errorHandler "production"
                (new_ApiError 404 "Image not found" None "")) = 404%Z
  /\ res_error (errorHandler "production"
                  (new_ApiError 404 "Image not found" None ""))
     = "Image not found".
Proof.
  destruct (errorHandler_passes_ApiError "production" 404 "Image not found"
              None "") as (H1 & H2 & _); [ lia | discriminate | ].
  split; [ exact H1 | exact H2 ].
Defined.
